(** * The Challenge Engine of the fintech backend, embedded in Rocq

    The development follows [src/modules/challenges/ChallengesService.ts],
    [src/modules/rewards/RewardsService.ts] and the in-memory
    [PostgreSQLProvider] they run on.

    Conventions of the embedding:
    - amounts, points and day counts are integers ([Z]); the source holds
      them as doubles, whose sums are exact on whole numbers only, so
      nothing is stated here that needs the exact sum of fractions;
    - a [Date] is its [getTime()] value, milliseconds as a [Z];
    - every [new Date()] read during one service call returns the same
      instant, the argument [now] of the call;
    - an optional field ([x?: number]) is an [option]; [x || 0] is [orZero];
    - a collection of the provider is the list of its records in insertion
      order (a JavaScript [Map] iterates in insertion order);
    - a service call is run to its end before the next one starts ([M]);
      the one call the source starts and does not await, the challenge
      update of [createTransaction], is also given step by step ([Proc]),
      one step for each call of the provider, so that updates which overlap
      can be run;
    - a request body holds the keys its type declares; the body of
      [createChallenge] also holds the keys [id] and [userId], which its
      spread lets through;
    - the content model is a function from the number of challenges the
      prompt asks for to its reply; what [AIAgentService] writes to the chat
      history is outside the collections modelled here;
    - [metadata] of a points transaction keeps its [challengeId];
    - only logging, [description], [createdAt]/[updatedAt] of a challenge and
      [aiContext] are left out: no modelled operation reads them. *)

From Stdlib Require Import ZArith List String Ascii Bool Lia.
Import ListNotations.
Local Open Scope string_scope.
Local Open Scope list_scope.
Local Open Scope Z_scope.

(** ** Data model ([challenges/types.ts], [transactions/types.ts],
       [goals/types.ts], [rewards/types.ts]) *)

Inductive ChallengeType :=
| SAVINGS | SPENDING_LIMIT | CATEGORY_BAN | STREAK
| GOAL_CONTRIBUTION | INCOME_PERCENTAGE.

(** The enum's run-time values: a challenge stores the string. *)
Definition ChallengeType_value (t : ChallengeType) : string :=
  match t with
  | SAVINGS => "savings"
  | SPENDING_LIMIT => "spending_limit"
  | CATEGORY_BAN => "category_ban"
  | STREAK => "streak"
  | GOAL_CONTRIBUTION => "goal_contribution"
  | INCOME_PERCENTAGE => "income_percentage"
  end.

(** Which [case] label of a [switch (challenge.type)] a stored string
    selects; [None] when no label is strictly equal to it. *)
Definition ChallengeType_of (s : string) : option ChallengeType :=
  if String.eqb s "savings" then Some SAVINGS
  else if String.eqb s "spending_limit" then Some SPENDING_LIMIT
  else if String.eqb s "category_ban" then Some CATEGORY_BAN
  else if String.eqb s "streak" then Some STREAK
  else if String.eqb s "goal_contribution" then Some GOAL_CONTRIBUTION
  else if String.eqb s "income_percentage" then Some INCOME_PERCENTAGE
  else None.

Inductive ChallengeStatus := ACTIVE | COMPLETED | FAILED | EXPIRED.

Definition ChallengeStatus_eqb (a b : ChallengeStatus) : bool :=
  match a, b with
  | ACTIVE, ACTIVE | COMPLETED, COMPLETED
  | FAILED, FAILED | EXPIRED, EXPIRED => true
  | _, _ => false
  end.

(** A numeric rule field as it can sit in a stored challenge: absent, a
    number, or (the rules of a generated challenge are stored unchecked) a
    string that denotes no number. *)
Inductive NumField :=
| Missing
| Num (n : Z)
| NotNumeric (raw : string).

Record ChallengeRules := mkRules {
  targetAmount : NumField;
  category : option string;
  streakDays : NumField;
  percentage : NumField;
  goalId : option string
}.

Record ChallengeProgress := mkProgress {
  currentAmount : option Z;
  currentStreak : option Z;
  lastCheckedAt : option Z;
  completedAt : option Z
}.

Record Challenge := mkChallenge {
  id : string;
  userId : string;
  type : string;
  status : ChallengeStatus;
  difficulty : string;
  frequency : string;
  title : string;
  rules : ChallengeRules;
  progress : ChallengeProgress;
  rewardPoints : Z;
  startDate : Z;
  endDate : Z;
  aiGenerated : bool
}.

(** [CreateChallengeDto], also the shape of a generated draft. *)
Record CreateChallengeDto := mkDraft {
  d_type : string;
  d_difficulty : string;
  d_frequency : string;
  d_title : string;
  d_rules : ChallengeRules;
  d_rewardPoints : Z;
  d_startDate : Z;
  d_endDate : Z
}.

(** The object [createChallenge] receives: the keys of [CreateChallengeDto]
    and the two keys of a challenge that [{ id: uuidv4(), userId, ...data }]
    lets the object override. The drafts of the parser are built key by key
    and hold neither. *)
Record ChallengeBody := mkBody {
  b_id : option string;
  b_userId : option string;
  b_data : CreateChallengeDto
}.

(** [UpdateChallengeDto]: the two keys the type declares, the only ones the
    engine passes. *)
Record UpdateChallengeDto := mkUpdate {
  u_status : option ChallengeStatus;
  u_progress : option ChallengeProgress
}.

Inductive TransactionType := income | expense.

Record Transaction := mkTransaction {
  tx_id : string;
  tx_userId : string;
  amount : Z;
  description : string;
  tx_category : string;
  tx_type : TransactionType;
  createdAt : Z
}.

Record SavingsGoal := mkGoal {
  g_id : string;
  g_userId : string;
  g_currentAmount : Z
}.

Record UserPoints := mkUserPoints {
  up_id : string;
  up_userId : string;
  points : Z;
  totalEarned : Z;
  totalSpent : Z
}.

Inductive PointsType := earn | spend.

(** [metadata] of a points transaction: the challenge it rewards, when the
    caller passed [{ challengeId }]. *)
Record PointsTransaction := mkPointsTransaction {
  pt_id : string;
  pt_userId : string;
  pt_points : Z;
  pt_type : PointsType;
  reason : string;
  metadata : option string
}.

(** ** JavaScript operators the service uses *)

(** [x || 0] on an optional number. *)
Definition orZero (x : option Z) : Z :=
  match x with Some n => n | None => 0 end.

(** [rules.field || 0] read as a number by a relational operator; [None] is
    NaN (the empty string is falsy, so it yields 0). *)
Definition ruleOrZero (x : NumField) : option Z :=
  match x with
  | Missing => Some 0
  | Num n => Some n
  | NotNumeric raw => if String.eqb raw "" then Some 0 else None
  end.

(** [a >= b], [a <= b], [a > b]: false as soon as [b] is NaN. *)
Definition js_ge (a : Z) (b : option Z) : bool :=
  match b with Some n => n <=? a | None => false end.
Definition js_le (a : Z) (b : option Z) : bool :=
  match b with Some n => a <=? n | None => false end.
Definition js_gt (a : Z) (b : option Z) : bool :=
  match b with Some n => n <? a | None => false end.

(** [t.category === rules.category]: never true for an absent rule field. *)
Definition categoryIs (rule : option string) (c : string) : bool :=
  match rule with Some r => String.eqb c r | None => false end.

(** [!category]. *)
Definition falsyString (x : option string) : bool :=
  match x with Some s => String.eqb s "" | None => true end.

Definition isIncome (t : Transaction) : bool :=
  match tx_type t with income => true | expense => false end.
Definition isExpense (t : Transaction) : bool :=
  match tx_type t with expense => true | income => false end.

(** [String.prototype.toLowerCase] on the ASCII letters, and [includes]. *)
Definition lowerAscii (c : ascii) : ascii :=
  let n := nat_of_ascii c in
  if (Nat.leb 65 n && Nat.leb n 90)%bool then ascii_of_nat (n + 32) else c.

Fixpoint toLowerCase (s : string) : string :=
  match s with
  | EmptyString => EmptyString
  | String c r => String (lowerAscii c) (toLowerCase r)
  end.

Fixpoint includes (s sub : string) : bool :=
  if String.prefix sub s then true
  else match s with
       | EmptyString => false
       | String _ r => includes r sub
       end.

(** Record updates written [{ ...p, field: v }] in the source. *)
Definition with_currentAmount (p : ChallengeProgress) (v : Z) :=
  mkProgress (Some v) (currentStreak p) (lastCheckedAt p) (completedAt p).
Definition with_currentStreak (p : ChallengeProgress) (v : Z) :=
  mkProgress (currentAmount p) (Some v) (lastCheckedAt p) (completedAt p).
Definition with_lastCheckedAt (p : ChallengeProgress) (v : Z) :=
  mkProgress (currentAmount p) (currentStreak p) (Some v) (completedAt p).
Definition with_completedAt (p : ChallengeProgress) (v : Z) :=
  mkProgress (currentAmount p) (currentStreak p) (lastCheckedAt p) (Some v).

Definition with_status (c : Challenge) (s : ChallengeStatus) : Challenge :=
  mkChallenge (id c) (userId c) (type c) s (difficulty c) (frequency c)
    (title c) (rules c) (progress c) (rewardPoints c) (startDate c)
    (endDate c) (aiGenerated c).
Definition with_progress (c : Challenge) (p : ChallengeProgress) : Challenge :=
  mkChallenge (id c) (userId c) (type c) (status c) (difficulty c)
    (frequency c) (title c) (rules c) p (rewardPoints c) (startDate c)
    (endDate c) (aiGenerated c).

(** [{ ...challenge, ...data }] for an [UpdateChallengeDto]. *)
Definition applyUpdate (c : Challenge) (data : UpdateChallengeDto) : Challenge :=
  let c1 := match u_status data with Some s => with_status c s | None => c end in
  match u_progress data with Some p => with_progress c1 p | None => c1 end.

(** ** The batch evaluator ([calculateProgress], [calculateStreakDays],
       [isChallengeCompleted], [isChallengeFailed]) *)

Definition DAY_MS : Z := 1000 * 60 * 60 * 24.

Definition calculateStreakDays (now startDate : Z) : Z :=
  Z.abs (now - startDate) / DAY_MS.

(** [.reduce((sum, t) => sum + t.amount, 0)]. *)
Definition sumAmounts (ts : list Transaction) : Z :=
  fold_left (fun sum t => sum + amount t) ts 0.

Definition relevantTransactions (challenge : Challenge)
    (transactions : list Transaction) : list Transaction :=
  filter (fun t => startDate challenge <=? createdAt t) transactions.

Definition calculateProgress (challenge : Challenge)
    (transactions : list Transaction) (goals : list SavingsGoal)
    (now : Z) : ChallengeProgress :=
  let progress0 := with_lastCheckedAt (progress challenge) now in
  let relevant := relevantTransactions challenge transactions in
  match ChallengeType_of (type challenge) with
  | Some SAVINGS =>
      with_currentAmount progress0 (sumAmounts (filter isIncome relevant))
  | Some SPENDING_LIMIT =>
      with_currentAmount progress0 (sumAmounts (filter isExpense relevant))
  | Some CATEGORY_BAN | Some STREAK =>
      let categorySpending :=
        filter (fun t => isExpense t
                         && categoryIs (category (rules challenge)) (tx_category t))
               relevant in
      with_currentStreak progress0
        (match categorySpending with
         | [] => calculateStreakDays now (startDate challenge)
         | _ :: _ => 0
         end)
  | Some GOAL_CONTRIBUTION =>
      match find (fun g => match goalId (rules challenge) with
                           | Some i => String.eqb (g_id g) i
                           | None => false
                           end) goals with
      | Some goal => with_currentAmount progress0 (g_currentAmount goal)
      | None => progress0
      end
  | Some INCOME_PERCENTAGE =>
      with_currentAmount progress0 (sumAmounts (filter isIncome relevant))
  | None => progress0
  end.

Definition isChallengeCompleted (challenge : Challenge)
    (progress : ChallengeProgress) (now : Z) : bool :=
  match ChallengeType_of (type challenge) with
  | Some SAVINGS =>
      js_ge (orZero (currentAmount progress))
            (ruleOrZero (targetAmount (rules challenge)))
  | Some SPENDING_LIMIT =>
      (endDate challenge <=? now)
      && js_le (orZero (currentAmount progress))
               (ruleOrZero (targetAmount (rules challenge)))
  | Some CATEGORY_BAN | Some STREAK =>
      js_ge (orZero (currentStreak progress))
            (ruleOrZero (streakDays (rules challenge)))
  | Some GOAL_CONTRIBUTION =>
      js_ge (orZero (currentAmount progress))
            (ruleOrZero (targetAmount (rules challenge)))
  | Some INCOME_PERCENTAGE =>
      js_ge (orZero (currentAmount progress))
            (ruleOrZero (targetAmount (rules challenge)))
  | None => false
  end.

(** The [switch] of [isChallengeFailed], reached when [now < endDate]. *)
Definition specificFailure (challenge : Challenge)
    (progress : ChallengeProgress) (now : Z) : bool :=
  match ChallengeType_of (type challenge) with
  | Some SPENDING_LIMIT =>
      js_gt (orZero (currentAmount progress))
            (ruleOrZero (targetAmount (rules challenge)))
  | Some CATEGORY_BAN =>
      (orZero (currentStreak progress) =? 0) && (startDate challenge <? now)
  | _ => false
  end.

Definition isChallengeFailed (challenge : Challenge)
    (progress : ChallengeProgress) (now : Z) : bool :=
  if endDate challenge <=? now
  then negb (isChallengeCompleted challenge progress now)
  else specificFailure challenge progress now.

(** The three-way outcome of the [if / else if / else] of [checkProgress]. *)
Inductive Verdict := CONTINUE | COMPLETE | FAIL.

Definition verdict (challenge : Challenge) (progress : ChallengeProgress)
    (now : Z) : Verdict :=
  if isChallengeCompleted challenge progress now then COMPLETE
  else if isChallengeFailed challenge progress now then FAIL
  else CONTINUE.

(** ** The incremental updater: the [switch] of
       [updateChallengeProgressWithTransaction]

    [updated] starts as a copy of the challenge the caller holds; the two
    flags are the locals [shouldUpdate] and [shouldComplete]. *)

Record Outcome := mkOutcome {
  updated : Challenge;
  shouldUpdate : bool;
  shouldComplete : bool
}.

Definition unchanged (challenge : Challenge) : Outcome :=
  mkOutcome challenge false false.

Definition progressWithTransaction (challenge : Challenge)
    (transaction : Transaction) (now : Z) : Outcome :=
  match ChallengeType_of (type challenge) with
  | Some SAVINGS =>
      if isIncome transaction then
        let newAmount :=
          orZero (currentAmount (progress challenge)) + Z.abs (amount transaction) in
        mkOutcome
          (with_progress challenge
             (with_lastCheckedAt
                (with_currentAmount (progress challenge) newAmount) now))
          true
          (js_ge newAmount (ruleOrZero (targetAmount (rules challenge))))
      else unchanged challenge
  | Some SPENDING_LIMIT =>
      if isExpense transaction then
        if falsyString (category (rules challenge))
           || categoryIs (category (rules challenge)) (tx_category transaction)
        then
          let newSpent :=
            orZero (currentAmount (progress challenge)) + Z.abs (amount transaction) in
          let updated1 :=
            with_progress challenge
              (with_lastCheckedAt
                 (with_currentAmount (progress challenge) newSpent) now) in
          mkOutcome
            (if js_gt newSpent (ruleOrZero (targetAmount (rules challenge)))
             then with_status updated1 FAILED else updated1)
            true false
        else unchanged challenge
      else unchanged challenge
  | Some CATEGORY_BAN =>
      if isExpense transaction
         && categoryIs (category (rules challenge)) (tx_category transaction)
      then
        mkOutcome
          (with_progress (with_status challenge FAILED)
             (with_lastCheckedAt (progress challenge) now))
          true false
      else unchanged challenge
  | Some GOAL_CONTRIBUTION =>
      if isIncome transaction
         && includes (toLowerCase (description transaction)) "ahorro"
      then
        let newAmount :=
          orZero (currentAmount (progress challenge)) + Z.abs (amount transaction) in
        mkOutcome
          (with_progress challenge
             (with_lastCheckedAt
                (with_currentAmount (progress challenge) newAmount) now))
          true
          (js_ge newAmount (ruleOrZero (targetAmount (rules challenge))))
      else unchanged challenge
  | Some STREAK =>
      if isExpense transaction
         && categoryIs (category (rules challenge)) (tx_category transaction)
      then
        mkOutcome
          (with_status
             (with_progress challenge (mkProgress None (Some 0) (Some now) None))
             FAILED)
          true false
      else unchanged challenge
  | Some INCOME_PERCENTAGE | None => unchanged challenge
  end.

(** ** The generator: [parseAIChallenges] and [generateFallbackChallenges]

    The text of the content model is taken after the two library calls the
    parser makes on it: [aiResponse.match(/\[[\s\S]*\]/)] finds no bracketed
    text ([NoJsonArray]), [JSON.parse] throws on it ([InvalidJson]), or it
    yields an array ([JsonArray]). An element is [null] or carries the
    properties the parser reads; [r_type], [r_difficulty] and [r_frequency]
    are the strings found, whatever they are, and the dates are the values
    of [new Date(c.startDate)] and [new Date(c.endDate)]. *)

Record RawChallenge := mkRaw {
  r_type : string;
  r_difficulty : string;
  r_frequency : string;
  r_title : string;
  r_rules : option ChallengeRules;
  r_rewardPoints : option Z;
  r_startDate : Z;
  r_endDate : Z
}.

Inductive JsonElement := JsonNull | JsonObject (c : RawChallenge).

Inductive AIResponse :=
| NoJsonArray
| InvalidJson
| JsonArray (elements : list JsonElement).

Definition noRules : ChallengeRules :=
  mkRules Missing None Missing Missing None.

Definition WEEK_MS : Z := 7 * 24 * 60 * 60 * 1000.

Definition generateFallbackChallenges (now : Z) : list CreateChallengeDto :=
  let endDate := now + WEEK_MS in
  [ mkDraft "spending_limit" "easy" "weekly" "🎯 Gasto Consciente"
      (mkRules (Num 500) None Missing Missing None) 50 now endDate;
    mkDraft "savings" "medium" "weekly" "💰 Ahorro Semanal"
      (mkRules (Num 200) None Missing Missing None) 75 now endDate;
    mkDraft "category_ban" "hard" "weekly" "🚫 Semana sin Delivery"
      (mkRules Missing (Some "delivery") (Num 7) Missing None) 100 now endDate ].

(** The object the callback of [challenges.map] builds from an element:
    [rules: c.rules || {}], [rewardPoints: c.rewardPoints || 50], every other
    property as it is read. *)
Definition normalized (c : RawChallenge) : CreateChallengeDto :=
  mkDraft (r_type c) (r_difficulty c) (r_frequency c) (r_title c)
    (match r_rules c with Some r => r | None => noRules end)
    (match r_rewardPoints c with
     | Some n => if n =? 0 then 50 else n
     | None => 50
     end)
    (r_startDate c) (r_endDate c).

(** The callback itself; [None] is the [TypeError] that reading a property
    of [null] throws. *)
Definition normalize (element : JsonElement) : option CreateChallengeDto :=
  match element with
  | JsonNull => None
  | JsonObject c => Some (normalized c)
  end.

Fixpoint normalizeAll (elements : list JsonElement)
    : option (list CreateChallengeDto) :=
  match elements with
  | [] => Some []
  | e :: rest =>
      match normalize e, normalizeAll rest with
      | Some d, Some ds => Some (d :: ds)
      | _, _ => None
      end
  end.

Definition parseAIChallenges (aiResponse : AIResponse) (now : Z)
    : list CreateChallengeDto :=
  match aiResponse with
  | NoJsonArray | InvalidJson => generateFallbackChallenges now
  | JsonArray elements =>
      match normalizeAll elements with
      | Some drafts => drafts
      | None => generateFallbackChallenges now
      end
  end.

(** ** The store and the effects

    A service call runs on the provider's collections. A call that throws
    keeps every write made before the throw, as in the source: the state
    comes back beside the error. [uuids] and [issued] stand for [uuidv4]:
    the next call returns [uuids issued]. *)

Record Db := mkDb {
  challenges : list Challenge;
  transactions : list Transaction;
  savings_goals : list SavingsGoal;
  user_points : list UserPoints;
  points_transactions : list PointsTransaction;
  uuids : nat -> string;
  issued : nat
}.

Inductive Result (A : Type) :=
| Ok (value : A)
| Thrown (message : string).
Arguments Ok {A} value.
Arguments Thrown {A} message.

Definition M (A : Type) : Type := Db -> Result A * Db.

Definition ret {A : Type} (a : A) : M A := fun db => (Ok a, db).

Definition bind {A B : Type} (m : M A) (k : A -> M B) : M B :=
  fun db =>
    match m db with
    | (Ok a, db') => k a db'
    | (Thrown e, db') => (Thrown e, db')
    end.

Definition throw {A : Type} (message : string) : M A :=
  fun db => (Thrown message, db).

(** [try { m } catch (error) { handler }]. *)
Definition tryCatch {A : Type} (m : M A) (handler : string -> M A) : M A :=
  fun db =>
    match m db with
    | (Ok a, db') => (Ok a, db')
    | (Thrown e, db') => handler e db'
    end.

Declare Scope db_scope.
Delimit Scope db_scope with db.
Notation "x <- m ;; k" := (bind m (fun x => k))
  (at level 61, m at next level, right associativity) : db_scope.
Notation "m ;;; k" := (bind m (fun _ => k))
  (at level 61, right associativity) : db_scope.
Local Open Scope db_scope.

Fixpoint forEach {A : Type} (items : list A) (body : A -> M unit) : M unit :=
  match items with
  | [] => ret tt
  | x :: rest => body x ;;; forEach rest body
  end.

Fixpoint mapM {A B : Type} (items : list A) (body : A -> M B) : M (list B) :=
  match items with
  | [] => ret []
  | x :: rest =>
      y <- body x ;;
      ys <- mapM rest body ;;
      ret (y :: ys)
  end.

(** *** [PostgreSQLProvider]: a collection is a [Map] from id to record *)

Section Provider.
Context {A : Type} (key : A -> string).

(** [collectionData.set(id, record)]: a known key keeps its place. *)
Fixpoint tbl_set (record : A) (rows : list A) : list A :=
  match rows with
  | [] => [record]
  | row :: rest =>
      if String.eqb (key row) (key record) then record :: rest
      else row :: tbl_set record rest
  end.

(** [collectionData.get(id)]. *)
Definition tbl_get (i : string) (rows : list A) : option A :=
  find (fun row => String.eqb (key row) i) rows.
End Provider.

Definition set_challenges (db : Db) (rows : list Challenge) : Db :=
  mkDb rows (transactions db) (savings_goals db) (user_points db)
    (points_transactions db) (uuids db) (issued db).
Definition set_user_points (db : Db) (rows : list UserPoints) : Db :=
  mkDb (challenges db) (transactions db) (savings_goals db) rows
    (points_transactions db) (uuids db) (issued db).
Definition set_points_transactions (db : Db) (rows : list PointsTransaction) : Db :=
  mkDb (challenges db) (transactions db) (savings_goals db) (user_points db)
    rows (uuids db) (issued db).
Definition set_transactions (db : Db) (rows : list Transaction) : Db :=
  mkDb (challenges db) rows (savings_goals db) (user_points db)
    (points_transactions db) (uuids db) (issued db).

Definition uuidv4 : M string :=
  fun db =>
    (Ok (uuids db (issued db)),
     mkDb (challenges db) (transactions db) (savings_goals db) (user_points db)
       (points_transactions db) (uuids db) (S (issued db))).

Definition notFound (collection i : string) : string :=
  String.append "Registro no encontrado en "
    (String.append collection (String.append " con id " i)).

(** [db.find('challenges', query)]. *)
Definition find_challenges (query : Challenge -> bool) : M (list Challenge) :=
  fun db => (Ok (filter query (challenges db)), db).

Definition findOne_challenge (i : string) : M (option Challenge) :=
  fun db => (Ok (tbl_get id i (challenges db)), db).

Definition insert_challenge (record : Challenge) : M Challenge :=
  fun db => (Ok record, set_challenges db (tbl_set id record (challenges db))).

(** [db.update('challenges', id, data)]: [merge existing] is
    [{ ...existing, ...data }]. *)
Definition update_challenge (i : string) (merge : Challenge -> Challenge)
    : M Challenge :=
  fun db =>
    match tbl_get id i (challenges db) with
    | None => (Thrown (notFound "challenges" i), db)
    | Some existing =>
        let row := merge existing in
        (Ok row, set_challenges db (tbl_set id row (challenges db)))
    end.

Definition find_transactions (user : string) : M (list Transaction) :=
  fun db =>
    (Ok (filter (fun t => String.eqb (tx_userId t) user) (transactions db)), db).

Definition insert_transaction (record : Transaction) : M Transaction :=
  fun db => (Ok record, set_transactions db (tbl_set tx_id record (transactions db))).

Definition find_savings_goals (user : string) : M (list SavingsGoal) :=
  fun db =>
    (Ok (filter (fun g => String.eqb (g_userId g) user) (savings_goals db)), db).

Definition find_user_points (user : string) : M (list UserPoints) :=
  fun db =>
    (Ok (filter (fun p => String.eqb (up_userId p) user) (user_points db)), db).

Definition insert_user_points (record : UserPoints) : M UserPoints :=
  fun db => (Ok record, set_user_points db (tbl_set up_id record (user_points db))).

Definition update_user_points (i : string) (merge : UserPoints -> UserPoints)
    : M UserPoints :=
  fun db =>
    match tbl_get up_id i (user_points db) with
    | None => (Thrown (notFound "user_points" i), db)
    | Some existing =>
        let row := merge existing in
        (Ok row, set_user_points db (tbl_set up_id row (user_points db)))
    end.

Definition insert_points_transaction (record : PointsTransaction)
    : M PointsTransaction :=
  fun db =>
    (Ok record,
     set_points_transactions db (tbl_set pt_id record (points_transactions db))).

(** ** [RewardsService] *)

Definition createUserPoints (user : string) : M UserPoints :=
  i <- uuidv4 ;;
  insert_user_points (mkUserPoints i user 0 0 0).

Definition getUserPoints (user : string) : M UserPoints :=
  found <- find_user_points user ;;
  match found with
  | [] => createUserPoints user
  | first :: _ => ret first
  end.

Definition createPointsTransaction (user : string) (n : Z) (kind : PointsType)
    (why : string) (meta : option string) : M PointsTransaction :=
  i <- uuidv4 ;;
  insert_points_transaction (mkPointsTransaction i user n kind why meta).

Definition addPoints (user : string) (n : Z) (why : string)
    (meta : option string) : M UserPoints :=
  userPoints <- getUserPoints user ;;
  row <- update_user_points (up_id userPoints)
           (fun existing =>
              mkUserPoints (up_id existing) (up_userId existing)
                (points userPoints + n) (totalEarned userPoints + n)
                (totalSpent existing)) ;;
  createPointsTransaction user n earn why meta ;;;
  ret row.

Definition subtractPoints (user : string) (n : Z) (why : string)
    (meta : option string) : M UserPoints :=
  userPoints <- getUserPoints user ;;
  if points userPoints <? n then throw "Puntos insuficientes"
  else
    row <- update_user_points (up_id userPoints)
             (fun existing =>
                mkUserPoints (up_id existing) (up_userId existing)
                  (points userPoints - n) (totalEarned existing)
                  (totalSpent userPoints + n)) ;;
    createPointsTransaction user n spend why meta ;;;
    ret row.

(** ** [ChallengesService] *)

(** The progress a new challenge starts with. *)
Definition initialProgress (now : Z) : ChallengeProgress :=
  mkProgress (Some 0) (Some 0) (Some now) None.

Definition challengeOf (i user : string) (data : CreateChallengeDto)
    (now : Z) (generated : bool) : Challenge :=
  mkChallenge i user (d_type data) ACTIVE (d_difficulty data)
    (d_frequency data) (d_title data) (d_rules data) (initialProgress now)
    (d_rewardPoints data) (d_startDate data) (d_endDate data) generated.

(** The id a created challenge is stored under: the [id] of the body when
    it holds one. An empty [id] is falsy, [insert] then stores the record
    under an identifier of its own ([data.id || this.generateId()]), for
    which the identifier drawn stands. *)
Definition bodyId (body : ChallengeBody) (fresh : string) : string :=
  match b_id body with
  | Some given => if String.eqb given "" then fresh else given
  | None => fresh
  end.

(** [{ id: uuidv4(), userId, ...data, status, progress, aiGenerated }]: a
    key [id] or [userId] of the body replaces the one before the spread; the
    keys after it are fixed. [insert] stores the record under its [id]. *)
Definition createChallenge (user : string) (body : ChallengeBody)
    (now : Z) : M Challenge :=
  i <- uuidv4 ;;
  insert_challenge
    (challengeOf (bodyId body i)
       (match b_userId body with Some given => given | None => user end)
       (b_data body) now false).

Definition getChallengeById (i : string) : M (option Challenge) :=
  findOne_challenge i.

(** [db.update] receives the whole [updated] object, so the merge with the
    stored row is [updated] itself. *)
Definition updateChallenge (i : string) (data : UpdateChallengeDto)
    : M Challenge :=
  found <- getChallengeById i ;;
  match found with
  | None => throw "Desafío no encontrado"
  | Some challenge =>
      let updated := applyUpdate challenge data in
      update_challenge i (fun _ => updated) ;;;
      ret updated
  end.

Definition isActive (c : Challenge) : bool :=
  ChallengeStatus_eqb (status c) ACTIVE.

(** The body of the loop of [getActiveChallenges]. *)
Definition expireStep (now : Z) (challenge : Challenge) : M unit :=
  if endDate challenge <? now
  then updateChallenge (id challenge) (mkUpdate (Some EXPIRED) None) ;;; ret tt
  else ret tt.

(** The query of [getActiveChallenges]. *)
Definition activeOf (user : string) (c : Challenge) : bool :=
  String.eqb (userId c) user && isActive c.

(** [getActiveChallenges]: the rows found are the caller's copies; marking a
    row EXPIRED writes the store and leaves the copies as they were read. *)
Definition getActiveChallenges (user : string) (now : Z) : M (list Challenge) :=
  found <- find_challenges (activeOf user) ;;
  forEach found (expireStep now) ;;;
  ret (filter isActive found).

Definition completedReason (challenge : Challenge) : string :=
  String.append "Desafío completado: " (title challenge).

Definition completeChallenge (challengeId : string)
    (progress : ChallengeProgress) (now : Z) : M Challenge :=
  found <- getChallengeById challengeId ;;
  match found with
  | None => throw "Desafío no encontrado"
  | Some challenge =>
      let progress' := with_completedAt progress now in
      completed <- updateChallenge challengeId
                     (mkUpdate (Some COMPLETED) (Some progress')) ;;
      addPoints (userId challenge) (rewardPoints challenge)
        (completedReason challenge) (Some (id challenge)) ;;;
      ret completed
  end.

Definition failChallenge (challengeId : string)
    (progress : ChallengeProgress) : M Challenge :=
  updateChallenge challengeId (mkUpdate (Some FAILED) (Some progress)).

(** The body of the loop of [checkProgress]. *)
Definition checkOne (transactions : list Transaction)
    (goals : list SavingsGoal) (now : Z) (challenge : Challenge)
    : M Challenge :=
  let progress := calculateProgress challenge transactions goals now in
  if isChallengeCompleted challenge progress now
  then completeChallenge (id challenge) progress now
  else if isChallengeFailed challenge progress now
  then failChallenge (id challenge) progress
  else updateChallenge (id challenge) (mkUpdate None (Some progress)).

Definition checkProgress (user : string) (now : Z) : M (list Challenge) :=
  activeChallenges <- getActiveChallenges user now ;;
  transactions <- find_transactions user ;;
  goals <- find_savings_goals user ;;
  mapM activeChallenges (checkOne transactions goals now).

(** [updateChallengeProgressWithTransaction]: an error of [addPoints] is
    logged and dropped, any other error makes the call return [null]. *)
Definition updateChallengeProgressWithTransaction (challenge : Challenge)
    (transaction : Transaction) (now : Z) : M (option Challenge) :=
  tryCatch
    (let o := progressWithTransaction challenge transaction now in
     let updated1 :=
       if shouldComplete o then with_status (updated o) COMPLETED
       else updated o in
     (if shouldComplete o
      then tryCatch
             (addPoints (userId challenge) (rewardPoints challenge)
                (String.append "Challenge completado: " (title challenge))
                (Some (id challenge)) ;;; ret tt)
             (fun _ => ret tt)
      else ret tt) ;;;
     if shouldUpdate o || shouldComplete o
     then
       update_challenge (id challenge)
         (fun existing =>
            with_progress (with_status existing (status updated1))
              (progress updated1)) ;;;
       ret (Some updated1)
     else ret None)
    (fun _ => ret None).

Record GenerateChallengesInput := mkInput {
  in_userId : string;
  in_count : option Z
}.

(** The number of challenges the prompt asks for: [count = 3] when the
    input has none, then [count || 3] in [buildAIPrompt]. *)
Definition requestedCount (input : GenerateChallengesInput) : Z :=
  let count := match in_count input with Some n => n | None => 3 end in
  if count =? 0 then 3 else count.

(** [generateChallenges]: [ai n] is what [aiService.processMessage] returns
    for a prompt that asks for [n] challenges, a message or an error. *)
Definition generateChallenges (input : GenerateChallengesInput) (now : Z)
    (ai : Z -> Result AIResponse) : M (list Challenge) :=
  match ai (requestedCount input) with
  | Thrown e => throw e
  | Ok aiResponse =>
      mapM (parseAIChallenges aiResponse now)
        (fun challengeData =>
           i <- uuidv4 ;;
           insert_challenge
             (challengeOf i (in_userId input) challengeData now true))
  end.

(** [allTransactions.sort((a, b) => b.createdAt - a.createdAt)]: the sort is
    stable, rows of equal date keep their order. *)
Fixpoint insertDesc (t : Transaction) (sorted : list Transaction)
    : list Transaction :=
  match sorted with
  | [] => [t]
  | u :: rest =>
      if createdAt u <=? createdAt t then t :: u :: rest
      else u :: insertDesc t rest
  end.

Definition sortDesc (ts : list Transaction) : list Transaction :=
  fold_right insertDesc [] ts.

(** The end of [updateChallengesWithNewData]: with fewer than 3 active
    challenges left, new ones are generated. *)
Definition topUp (user : string) (now : Z) (ai : Z -> Result AIResponse)
    (remainingActive : list Challenge) : M (list Challenge) :=
  if Z.of_nat (List.length remainingActive) <? 3
  then
    newChallenges <-
      generateChallenges
        (mkInput user (Some (3 - Z.of_nat (List.length remainingActive))))
        now ai ;;
    ret (remainingActive ++ newChallenges)%list
  else ret remainingActive.

Definition updateChallengesWithNewData (user : string) (now : Z)
    (ai : Z -> Result AIResponse) : M (list Challenge) :=
  activeChallenges <- getActiveChallenges user now ;;
  allTransactions <- find_transactions user ;;
  match allTransactions with
  | [] => ret activeChallenges
  | first :: _ =>
      let latestTransaction := hd first (sortDesc allTransactions) in
      mapM activeChallenges
        (fun challenge =>
           updateChallengeProgressWithTransaction challenge latestTransaction now) ;;;
      remainingActive <- getActiveChallenges user now ;;
      topUp user now ai remainingActive
  end.

(** ** [TransactionService.createTransaction] *)

Record CreateTransactionDto := mkTransactionDto {
  dto_amount : Z;
  dto_description : string;
  dto_category : option string;
  dto_type : TransactionType
}.

(** [keywords.some((keyword) => lowerDesc.includes(keyword))]. *)
Definition someKeyword (lowerDesc : string) (keywords : list string) : bool :=
  existsb (fun keyword => includes lowerDesc keyword) keywords.

Definition categoryKeywords : list (string * list string) :=
  [ ("Comida", ["rappi"; "uber eats"; "restaurante"; "comida"; "cafe"; "restaurant"]);
    ("Transporte", ["uber"; "cabify"; "gasolina"; "terpel"; "esso"; "transporte"]);
    ("Hogar", ["mercado"; "supermercado"; "exito"; "carulla"; "olimpica"; "hogar"]);
    ("Entretenimiento", ["netflix"; "spotify"; "cine"; "teatro"; "entretenimiento"]);
    ("Salud", ["farmacia"; "drogueria"; "medico"; "hospital"; "salud"]);
    ("Servicios", ["agua"; "luz"; "gas"; "internet"; "telefono"; "servicios"]);
    ("Educacion", ["universidad"; "colegio"; "curso"; "libro"; "educacion"]);
    ("Salario", ["salario"; "nomina"; "pago"]) ].

Definition autoCategorizTransaction (description : string) : string :=
  let lowerDesc := toLowerCase description in
  match find (fun entry => someKeyword lowerDesc (snd entry)) categoryKeywords with
  | Some entry => fst entry
  | None => "Otros"
  end.

(** [updateUserChallenges]: the challenge update, an error of which is
    logged and dropped. *)
Definition updateUserChallenges (user : string) (now : Z)
    (ai : Z -> Result AIResponse) : M unit :=
  tryCatch (updateChallengesWithNewData user now ai ;;; ret tt)
    (fun _ => ret tt).

(** The row is stored under a new identifier with [createdAt = now] and
    returned. The call then starts [updateUserChallenges(userId)] and does
    not await it ("async, no bloquea"): the update is no part of the call,
    it runs after the call has returned ([updateUserChallenges] when nothing
    else runs before it ends, [updateUserChallengesP] step by step). *)
Definition createTransaction (user : string) (data : CreateTransactionDto)
    (now : Z) : M Transaction :=
  let category :=
    match dto_category data with
    | Some c => if String.eqb c "" then autoCategorizTransaction (dto_description data)
                else c
    | None => autoCategorizTransaction (dto_description data)
    end in
  i <- uuidv4 ;;
  created <- insert_transaction
               (mkTransaction i user (dto_amount data) (dto_description data)
                  category (dto_type data) now) ;;
  ret created.

(** A call that enters the engine, run to its end before the next one
    starts: the batch check, the incremental update, the listing of the
    active challenges, the recording of a transaction together with the
    update it starts (that update ends before the next call), and the
    creation of challenges by the generator or by hand. *)
Inductive Pass :=
| Batch (user : string) (now : Z)
| Incremental (user : string) (now : Z) (ai : Z -> Result AIResponse)
| ListActive (user : string) (now : Z)
| Recorded (user : string) (data : CreateTransactionDto) (now : Z)
    (ai : Z -> Result AIResponse)
| Generated (input : GenerateChallengesInput) (now : Z)
    (ai : Z -> Result AIResponse)
| Created (user : string) (body : ChallengeBody) (now : Z).

Definition runPass (p : Pass) (db : Db) : Db :=
  match p with
  | Batch user now => snd (checkProgress user now db)
  | Incremental user now ai => snd (updateChallengesWithNewData user now ai db)
  | ListActive user now => snd (getActiveChallenges user now db)
  | Recorded user data now ai =>
      snd ((createTransaction user data now ;;;
            updateUserChallenges user now ai) db)
  | Generated input now ai => snd (generateChallenges input now ai db)
  | Created user body now => snd (createChallenge user body now db)
  end.

Definition runPasses (ps : list Pass) (db : Db) : Db :=
  fold_left (fun d p => runPass p d) ps db.

(** ** Observations used by the statements *)

(** The stored row of a challenge. *)
Definition row (i : string) (db : Db) : option Challenge :=
  tbl_get id i (challenges db).

Definition isReward (i : string) (p : PointsTransaction) : bool :=
  match pt_type p, metadata p with
  | earn, Some j => String.eqb j i
  | _, _ => false
  end.

(** How many times points were awarded for challenge [i]: the [earn] rows of
    the ledger whose metadata names it. *)
Definition rewardsFor (i : string) (db : Db) : Z :=
  Z.of_nat (List.length (filter (isReward i) (points_transactions db))).

Definition completedBit (c : Challenge) : Z :=
  match status c with COMPLETED => 1 | _ => 0 end.

(** The balance [getUserPoints] reports: the first row of the user, 0 when
    the user has none yet (the row is then created with 0 points). *)
Definition balance (user : string) (db : Db) : Z :=
  match filter (fun p => String.eqb (up_userId p) user) (user_points db) with
  | [] => 0
  | first :: _ => points first
  end.

Definition activeCount (user : string) (db : Db) : Z :=
  Z.of_nat (List.length (filter (activeOf user) (challenges db))).

(** [uuidv4] returns neither an identifier in use nor one identifier twice. *)
Definition FreshIds (db : Db) : Prop :=
  (forall k, (issued db <= k)%nat ->
     ~ In (uuids db k) (map id (challenges db))) /\
  (forall k, (issued db <= k)%nat ->
     ~ In (uuids db k) (map pt_id (points_transactions db))) /\
  (forall j k, (issued db <= j)%nat -> (issued db <= k)%nat ->
     uuids db j = uuids db k -> j = k).

(** The store invariant: challenge ids are unique and identifiers fresh. *)
Definition Inv (db : Db) : Prop :=
  NoDup (map id (challenges db)) /\ FreshIds db.

(** A call of the rewards ledger. *)
Inductive PointsCall :=
| Add (user : string) (n : Z) (why : string) (meta : option string)
| Subtract (user : string) (n : Z) (why : string) (meta : option string).

Definition callAmount (c : PointsCall) : Z :=
  match c with Add _ n _ _ | Subtract _ n _ _ => n end.

Definition runCall (c : PointsCall) (db : Db) : Db :=
  match c with
  | Add user n why meta => snd (addPoints user n why meta db)
  | Subtract user n why meta => snd (subtractPoints user n why meta db)
  end.

Definition runCalls (cs : list PointsCall) (db : Db) : Db :=
  fold_left (fun d c => runCall c d) cs db.

(** The incremental updater on one challenge held by the caller, as a pass
    applies it: only a challenge that is ACTIVE is loaded, and the row
    becomes [updated] when [shouldUpdate] or [shouldComplete] is set (lemma
    [applyTransaction_is_the_pass_step]). *)
Definition applyTransaction (now : Z) (challenge : Challenge)
    (transaction : Transaction) : Challenge :=
  if isActive challenge then
    let o := progressWithTransaction challenge transaction now in
    if shouldComplete o then with_status (updated o) COMPLETED
    else if shouldUpdate o then updated o
    else challenge
  else challenge.

Definition applyTransactions (now : Z) (challenge : Challenge)
    (history : list Transaction) : Challenge :=
  fold_left (applyTransaction now) history challenge.

(** The batch evaluation of one challenge held by the caller: the row an
    iteration of [checkProgress] stores for it (lemma
    [evaluateBatch_is_checkOne]). *)
Definition evaluateBatch (now : Z) (challenge : Challenge)
    (history : list Transaction) (goals : list SavingsGoal) : Challenge :=
  let p := calculateProgress challenge history goals now in
  if isChallengeCompleted challenge p now
  then with_progress (with_status challenge COMPLETED) (with_completedAt p now)
  else if isChallengeFailed challenge p now
  then with_progress (with_status challenge FAILED) p
  else with_progress challenge p.

(** The expenses in the rule's category among the transactions that count. *)
Definition bannedSpending (challenge : Challenge)
    (transactions : list Transaction) : list Transaction :=
  filter (fun t => isExpense t
                   && categoryIs (category (rules challenge)) (tx_category t))
         (relevantTransactions challenge transactions).

(** Every stored balance is non-negative. *)
Definition nonNegativePoints (db : Db) : Prop :=
  Forall (fun r => 0 <= points r) (user_points db).

(** The record [createUserPoints] inserts for a user. *)
Definition newUserPoints (user : string) (db : Db) : UserPoints :=
  mkUserPoints (uuids db (issued db)) user 0 0 0.

(** The store after one call of [uuidv4]. *)
Definition bump (db : Db) : Db := snd (uuidv4 db).

(** The challenges [generateChallenges] stores for a list of drafts, the
    first one under the identifier number [k]. *)
Fixpoint generatedFrom (source : nat -> string) (k : nat) (user : string)
    (now : Z) (drafts : list CreateChallengeDto) : list Challenge :=
  match drafts with
  | [] => []
  | d :: rest =>
      challengeOf (source k) user d now true
      :: generatedFrom source (S k) user now rest
  end.

(** What [getActiveChallenges] leaves of a stored row. *)
Definition expired (user : string) (now : Z) (c : Challenge) : Challenge :=
  if activeOf user c && (endDate c <? now) then with_status c EXPIRED else c.

(** What a pass does to one challenge: the number of rewards issued for it
    minus its [completedBit] is kept, and a challenge that is not ACTIVE
    when the pass starts keeps its row. *)
Definition Kept (i : string) (c : Challenge) (db db' : Db) : Prop :=
  Inv db' /\
  exists c',
    row i db' = Some c' /\
    rewardsFor i db' - completedBit c' = rewardsFor i db - completedBit c /\
    (status c <> ACTIVE -> c' = c).

(** The income of a history: what both paths add up for SAVINGS. *)
Definition incomeSum (history : list Transaction) : Z :=
  sumAmounts (filter isIncome history).

(** ** Scenarios *)

Fixpoint unary (n : nat) : string :=
  match n with
  | O => EmptyString
  | S m => String "x" (unary m)
  end.

(** A concrete identifier source: "uuid-", then [n] letters. *)
Definition uuid_of (n : nat) : string := String.append "uuid-" (unary n).

Definition T0 : Z := 1700000000000.

Definition noAI (n : Z) : Result AIResponse := Ok NoJsonArray.

Definition emptyDb : Db := mkDb [] [] [] [] [] uuid_of 0.

Definition dbOf (cs : list Challenge) (ts : list Transaction) : Db :=
  mkDb cs ts [] [] [] uuid_of 0.

(** Scenario B with a category: a limit of 100 on "food". *)
Definition foodLimit : Challenge :=
  mkChallenge "c-limit" "u1" "spending_limit" ACTIVE "easy" "weekly" "Limit"
    (mkRules (Num 100) (Some "food") Missing Missing None)
    (initialProgress T0) 50 T0 (T0 + WEEK_MS) false.

Definition taxiRide : Transaction :=
  mkTransaction "t-taxi" "u1" 500 "taxi" "transport" expense (T0 + 1000).

(** Scenario D: a 7-day streak on "delivery", a delivery expense on day 3. *)
Definition deliveryStreak : Challenge :=
  mkChallenge "c-streak" "u1" "streak" ACTIVE "medium" "weekly" "Streak"
    (mkRules Missing (Some "delivery") (Num 7) Missing None)
    (initialProgress T0) 75 T0 (T0 + 10 * DAY_MS) false.

Definition deliveryDay3 : Transaction :=
  mkTransaction "t-pizza" "u1" 30 "pizza" "delivery" expense (T0 + 3 * DAY_MS).

(** Scenario C, with the 7 days of the fallback draft, and a window of 8. *)
Definition deliveryBan : Challenge :=
  mkChallenge "c-ban" "u1" "category_ban" ACTIVE "hard" "weekly" "Ban"
    (mkRules Missing (Some "delivery") (Num 7) Missing None)
    (initialProgress T0) 100 T0 (T0 + 8 * DAY_MS) false.

(** Scenario C as the spec words it: no [streakDays], a window of 7 days. *)
Definition deliveryBanWeek : Challenge :=
  mkChallenge "c-ban" "u1" "category_ban" ACTIVE "hard" "weekly" "Ban"
    (mkRules Missing (Some "delivery") Missing Missing None)
    (initialProgress T0) 100 T0 (T0 + WEEK_MS) false.

(** Scenario A with a target of 100. *)
Definition savings100 : Challenge :=
  mkChallenge "c-save" "u1" "savings" ACTIVE "medium" "weekly" "Save"
    (mkRules (Num 100) None Missing Missing None)
    (initialProgress T0) 75 T0 (T0 + WEEK_MS) false.

Definition salary (n : Z) : CreateTransactionDto :=
  mkTransactionDto n "salario" (Some "Salario") income.

(** Three incomes, recorded one second apart. *)
Definition threeIncomes : list Pass :=
  [ Recorded "u1" (salary 60) (T0 + 1000) noAI;
    Recorded "u1" (salary 70) (T0 + 2000) noAI;
    Recorded "u1" (salary 50) (T0 + 3000) noAI ].

(** A generated array whose only element has a type outside the enum and a
    target that is no number. *)
Definition bogusElement : RawChallenge :=
  mkRaw "bogus" "extreme" "weekly" "Mystery"
    (Some (mkRules (NotNumeric "mucho") None Missing Missing None))
    (Some 40) T0 (T0 + WEEK_MS).

(** Scenario A won: the savings challenge once COMPLETED. *)
Definition wonSavings : Challenge :=
  with_progress (with_status savings100 COMPLETED)
    (mkProgress (Some 130) (Some 0) (Some (T0 + 2000)) (Some (T0 + 2000))).

(** The scenario stores use no identifier that starts like a generated one. *)
Definition ownIds (cs : list Challenge) : bool :=
  forallb (fun c => negb (String.prefix "uuid-" (id c))) cs.


(** ** More observations *)

(** A relation between the store before and after a call that the call
    keeps, whatever it returns. *)
Definition Keeps (R : Db -> Db -> Prop) {A : Type} (m : M A) : Prop :=
  forall db, R db (snd (m db)).

(** The challenge ids after are the ids before, in their order, followed by
    new ones. *)
Definition IdsGrow (db db' : Db) : Prop :=
  exists extra,
    map id (challenges db') = (map id (challenges db) ++ extra)%list.

(** The collections the engine only reads. *)
Definition SameInputs (db db' : Db) : Prop :=
  transactions db' = transactions db /\ savings_goals db' = savings_goals db.

(** The user a call works for. *)
Definition passUser (p : Pass) : string :=
  match p with
  | Batch user _ | Incremental user _ _ | ListActive user _
  | Recorded user _ _ _ | Created user _ _ => user
  | Generated input _ _ => in_userId input
  end.

(** Both: what every write of the challenge and rewards services keeps. *)
Definition Quiet (db db' : Db) : Prop := IdsGrow db db' /\ SameInputs db db'.


(** ** The rest of [ChallengesService] and of the provider *)

(** [collectionData.delete(id)]: the rows without the one of that id, [None]
    when no row has it ([Map.delete] returns [false]). *)
Fixpoint tbl_delete {A : Type} (key : A -> string) (i : string)
    (rows : list A) : option (list A) :=
  match rows with
  | [] => None
  | row :: rest =>
      if String.eqb (key row) i then Some rest
      else match tbl_delete key i rest with
           | Some rest' => Some (row :: rest')
           | None => None
           end
  end.

(** [db.delete('challenges', id)]. The collection is taken as created (the
    provider creates it at the first insert); before that first insert the
    error names the collection instead of the record. *)
Definition delete_challenge (i : string) : M unit :=
  fun db =>
    match tbl_delete id i (challenges db) with
    | None => (Thrown (notFound "challenges" i), db)
    | Some rest => (Ok tt, set_challenges db rest)
    end.

Definition deleteChallenge (i : string) : M unit := delete_challenge i.

Definition getUserChallenges (user : string) : M (list Challenge) :=
  find_challenges (fun c => String.eqb (userId c) user).

(** [ChallengeStats]. [successRate] is the floating-point value of
    [(completed / (completed + failed)) * 100], 0 when the divisor is 0: it
    is kept as the two integers it is computed from. *)
Record ChallengeStats := mkStats {
  st_total : Z;
  st_active : Z;
  st_completed : Z;
  st_failed : Z;
  st_expired : Z;
  st_totalPointsEarned : Z;
  st_successRate : Z * Z;
  st_currentStreak : Z;
  st_bestStreak : Z
}.

Definition countStatus (s : ChallengeStatus) (cs : list Challenge) : Z :=
  Z.of_nat (List.length (filter (fun c => ChallengeStatus_eqb (status c) s) cs)).

Definition getUserStats (user : string) : M ChallengeStats :=
  challenges <- getUserChallenges user ;;
  let completed := countStatus COMPLETED challenges in
  let failed := countStatus FAILED challenges in
  ret (mkStats
         (Z.of_nat (List.length challenges))
         (countStatus ACTIVE challenges)
         completed
         failed
         (countStatus EXPIRED challenges)
         (fold_left (fun sum c => sum + rewardPoints c)
            (filter (fun c => ChallengeStatus_eqb (status c) COMPLETED) challenges)
            0)
         (completed, completed + failed)
         0 0).

(** ** The rest of [RewardsService] *)

(** [awardSavingsPoints]: one point for each 1000 saved, [Math.floor] of the
    quotient; the metadata names no challenge. *)
Definition awardSavingsPoints (user : string) (savedAmount : Z) : M Z :=
  let pointsToAward := savedAmount / 1000 in
  if pointsToAward >? 0
  then addPoints user pointsToAward "Puntos por ahorro" None ;;;
       ret pointsToAward
  else ret pointsToAward.

(** [Reward], without its description, category and dates. *)
Record Reward := mkReward {
  rw_id : string;
  rw_name : string;
  pointsCost : Z;
  stock : Z;
  rw_active : bool
}.

Record RewardRedemption := mkRedemption {
  rd_id : string;
  rd_userId : string;
  rd_rewardId : string;
  pointsUsed : Z;
  rd_status : string;
  redemptionDate : Z
}.

Definition mockRewards : list Reward :=
  [ mkReward "reward-1" "Gift Card Amazon $50.000" 5000 100 true;
    mkReward "reward-2" "Descuento Rappi 20%" 2000 50 true;
    mkReward "reward-3" "Mes gratis Netflix" 8000 30 true;
    mkReward "reward-4" "Cashback $10.000" 10000 20 true ].

(** The store with the collection [reward_redemptions]. *)
Record RewardsDb := mkRewardsDb {
  core : Db;
  reward_redemptions : list RewardRedemption
}.

Section Catalog.
Variable rewards : list Reward.

Definition getRewardsCatalog : list Reward := filter rw_active rewards.

Definition getRewardById (rewardId : string) : option Reward :=
  find (fun r => String.eqb (rw_id r) rewardId) rewards.

Definition redemptionReason (reward : Reward) : string :=
  String.append "Redención de recompensa: " (rw_name reward).

Definition redeemReward (user rewardId : string) (now : Z) (s : RewardsDb)
    : Result RewardRedemption * RewardsDb :=
  match getRewardById rewardId with
  | None => (Thrown "Recompensa no encontrada", s)
  | Some reward =>
      if negb (rw_active reward) then (Thrown "Recompensa no disponible", s)
      else if stock reward <=? 0 then (Thrown "Recompensa sin stock", s)
      else
        match getUserPoints user (core s) with
        | (Thrown e, db1) => (Thrown e, mkRewardsDb db1 (reward_redemptions s))
        | (Ok userPoints, db1) =>
            if points userPoints <? pointsCost reward
            then (Thrown "Puntos insuficientes",
                  mkRewardsDb db1 (reward_redemptions s))
            else
              let created :=
                mkRedemption (uuids db1 (issued db1)) user rewardId
                  (pointsCost reward) "pending" now in
              let redemptions :=
                tbl_set rd_id created (reward_redemptions s) in
              match subtractPoints user (pointsCost reward)
                      (redemptionReason reward) None (bump db1) with
              | (Thrown e, db2) => (Thrown e, mkRewardsDb db2 redemptions)
              | (Ok _, db2) => (Ok created, mkRewardsDb db2 redemptions)
              end
        end
  end.
End Catalog.

(** The row [getUserPoints] reads for a user, when there is one. *)
Definition firstOf (user : string) (db : Db) : option UserPoints :=
  hd_error (filter (fun p => String.eqb (up_userId p) user) (user_points db)).

(** The collection [user_points] is a map: its keys are unique, and
    [uuidv4] returns neither a key in use nor one identifier twice. *)
Definition LedgerInv (db : Db) : Prop :=
  NoDup (map up_id (user_points db)) /\
  (forall k, (issued db <= k)%nat ->
     ~ In (uuids db k) (map up_id (user_points db))) /\
  (forall j k, (issued db <= j)%nat -> (issued db <= k)%nat ->
     uuids db j = uuids db k -> j = k).

Definition callUser (c : PointsCall) : string :=
  match c with Add user _ _ _ | Subtract user _ _ _ => user end.

(** What a call of the ledger adds to the balance of its user. *)
Definition callDelta (c : PointsCall) (db : Db) : Z :=
  match c with
  | Add _ n _ _ => n
  | Subtract user n _ _ => if balance user db <? n then 0 else - n
  end.

(** ** What [createTransaction] stores *)

(** [data.category || this.autoCategorizTransaction(data.description)]. *)
Definition recordedCategory (data : CreateTransactionDto) : string :=
  match dto_category data with
  | Some c => if String.eqb c "" then autoCategorizTransaction (dto_description data)
              else c
  | None => autoCategorizTransaction (dto_description data)
  end.

Definition recordedTransaction (user : string) (data : CreateTransactionDto)
    (now : Z) (db : Db) : Transaction :=
  mkTransaction (uuids db (issued db)) user (dto_amount data)
    (dto_description data) (recordedCategory data) (dto_type data) now.

(** The names [autoCategorizTransaction] can return. *)
Definition categoryNames : list string :=
  (map fst categoryKeywords ++ ["Otros"])%list.

Definition allKeywords : list string := List.concat (map snd categoryKeywords).

(** A row the call does not load is left as it is, with its rewards. *)
Definition Untouched (i : string) (c : Challenge) (db db' : Db) : Prop :=
  Inv db' /\ row i db' = Some c /\ rewardsFor i db' = rewardsFor i db.

(** ** Bodies that carry an id *)

(** No body of a created challenge carries an [id]. *)
Definition carriesNoId (p : Pass) : bool :=
  match p with
  | Created _ body _ => match b_id body with Some _ => false | None => true end
  | _ => true
  end.

(** The body of a created challenge carries the id [i]. *)
Definition namesId (p : Pass) (i : string) : bool :=
  match p with
  | Created _ body _ =>
      match b_id body with Some given => String.eqb given i | None => false end
  | _ => false
  end.

(** ** The statistics, by recursion on the collection *)

(** The reward points of the COMPLETED challenges of a user. *)
Fixpoint pointsOfCompleted (user : string) (cs : list Challenge) : Z :=
  match cs with
  | [] => 0
  | c :: rest =>
      (if String.eqb (userId c) user && ChallengeStatus_eqb (status c) COMPLETED
       then rewardPoints c else 0)
      + pointsOfCompleted user rest
  end.

(** The number of challenges of a user in a status. *)
Fixpoint countOf (user : string) (s : ChallengeStatus) (cs : list Challenge) : Z :=
  match cs with
  | [] => 0
  | c :: rest =>
      (if String.eqb (userId c) user && ChallengeStatus_eqb (status c) s
       then 1 else 0)
      + countOf user s rest
  end.

(** ** Calls that overlap

    An [async] function gives way at each [await]. A call of the provider
    does its work on the store when it is made, so between two calls of the
    provider that one service call makes, another service call can run.
    [Proc A] is a service call on its way: it has ended, or it stands before
    a call of the provider, which writes the store and decides how the
    service call goes on. *)

Inductive Proc (A : Type) : Type :=
| Ended (result : Result A)
| Await (write : Db -> Db) (next : Db -> Proc A).

Arguments Ended {A} result.
Arguments Await {A} write next.

(** One call of the provider (or of a function that awaits nothing). *)
Definition atomic {A : Type} (m : M A) : Proc A :=
  Await (fun db => snd (m db)) (fun db => Ended (fst (m db))).

Definition retP {A : Type} (a : A) : Proc A := Ended (Ok a).

Definition throwP {A : Type} (message : string) : Proc A :=
  Ended (Thrown message).

Fixpoint bindP {A B : Type} (p : Proc A) (k : A -> Proc B) : Proc B :=
  match p with
  | Ended (Ok a) => k a
  | Ended (Thrown e) => Ended (Thrown e)
  | Await write next => Await write (fun db => bindP (next db) k)
  end.

Fixpoint catchP {A : Type} (p : Proc A) (handler : string -> Proc A) : Proc A :=
  match p with
  | Ended (Ok a) => Ended (Ok a)
  | Ended (Thrown e) => handler e
  | Await write next => Await write (fun db => catchP (next db) handler)
  end.

Declare Scope proc_scope.
Delimit Scope proc_scope with proc.
Notation "x <- p ;; k" := (bindP p (fun x => k))
  (at level 61, p at next level, right associativity) : proc_scope.
Notation "p ;;; k" := (bindP p (fun _ => k))
  (at level 61, right associativity) : proc_scope.

Fixpoint forEachP {A : Type} (items : list A) (body : A -> Proc unit)
    : Proc unit :=
  match items with
  | [] => retP tt
  | x :: rest => (body x ;;; forEachP rest body)%proc
  end.

Fixpoint mapMP {A B : Type} (items : list A) (body : A -> Proc B)
    : Proc (list B) :=
  match items with
  | [] => retP []
  | x :: rest =>
      (y <- body x ;;
       ys <- mapMP rest body ;;
       retP (y :: ys))%proc
  end.

(** The call run to its end with nothing in between. *)
Fixpoint run {A : Type} (p : Proc A) (db : Db) : Result A * Db :=
  match p with
  | Ended result => (result, db)
  | Await write next => run (next db) (write db)
  end.

(** The call run for [k] calls of the provider: what is left of it, and the
    store. *)
Fixpoint steps {A : Type} (k : nat) (p : Proc A) (db : Db) : Proc A * Db :=
  match k, p with
  | S k', Await write next => steps k' (next db) (write db)
  | _, _ => (p, db)
  end.

(** The update that [createTransaction] starts, with its awaits. Each
    definition is the one of the same name above, a step at each call of the
    provider; the model call of the generator is a step that writes nothing. *)

Definition getUserPointsP (user : string) : Proc UserPoints :=
  (found <- atomic (find_user_points user) ;;
   match found with
   | [] => atomic (createUserPoints user)
   | first :: _ => retP first
   end)%proc.

Definition addPointsP (user : string) (n : Z) (why : string)
    (meta : option string) : Proc UserPoints :=
  (userPoints <- getUserPointsP user ;;
   row <- atomic (update_user_points (up_id userPoints)
                    (fun existing =>
                       mkUserPoints (up_id existing) (up_userId existing)
                         (points userPoints + n) (totalEarned userPoints + n)
                         (totalSpent existing))) ;;
   atomic (createPointsTransaction user n earn why meta) ;;;
   retP row)%proc.

Definition updateChallengeP (i : string) (data : UpdateChallengeDto)
    : Proc Challenge :=
  (found <- atomic (getChallengeById i) ;;
   match found with
   | None => throwP "Desafío no encontrado"
   | Some challenge =>
       let updated := applyUpdate challenge data in
       atomic (update_challenge i (fun _ => updated)) ;;;
       retP updated
   end)%proc.

Definition expireStepP (now : Z) (challenge : Challenge) : Proc unit :=
  if endDate challenge <? now
  then (updateChallengeP (id challenge) (mkUpdate (Some EXPIRED) None) ;;;
        retP tt)%proc
  else retP tt.

Definition getActiveChallengesP (user : string) (now : Z)
    : Proc (list Challenge) :=
  (found <- atomic (find_challenges (activeOf user)) ;;
   forEachP found (expireStepP now) ;;;
   retP (filter isActive found))%proc.

Definition updateChallengeProgressWithTransactionP (challenge : Challenge)
    (transaction : Transaction) (now : Z) : Proc (option Challenge) :=
  catchP
    (let o := progressWithTransaction challenge transaction now in
     let updated1 :=
       if shouldComplete o then with_status (updated o) COMPLETED
       else updated o in
     (if shouldComplete o
      then catchP
             (addPointsP (userId challenge) (rewardPoints challenge)
                (String.append "Challenge completado: " (title challenge))
                (Some (id challenge)) ;;; retP tt)
             (fun _ => retP tt)
      else retP tt) ;;;
     if shouldUpdate o || shouldComplete o
     then
       atomic (update_challenge (id challenge)
                 (fun existing =>
                    with_progress (with_status existing (status updated1))
                      (progress updated1))) ;;;
       retP (Some updated1)
     else retP None)%proc
    (fun _ => retP None).

Definition generateChallengesP (input : GenerateChallengesInput) (now : Z)
    (ai : Z -> Result AIResponse) : Proc (list Challenge) :=
  (aiResponse <- Await (fun db => db)
                   (fun _ => Ended (ai (requestedCount input))) ;;
   mapMP (parseAIChallenges aiResponse now)
     (fun challengeData =>
        atomic (i <- uuidv4 ;;
                insert_challenge
                  (challengeOf i (in_userId input) challengeData now true))%db))%proc.

Definition topUpP (user : string) (now : Z) (ai : Z -> Result AIResponse)
    (remainingActive : list Challenge) : Proc (list Challenge) :=
  if Z.of_nat (List.length remainingActive) <? 3
  then
    (newChallenges <-
       generateChallengesP
         (mkInput user (Some (3 - Z.of_nat (List.length remainingActive))))
         now ai ;;
     retP (remainingActive ++ newChallenges)%list)%proc
  else retP remainingActive.

Definition updateChallengesWithNewDataP (user : string) (now : Z)
    (ai : Z -> Result AIResponse) : Proc (list Challenge) :=
  (activeChallenges <- getActiveChallengesP user now ;;
   allTransactions <- atomic (find_transactions user) ;;
   match allTransactions with
   | [] => retP activeChallenges
   | first :: _ =>
       let latestTransaction := hd first (sortDesc allTransactions) in
       mapMP activeChallenges
         (fun challenge =>
            updateChallengeProgressWithTransactionP challenge
              latestTransaction now) ;;;
       remainingActive <- getActiveChallengesP user now ;;
       topUpP user now ai remainingActive
   end)%proc.

Definition updateUserChallengesP (user : string) (now : Z)
    (ai : Z -> Result AIResponse) : Proc unit :=
  catchP (updateChallengesWithNewDataP user now ai ;;; retP tt)%proc
    (fun _ => retP tt).

(** Two incomes of 150 recorded within the same millisecond for the savings
    challenge of target 100. The update started by the first has read the
    active challenges (its first call of the provider) when the second
    transaction is recorded; the update started by the second then runs to
    its end, and the first one goes on from where it was. *)
Definition overlappingIncomes : Db :=
  let now := T0 + 1000 in
  let db1 := snd (createTransaction "u1" (salary 150) now (dbOf [savings100] [])) in
  let started := steps 1 (updateUserChallengesP "u1" now noAI) db1 in
  let db2 := snd (createTransaction "u1" (salary 150) now (snd started)) in
  let db3 := snd (run (updateUserChallengesP "u1" now noAI) db2) in
  snd (run (fst started) db3).

(** The same two incomes, each update ending before the next call. *)
Definition successiveIncomes : Db :=
  runPasses [ Recorded "u1" (salary 150) (T0 + 1000) noAI;
              Recorded "u1" (salary 150) (T0 + 1000) noAI ]
    (dbOf [savings100] []).
(** * Properties *)

(** Case analysis on every [if] of the goal. *)
Ltac case_ifs :=
  repeat match goal with
         | |- context [if ?b then _ else _] => destruct b; cbn
         end.

Lemma ChallengeType_of_value :
  forall t, ChallengeType_of (ChallengeType_value t) = Some t.
Proof. intros []; reflexivity. Qed.

(** ** The batch evaluator, type by type *)

Lemma streak_of_progress :
  forall c txs goals now,
    ChallengeType_of (type c) = Some CATEGORY_BAN
    \/ ChallengeType_of (type c) = Some STREAK ->
    currentStreak (calculateProgress c txs goals now) =
    Some (match bannedSpending c txs with
          | [] => calculateStreakDays now (startDate c)
          | _ :: _ => 0
          end).
Proof.
  intros c txs goals now [H | H]; unfold calculateProgress, bannedSpending;
    rewrite H; reflexivity.
Qed.

Lemma calculateStreakDays_nonneg :
  forall now start, 0 <= calculateStreakDays now start.
Proof.
  intros now start. unfold calculateStreakDays, DAY_MS.
  apply Z.div_pos; lia.
Qed.

(** C5, the code at the failing input: a limit of 100 on "food" and one
    expense of 500 on "transport". [calculateProgress] counts the expense
    although its category is not the rule's, and the challenge is FAILED;
    the incremental updater leaves the same challenge untouched. *)
Theorem spending_limit_ignores_category :
  categoryIs (category (rules foodLimit)) (tx_category taxiRide) = false /\
  currentAmount (calculateProgress foodLimit [taxiRide] [] (T0 + 2000)) = Some 500 /\
  verdict foodLimit (calculateProgress foodLimit [taxiRide] [] (T0 + 2000))
    (T0 + 2000) = FAIL /\
  option_map status
    (row "c-limit" (snd (checkProgress "u1" (T0 + 2000) (dbOf [foodLimit] [taxiRide]))))
  = Some FAILED /\
  shouldUpdate (progressWithTransaction foodLimit taxiRide (T0 + 2000)) = false.
Proof. repeat split; vm_compute; reflexivity. Qed.

(** C6, the code at the failing input (scenario D): a delivery expense on
    day 3 of a 7-day streak. The batch pass resets the streak to 0 and
    leaves the challenge ACTIVE: [isChallengeFailed] has no case for STREAK
    before [endDate]. The incremental updater fails the same challenge. *)
Theorem streak_break_not_failed_by_batch :
  let now := T0 + 3 * DAY_MS + 1000 in
  let p := calculateProgress deliveryStreak [deliveryDay3] [] now in
  currentStreak p = Some 0 /\
  verdict deliveryStreak p now = CONTINUE /\
  option_map status
    (row "c-streak" (snd (checkProgress "u1" now (dbOf [deliveryStreak] [deliveryDay3]))))
  = Some ACTIVE /\
  status (updated (progressWithTransaction deliveryStreak deliveryDay3 now)) = FAILED.
Proof. repeat split; vm_compute; reflexivity. Qed.

(** C7, counterexample: a CATEGORY_BAN with [streakDays = 7] and no
    transaction at all, evaluated 7 days after [startDate] and one day
    before [endDate], gets the verdict COMPLETE from the evaluator. *)
Lemma category_ban_completes_on_its_own :
  let now := T0 + 7 * DAY_MS in
  now < endDate deliveryBan /\
  bannedSpending deliveryBan [] = [] /\
  verdict deliveryBan (calculateProgress deliveryBan [] [] now) now = COMPLETE.
Proof. repeat split; vm_compute; reflexivity. Qed.

(** C7, amended: for a CATEGORY_BAN challenge with [streakDays = n >= 1],
    evaluated after [startDate]: an expense in the banned category at or
    after [startDate] gives FAIL; with none, the verdict is COMPLETE once
    the whole days elapsed reach [n], and CONTINUE before [endDate] while
    they are between 1 and [n - 1]. *)
Theorem category_ban_verdict :
  forall c txs goals now n,
    type c = "category_ban" ->
    streakDays (rules c) = Num n ->
    1 <= n ->
    startDate c < now ->
    let p := calculateProgress c txs goals now in
    let days := calculateStreakDays now (startDate c) in
    (bannedSpending c txs <> [] -> verdict c p now = FAIL) /\
    (bannedSpending c txs = [] -> n <= days -> verdict c p now = COMPLETE) /\
    (bannedSpending c txs = [] -> 1 <= days < n -> now < endDate c ->
     verdict c p now = CONTINUE).
Proof.
  intros c txs goals now n Ht Hn Hn1 Hstart p days.
  assert (Hty : ChallengeType_of (type c) = Some CATEGORY_BAN)
    by (rewrite Ht; reflexivity).
  assert (Hs := streak_of_progress c txs goals now (or_introl Hty)).
  fold p in Hs.
  unfold verdict, isChallengeFailed, isChallengeCompleted, specificFailure.
  rewrite Hty, Hs, Hn. cbn [ruleOrZero js_ge orZero].
  repeat split.
  - intros Hb. destruct (bannedSpending c txs) as [|t rest]; [congruence|].
    cbn [orZero].
    destruct (Z.leb_spec n 0); [lia|]. cbn [negb].
    destruct (Z.leb_spec (endDate c) now); [reflexivity|].
    destruct (Z.ltb_spec (startDate c) now); [reflexivity | lia].
  - intros Hb Hd. rewrite Hb. cbn [orZero]. fold days.
    destruct (Z.leb_spec n days); [reflexivity | lia].
  - intros Hb Hd Hend. rewrite Hb. cbn [orZero]. fold days.
    destruct (Z.leb_spec n days); [lia|].
    destruct (Z.leb_spec (endDate c) now); [lia|].
    destruct (Z.eqb_spec days 0); [lia|]. reflexivity.
Qed.

Lemma category_ban_verdict_witness :
  let now := T0 + 7 * DAY_MS in
  verdict deliveryBan (calculateProgress deliveryBan [] [] now) now = COMPLETE.
Proof.
  intros now.
  refine (proj1 (proj2 (category_ban_verdict deliveryBan [] [] now 7
                          eq_refl eq_refl _ _)) eq_refl _).
  - lia.
  - vm_compute; reflexivity.
  - vm_compute; discriminate.
Defined.

(** ** The provider's collections *)

Section ProviderFacts.
Context {A : Type} (key : A -> string).

Lemma tbl_get_some :
  forall i rows r, tbl_get key i rows = Some r -> In r rows /\ key r = i.
Proof.
  intros i rows r H. unfold tbl_get in H.
  apply find_some in H. destruct H as [Hin Heq].
  apply String.eqb_eq in Heq. auto.
Qed.

Lemma tbl_get_none :
  forall i rows, tbl_get key i rows = None -> ~ In i (map key rows).
Proof.
  intros i rows H Hin. apply in_map_iff in Hin. destruct Hin as [r [Hk Hr]].
  unfold tbl_get in H.
  apply (find_none _ _ H) in Hr. rewrite Hk, String.eqb_refl in Hr. discriminate.
Qed.

Lemma tbl_get_in :
  forall rows r, In r rows -> exists r', tbl_get key (key r) rows = Some r'.
Proof.
  intros rows r Hin.
  destruct (tbl_get key (key r) rows) as [r'|] eqn:E; [eauto|].
  apply tbl_get_none in E. exfalso. apply E. apply in_map. exact Hin.
Qed.

Lemma tbl_get_unique :
  forall rows r, NoDup (map key rows) -> In r rows ->
                 tbl_get key (key r) rows = Some r.
Proof.
  induction rows as [|x rest IH]; intros r Hnd Hin; [contradiction|].
  simpl in Hnd. inversion Hnd as [|? ? Hnot Hnd']; subst.
  unfold tbl_get. simpl.
  destruct Hin as [-> | Hin].
  - rewrite String.eqb_refl. reflexivity.
  - destruct (String.eqb_spec (key x) (key r)) as [E | _].
    + exfalso. apply Hnot. rewrite E. apply in_map. exact Hin.
    + apply IH; assumption.
Qed.

Lemma tbl_get_set_same :
  forall r rows, tbl_get key (key r) (tbl_set key r rows) = Some r.
Proof.
  intros r rows. unfold tbl_get.
  induction rows as [|x rest IH]; simpl.
  - rewrite String.eqb_refl. reflexivity.
  - destruct (String.eqb_spec (key x) (key r)) as [E | N]; simpl.
    + rewrite String.eqb_refl. reflexivity.
    + destruct (String.eqb_spec (key x) (key r)); [contradiction | exact IH].
Qed.

Lemma tbl_get_set_other :
  forall i r rows, key r <> i ->
                   tbl_get key i (tbl_set key r rows) = tbl_get key i rows.
Proof.
  intros i r rows Hne. unfold tbl_get.
  induction rows as [|x rest IH]; simpl.
  - destruct (String.eqb_spec (key r) i); [contradiction | reflexivity].
  - destruct (String.eqb_spec (key x) (key r)) as [E | N]; simpl.
    + destruct (String.eqb_spec (key r) i); [contradiction|].
      destruct (String.eqb_spec (key x) i); [congruence | reflexivity].
    + destruct (String.eqb_spec (key x) i); [reflexivity | exact IH].
Qed.

(** Writing a known key keeps the keys; a new key goes last. *)
Lemma tbl_set_keys :
  forall r rows,
    (In (key r) (map key rows) /\ map key (tbl_set key r rows) = map key rows)
    \/ (~ In (key r) (map key rows) /\ tbl_set key r rows = rows ++ [r]).
Proof.
  intros r rows. induction rows as [|x rest IH]; simpl.
  - right. split; [tauto | reflexivity].
  - destruct (String.eqb_spec (key x) (key r)) as [E | N].
    + left. split; [left; exact E | simpl; rewrite E; reflexivity].
    + destruct IH as [[Hin Hk] | [Hnin Hk]].
      * left. split; [right; exact Hin | simpl; rewrite Hk; reflexivity].
      * right. split; [intros [H | H]; [contradiction | tauto]
                      | rewrite Hk; reflexivity].
Qed.

Lemma tbl_set_fresh :
  forall r rows, ~ In (key r) (map key rows) -> tbl_set key r rows = rows ++ [r].
Proof.
  intros r rows H. destruct (tbl_set_keys r rows) as [[Hin _] | [_ E]];
    [contradiction | exact E].
Qed.

Lemma tbl_set_NoDup :
  forall r rows, NoDup (map key rows) -> NoDup (map key (tbl_set key r rows)).
Proof.
  intros r rows Hnd. destruct (tbl_set_keys r rows) as [[_ E] | [Hnin E]].
  - rewrite E. exact Hnd.
  - rewrite E, map_app. simpl.
    apply NoDup_app; [exact Hnd | repeat constructor; simpl; tauto |].
    intros a Ha [<- | []]. contradiction.
Qed.

Lemma tbl_set_in_keys :
  forall r rows k, In k (map key (tbl_set key r rows)) ->
                   In k (map key rows) \/ k = key r.
Proof.
  intros r rows k H. destruct (tbl_set_keys r rows) as [[_ E] | [_ E]].
  - rewrite E in H. auto.
  - rewrite E, map_app, in_app_iff in H. simpl in H.
    destruct H as [H | [H | []]]; auto.
Qed.

Lemma tbl_set_Forall :
  forall (P : A -> Prop) r rows,
    Forall P rows -> P r -> Forall P (tbl_set key r rows).
Proof.
  intros P r rows Hall Hr. induction Hall as [|x rest Hx Hrest IH]; simpl.
  - constructor; [exact Hr | constructor].
  - destruct (String.eqb (key x) (key r)); constructor; assumption.
Qed.

End ProviderFacts.

(** ** The rewards ledger *)

Lemma getUserPoints_run :
  forall user db,
    match filter (fun p => String.eqb (up_userId p) user) (user_points db) with
    | first :: _ => getUserPoints user db = (Ok first, db)
    | [] =>
        getUserPoints user db =
        (Ok (newUserPoints user db),
         set_user_points (bump db)
           (tbl_set up_id (newUserPoints user db) (user_points db)))
    end.
Proof.
  intros user db. unfold getUserPoints, bind, find_user_points.
  destruct (filter _ (user_points db)); reflexivity.
Qed.

Lemma filter_user_new :
  forall user r rows,
    up_userId r = user ->
    filter (fun p => String.eqb (up_userId p) user) rows = [] ->
    filter (fun p => String.eqb (up_userId p) user) (tbl_set up_id r rows) = [r].
Proof.
  intros user r rows Hu. induction rows as [|x rest IH]; simpl; intros H.
  - rewrite Hu, String.eqb_refl. reflexivity.
  - destruct (String.eqb (up_userId x) user) eqn:Ex; [discriminate|].
    destruct (String.eqb (up_id x) (up_id r)); simpl.
    + rewrite Hu, String.eqb_refl, H. reflexivity.
    + rewrite Ex. apply IH. exact H.
Qed.

(** What [getUserPoints] returns and leaves behind. *)
Lemma getUserPoints_spec :
  forall user db,
    exists r db',
      getUserPoints user db = (Ok r, db') /\
      points r = balance user db /\
      balance user db' = balance user db /\
      In r (user_points db') /\
      challenges db' = challenges db /\
      points_transactions db' = points_transactions db /\
      uuids db' = uuids db /\
      (issued db <= issued db')%nat /\
      (nonNegativePoints db -> nonNegativePoints db') /\
      transactions db' = transactions db /\
      savings_goals db' = savings_goals db.
Proof.
  intros user db. pose proof (getUserPoints_run user db) as H.
  unfold balance.
  destruct (filter _ (user_points db)) as [|first rest] eqn:E.
  - eexists. eexists. split; [exact H|]. cbn.
    rewrite (filter_user_new user (newUserPoints user db) _ eq_refl E).
    repeat split; try reflexivity.
    + pose proof (tbl_get_set_same up_id (newUserPoints user db) (user_points db)) as G.
      apply tbl_get_some in G. tauto.
    + lia.
    + intros Hn. unfold nonNegativePoints. cbn.
      apply tbl_set_Forall; [exact Hn | cbn; lia].
  - exists first, db. split; [exact H|]. rewrite E.
    repeat split; try reflexivity; try lia; try tauto.
    assert (In first (filter (fun p => String.eqb (up_userId p) user) (user_points db)))
      by (rewrite E; left; reflexivity).
    apply filter_In in H0. tauto.
Qed.

Lemma update_user_points_run :
  forall r merge db,
    In r (user_points db) ->
    exists existing,
      tbl_get up_id (up_id r) (user_points db) = Some existing /\
      update_user_points (up_id r) merge db =
      (Ok (merge existing),
       set_user_points db (tbl_set up_id (merge existing) (user_points db))).
Proof.
  intros r merge db Hin. destruct (tbl_get_in up_id _ _ Hin) as [e He].
  exists e. split; [exact He|]. unfold update_user_points. rewrite He. reflexivity.
Qed.

Lemma createPointsTransaction_run :
  forall user n kind why meta db,
    createPointsTransaction user n kind why meta db =
    (Ok (mkPointsTransaction (uuids db (issued db)) user n kind why meta),
     set_points_transactions (bump db)
       (tbl_set pt_id
          (mkPointsTransaction (uuids db (issued db)) user n kind why meta)
          (points_transactions db))).
Proof. reflexivity. Qed.

(** [addPoints] always returns: the row it updates is the one it read. *)
Lemma addPoints_run :
  forall user n why meta db,
    exists row0 ups k,
      addPoints user n why meta db =
      (Ok row0,
       mkDb (challenges db) (transactions db) (savings_goals db) ups
         (tbl_set pt_id
            (mkPointsTransaction (uuids db k) user n earn why meta)
            (points_transactions db))
         (uuids db) (S k)) /\
      (issued db <= k)%nat /\
      (nonNegativePoints db -> 0 <= n ->
       Forall (fun r => 0 <= points r) ups).
Proof.
  intros user n why meta db.
  destruct (getUserPoints_spec user db)
    as [r [db1 [Hrun [Hp [Hb [Hin [Hc [Hpt [Hu [Hi [Hnn [Htx Hsg]]]]]]]]]]]].
  set (merge := fun existing : UserPoints =>
                  mkUserPoints (up_id existing) (up_userId existing)
                    (points r + n) (totalEarned r + n) (totalSpent existing)).
  destruct (update_user_points_run r merge db1 Hin) as [e [He Hupd]].
  exists (merge e), (tbl_set up_id (merge e) (user_points db1)), (issued db1).
  split; [|split].
  - unfold addPoints, bind. rewrite Hrun. fold merge. rewrite Hupd.
    rewrite createPointsTransaction_run. cbn.
    rewrite Hc, Hpt, Hu, Htx, Hsg. reflexivity.
  - exact Hi.
  - intros Hn Hpos. apply tbl_set_Forall; [exact (Hnn Hn)|].
    cbn. rewrite Hp. unfold balance.
    destruct (filter _ (user_points db)) as [|f rest] eqn:E; [lia|].
    assert (In f (user_points db)).
    { assert (In f (f :: rest)) by (left; reflexivity).
      rewrite <- E in H. apply filter_In in H. tauto. }
    unfold nonNegativePoints in Hn. rewrite Forall_forall in Hn.
    specialize (Hn f H). lia.
Qed.

Lemma subtractPoints_run :
  forall user n why meta db,
    (balance user db < n ->
     exists db',
       subtractPoints user n why meta db = (Thrown "Puntos insuficientes", db') /\
       balance user db' = balance user db /\
       points_transactions db' = points_transactions db /\
       (nonNegativePoints db -> nonNegativePoints db')) /\
    (n <= balance user db ->
     exists row0 db',
       subtractPoints user n why meta db = (Ok row0, db') /\
       (nonNegativePoints db -> nonNegativePoints db')).
Proof.
  intros user n why meta db.
  destruct (getUserPoints_spec user db)
    as [r [db1 [Hrun [Hp [Hb [Hin [Hc [Hpt [Hu [Hi [Hnn [Htx Hsg]]]]]]]]]]]].
  split; intros Hlt.
  - exists db1. unfold subtractPoints, bind. rewrite Hrun.
    destruct (Z.ltb_spec (points r) n); [|lia].
    repeat split; assumption.
  - set (merge := fun existing : UserPoints =>
                    mkUserPoints (up_id existing) (up_userId existing)
                      (points r - n) (totalEarned existing) (totalSpent r + n)).
    destruct (update_user_points_run r merge db1 Hin) as [e [He Hupd]].
    eexists. eexists. split.
    + unfold subtractPoints, bind. rewrite Hrun.
      destruct (Z.ltb_spec (points r) n); [lia|].
      fold merge. rewrite Hupd. rewrite createPointsTransaction_run. reflexivity.
    + intros Hn. unfold nonNegativePoints. cbn.
      apply tbl_set_Forall; [exact (Hnn Hn) | cbn; lia].
Qed.

Lemma balance_nonneg :
  forall user db, nonNegativePoints db -> 0 <= balance user db.
Proof.
  intros user db Hn. unfold balance.
  destruct (filter _ (user_points db)) as [|f rest] eqn:E; [lia|].
  assert (In f (f :: rest)) by (left; reflexivity).
  rewrite <- E in H. apply filter_In in H.
  unfold nonNegativePoints in Hn. rewrite Forall_forall in Hn.
  apply Hn. tauto.
Qed.

Lemma runCall_nonneg :
  forall c db, 0 <= callAmount c -> nonNegativePoints db ->
               nonNegativePoints (runCall c db).
Proof.
  intros [user n why meta | user n why meta] db Hpos Hn; cbn in *.
  - destruct (addPoints_run user n why meta db) as [r [ups [k [Hrun [_ Hall]]]]].
    rewrite Hrun. cbn. unfold nonNegativePoints. cbn. auto.
  - destruct (subtractPoints_run user n why meta db) as [Hlow Hok].
    destruct (Z.lt_ge_cases (balance user db) n) as [H | H].
    + destruct (Hlow H) as [db' [Hrun [_ [_ Hk]]]]. rewrite Hrun. cbn. auto.
    + destruct (Hok H) as [r [db' [Hrun Hk]]]. rewrite Hrun. cbn. auto.
Qed.

(** C10: from a store whose balances are non-negative (the initial record
    holds 0), any sequence of [addPoints] and [subtractPoints] calls with
    non-negative amounts leaves every balance non-negative; and
    [subtractPoints] with an amount above the balance throws
    "Puntos insuficientes" and changes neither the balance nor the log of
    points transactions. *)
Theorem points_balance_never_negative :
  forall db calls,
    nonNegativePoints db ->
    Forall (fun c => 0 <= callAmount c) calls ->
    (forall user, 0 <= balance user (runCalls calls db)) /\
    (forall user n why meta,
       let db1 := runCalls calls db in
       balance user db1 < n ->
       fst (subtractPoints user n why meta db1) = Thrown "Puntos insuficientes" /\
       balance user (snd (subtractPoints user n why meta db1)) = balance user db1 /\
       points_transactions (snd (subtractPoints user n why meta db1))
       = points_transactions db1).
Proof.
  intros db calls Hn Hcalls.
  assert (Hfinal : nonNegativePoints (runCalls calls db)).
  { revert db Hn. induction Hcalls as [|c rest Hc Hrest IH]; intros db Hn.
    - exact Hn.
    - cbn. apply IH. apply runCall_nonneg; assumption. }
  split.
  - intros user. apply balance_nonneg. exact Hfinal.
  - intros user n why meta db1 Hlt.
    destruct (subtractPoints_run user n why meta db1) as [Hlow _].
    destruct (Hlow Hlt) as [db' [Hrun [Hb [Hpt _]]]].
    rewrite Hrun. cbn. auto.
Qed.

Lemma points_balance_never_negative_witness :
  let calls := [Add "u1" 30 "bonus" None; Subtract "u1" 10 "gift" None] in
  0 <= balance "u1" (runCalls calls emptyDb) /\
  fst (subtractPoints "u1" 50 "gift" None (runCalls calls emptyDb))
  = Thrown "Puntos insuficientes".
Proof.
  intros calls.
  assert (Hn : nonNegativePoints emptyDb) by constructor.
  assert (Hc : Forall (fun c => 0 <= callAmount c) calls)
    by (repeat constructor; cbn; lia).
  destruct (points_balance_never_negative emptyDb calls Hn Hc) as [H1 H2].
  split.
  - apply H1.
  - apply (H2 "u1" 50 "gift" None). vm_compute. reflexivity.
Defined.

(** ** The generator *)


(** ** The store invariant and the effect of each write *)

Lemma Inv_extend :
  forall db db',
    Inv db ->
    uuids db' = uuids db ->
    (issued db <= issued db')%nat ->
    NoDup (map id (challenges db')) ->
    (forall j, In j (map id (challenges db')) ->
               In j (map id (challenges db))
               \/ exists k, (issued db <= k < issued db')%nat /\ j = uuids db k) ->
    (forall j, In j (map pt_id (points_transactions db')) ->
               In j (map pt_id (points_transactions db))
               \/ exists k, (issued db <= k < issued db')%nat /\ j = uuids db k) ->
    Inv db'.
Proof.
  intros db db' [Hnd [Hc [Hp Hinj]]] Hu Hi Hnd' Hch Hpt.
  split; [exact Hnd'|]. unfold FreshIds. rewrite Hu. repeat split.
  - intros k Hk Hin. destruct (Hch _ Hin) as [Hold | [k0 [Hk0 E]]].
    + apply (Hc k); [lia | exact Hold].
    + apply Hinj in E; lia.
  - intros k Hk Hin. destruct (Hpt _ Hin) as [Hold | [k0 [Hk0 E]]].
    + apply (Hp k); [lia | exact Hold].
    + apply Hinj in E; lia.
  - intros j k Hj Hk. apply Hinj; lia.
Qed.

Lemma rewardsFor_append :
  forall i db db' p,
    points_transactions db' = points_transactions db ++ [p] ->
    rewardsFor i db' = rewardsFor i db + (if isReward i p then 1 else 0).
Proof.
  intros i db db' p E. unfold rewardsFor. rewrite E, filter_app, length_app.
  cbn [filter]. destruct (isReward i p); cbn [List.length]; lia.
Qed.

Lemma id_applyUpdate : forall c data, id (applyUpdate c data) = id c.
Proof.
  intros c [[s|] [p|]]; reflexivity.
Qed.

Lemma row_some : forall i db c, row i db = Some c -> In c (challenges db) /\ id c = i.
Proof. intros i db c H. apply (tbl_get_some id). exact H. Qed.

(** Replacing the stored row of a known challenge. *)
Lemma write_row :
  forall db c',
    Inv db ->
    In (id c') (map id (challenges db)) ->
    let db' := set_challenges db (tbl_set id c' (challenges db)) in
    Inv db' /\
    row (id c') db' = Some c' /\
    (forall j, j <> id c' -> row j db' = row j db) /\
    points_transactions db' = points_transactions db /\
    user_points db' = user_points db /\
    map id (challenges db') = map id (challenges db).
Proof.
  intros db c' HInv Hin db'.
  assert (Hk : map id (challenges db') = map id (challenges db)).
  { subst db'. cbn. destruct (tbl_set_keys id c' (challenges db)) as [[_ E] | [N _]];
      [exact E | contradiction]. }
  split; [|split; [|split; [|split; [|split]]]].
  - apply (Inv_extend db db' HInv); try reflexivity; try lia.
    + rewrite Hk. apply HInv.
    + intros j Hj. rewrite Hk in Hj. auto.
    + intros j Hj. auto.
  - apply (tbl_get_set_same id).
  - intros j Hj. apply (tbl_get_set_other id). congruence.
  - reflexivity.
  - reflexivity.
  - exact Hk.
Qed.

Lemma updateChallenge_run :
  forall i data db,
    match row i db with
    | Some c =>
        updateChallenge i data db =
        (Ok (applyUpdate c data),
         set_challenges db (tbl_set id (applyUpdate c data) (challenges db)))
    | None => updateChallenge i data db = (Thrown "Desafío no encontrado", db)
    end.
Proof.
  intros i data db. unfold row.
  destruct (tbl_get id i (challenges db)) as [c|] eqn:E;
    unfold updateChallenge, bind, getChallengeById, findOne_challenge,
      update_challenge; rewrite E; [|reflexivity].
  rewrite E. reflexivity.
Qed.

(** [updateChallenge] on a stored challenge. *)
Lemma updateChallenge_effect :
  forall i data db c,
    Inv db -> row i db = Some c ->
    exists db',
      updateChallenge i data db = (Ok (applyUpdate c data), db') /\
      Inv db' /\
      row i db' = Some (applyUpdate c data) /\
      (forall j, j <> i -> row j db' = row j db) /\
      points_transactions db' = points_transactions db /\
      user_points db' = user_points db.
Proof.
  intros i data db c HInv Hrow.
  pose proof (updateChallenge_run i data db) as Hrun. rewrite Hrow in Hrun.
  destruct (row_some _ _ _ Hrow) as [Hin Hid].
  assert (Hin' : In (id (applyUpdate c data)) (map id (challenges db))).
  { rewrite id_applyUpdate. apply in_map. exact Hin. }
  destruct (write_row db (applyUpdate c data) HInv Hin')
    as [H1 [H2 [H3 [H4 [H5 _]]]]].
  rewrite id_applyUpdate, Hid in H2, H3.
  eexists. split; [exact Hrun|].
  split; [|split; [|split; [|split]]]; assumption.
Qed.

(** [addPoints] returns, appends one row to the ledger and touches no
    challenge. *)
Lemma addPoints_effect :
  forall user n why meta db,
    Inv db ->
    exists r db',
      addPoints user n why meta db = (Ok r, db') /\
      Inv db' /\
      challenges db' = challenges db /\
      (forall j, rewardsFor j db' =
                 rewardsFor j db
                 + match meta with
                   | Some i => if String.eqb i j then 1 else 0
                   | None => 0
                   end).
Proof.
  intros user n why meta db HInv.
  destruct (addPoints_run user n why meta db) as [r [ups [k [Hrun [Hk _]]]]].
  eexists. eexists. split; [exact Hrun|].
  set (p := mkPointsTransaction (uuids db k) user n earn why meta).
  assert (Hfresh : ~ In (pt_id p) (map pt_id (points_transactions db))).
  { destruct HInv as [_ [_ [Hp _]]]. apply Hp. exact Hk. }
  split; [|split].
  - eapply (Inv_extend db); [exact HInv | reflexivity | cbn; lia | apply HInv | | ].
    + intros j Hj. left. exact Hj.
    + intros j Hj. cbn in Hj. apply (tbl_set_in_keys pt_id) in Hj.
      destruct Hj as [Hj | Hj]; [left; exact Hj|].
      right. exists k. cbn. split; [lia | exact Hj].
  - reflexivity.
  - intros j. erewrite rewardsFor_append.
    2:{ cbn. apply (tbl_set_fresh pt_id). exact Hfresh. }
    unfold isReward. cbn. destruct meta; reflexivity.
Qed.

Lemma applyUpdate_both :
  forall c s p,
    applyUpdate c (mkUpdate (Some s) (Some p)) = with_progress (with_status c s) p.
Proof. reflexivity. Qed.

Lemma completeChallenge_effect :
  forall j p now db c,
    Inv db -> row j db = Some c ->
    exists r db',
      completeChallenge j p now db = (Ok r, db') /\
      Inv db' /\
      row j db' = Some (with_progress (with_status c COMPLETED) (with_completedAt p now)) /\
      (forall k, k <> j -> row k db' = row k db) /\
      (forall k, rewardsFor k db' =
                 rewardsFor k db + (if String.eqb j k then 1 else 0)).
Proof.
  intros j p now db c HInv Hrow.
  destruct (updateChallenge_effect j
              (mkUpdate (Some COMPLETED) (Some (with_completedAt p now)))
              db c HInv Hrow)
    as [db1 [Hrun [HInv1 [Hrow1 [Hother [Hpt _]]]]]].
  destruct (addPoints_effect (userId c) (rewardPoints c) (completedReason c)
              (Some (id c)) db1 HInv1)
    as [r [db2 [Hadd [HInv2 [Hch Hrw]]]]].
  destruct (row_some _ _ _ Hrow) as [_ Hid].
  exists (applyUpdate c (mkUpdate (Some COMPLETED) (Some (with_completedAt p now)))), db2.
  split; [|split; [|split; [|split]]].
  - unfold completeChallenge, bind, getChallengeById, findOne_challenge.
    unfold row in Hrow. rewrite Hrow. rewrite Hrun, Hadd. reflexivity.
  - exact HInv2.
  - unfold row. rewrite Hch. exact Hrow1.
  - intros k Hk. unfold row. rewrite Hch. apply Hother. exact Hk.
  - intros k. rewrite Hrw. rewrite Hid.
    unfold rewardsFor. rewrite Hpt. reflexivity.
Qed.

Lemma completeChallenge_missing :
  forall j p now db,
    row j db = None -> snd (completeChallenge j p now db) = db.
Proof.
  intros j p now db H.
  unfold completeChallenge, bind, getChallengeById, findOne_challenge.
  unfold row in H. rewrite H. reflexivity.
Qed.

Lemma updateChallenge_missing :
  forall j data db, row j db = None -> snd (updateChallenge j data db) = db.
Proof.
  intros j data db H. pose proof (updateChallenge_run j data db) as R.
  rewrite H in R. rewrite R. reflexivity.
Qed.

(** One iteration of the loop of [checkProgress]. *)
Lemma checkOne_effect :
  forall txs goals now x db,
    Inv db ->
    let p := calculateProgress x txs goals now in
    let db' := snd (checkOne txs goals now x db) in
    Inv db' /\
    (forall k, k <> id x ->
               row k db' = row k db /\ rewardsFor k db' = rewardsFor k db) /\
    (forall c, row (id x) db = Some c ->
       if isChallengeCompleted x p now
       then row (id x) db' =
              Some (with_progress (with_status c COMPLETED) (with_completedAt p now))
            /\ rewardsFor (id x) db' = rewardsFor (id x) db + 1
       else row (id x) db' =
              Some (if isChallengeFailed x p now
                    then with_progress (with_status c FAILED) p
                    else with_progress c p)
            /\ points_transactions db' = points_transactions db).
Proof.
  intros txs goals now x db HInv p db'.
  destruct (row (id x) db) as [c|] eqn:Hrow.
  - subst db'. unfold checkOne. fold p.
    destruct (isChallengeCompleted x p now) eqn:Hc.
    + destruct (completeChallenge_effect (id x) p now db c HInv Hrow)
        as [r [db1 [Hrun [HInv1 [Hrow1 [Hother Hrw]]]]]].
      rewrite Hrun. cbn [snd]. split; [exact HInv1|]. split.
      * intros k Hk. split; [apply Hother; exact Hk|].
        rewrite Hrw. destruct (String.eqb_spec (id x) k); [congruence | lia].
      * intros c0 E. inversion E; subst c0. split; [exact Hrow1|].
        rewrite Hrw, String.eqb_refl. reflexivity.
    + assert (Hupd : forall data,
                 let d := snd (updateChallenge (id x) data db) in
                 Inv d /\ row (id x) d = Some (applyUpdate c data) /\
                 (forall k, k <> id x -> row k d = row k db) /\
                 points_transactions d = points_transactions db).
      { intros data.
        destruct (updateChallenge_effect (id x) data db c HInv Hrow)
          as [db1 [Hrun [H1 [H2 [H3 [H4 _]]]]]].
        cbn zeta. rewrite Hrun. cbn [snd]. auto. }
      destruct (isChallengeFailed x p now) eqn:Hf; unfold failChallenge.
      * destruct (Hupd (mkUpdate (Some FAILED) (Some p))) as [H1 [H2 [H3 H4]]].
        split; [exact H1|]. split.
        -- intros k Hk. split; [apply H3; exact Hk|].
           unfold rewardsFor. rewrite H4. reflexivity.
        -- intros c0 E. inversion E; subst c0. split; [exact H2 | exact H4].
      * destruct (Hupd (mkUpdate None (Some p))) as [H1 [H2 [H3 H4]]].
        split; [exact H1|]. split.
        -- intros k Hk. split; [apply H3; exact Hk|].
           unfold rewardsFor. rewrite H4. reflexivity.
        -- intros c0 E. inversion E; subst c0. split; [exact H2 | exact H4].
  - assert (E : db' = db).
    { subst db'. unfold checkOne. fold p.
      destruct (isChallengeCompleted x p now);
        [apply completeChallenge_missing; exact Hrow|].
      destruct (isChallengeFailed x p now); unfold failChallenge;
        apply updateChallenge_missing; exact Hrow. }
    rewrite E. split; [exact HInv|]. split; [auto|]. intros c0 H0. discriminate.
Qed.

Lemma progressWithTransaction_id :
  forall x tx now, id (updated (progressWithTransaction x tx now)) = id x.
Proof.
  intros x tx now. unfold progressWithTransaction, unchanged.
  destruct (ChallengeType_of (type x)) as [[]|]; cbn; case_ifs; reflexivity.
Qed.

(** The switch leaves the status of the copy or sets it to FAILED. *)
Lemma progressWithTransaction_status :
  forall x tx now,
    status (updated (progressWithTransaction x tx now)) = status x
    \/ status (updated (progressWithTransaction x tx now)) = FAILED.
Proof.
  intros x tx now. unfold progressWithTransaction, unchanged.
  destruct (ChallengeType_of (type x)) as [[]|]; cbn; case_ifs; auto.
Qed.

Lemma update_challenge_effect :
  forall i merge db c,
    Inv db -> row i db = Some c -> id (merge c) = i ->
    exists db',
      update_challenge i merge db = (Ok (merge c), db') /\
      Inv db' /\
      row i db' = Some (merge c) /\
      (forall j, j <> i -> row j db' = row j db) /\
      points_transactions db' = points_transactions db.
Proof.
  intros i merge db c HInv Hrow Hid.
  destruct (row_some _ _ _ Hrow) as [Hin Hidc].
  assert (Hin' : In (id (merge c)) (map id (challenges db))).
  { rewrite Hid, <- Hidc. apply in_map. exact Hin. }
  destruct (write_row db (merge c) HInv Hin') as [H1 [H2 [H3 [H4 _]]]].
  rewrite Hid in H2, H3.
  eexists. split.
  - unfold update_challenge. unfold row in Hrow. rewrite Hrow. reflexivity.
  - auto.
Qed.

Lemma update_challenge_missing :
  forall i merge db, row i db = None -> snd (update_challenge i merge db) = db.
Proof.
  intros i merge db H. unfold update_challenge. unfold row in H.
  rewrite H. reflexivity.
Qed.

(** One call of [updateChallengeProgressWithTransaction]. *)
Lemma incremental_effect :
  forall x tx now db,
    Inv db ->
    let o := progressWithTransaction x tx now in
    let db' := snd (updateChallengeProgressWithTransaction x tx now db) in
    Inv db' /\
    (forall k, k <> id x ->
               row k db' = row k db /\ rewardsFor k db' = rewardsFor k db) /\
    (forall c, row (id x) db = Some c ->
       if shouldComplete o
       then row (id x) db' =
              Some (with_progress (with_status c COMPLETED) (progress (updated o)))
            /\ rewardsFor (id x) db' = rewardsFor (id x) db + 1
       else row (id x) db' =
              Some (if shouldUpdate o
                    then with_progress (with_status c (status (updated o)))
                           (progress (updated o))
                    else c)
            /\ points_transactions db' = points_transactions db).
Proof.
  intros x tx now db HInv o db'. subst db'.
  unfold updateChallengeProgressWithTransaction. fold o.
  destruct (shouldComplete o) eqn:Hc.
  - destruct (addPoints_effect (userId x) (rewardPoints x)
                (String.append "Challenge completado: " (title x))
                (Some (id x)) db HInv)
      as [r [db1 [Hadd [HInv1 [Hch Hrw]]]]].
    rewrite orb_true_r.
    unfold tryCatch, bind, ret. rewrite Hadd. cbv beta iota.
    assert (Hrows : forall k, row k db1 = row k db)
      by (intros k; unfold row; rewrite Hch; reflexivity).
    destruct (row (id x) db) as [c|] eqn:Hrow.
    + set (merge := fun existing : Challenge =>
                      with_progress
                        (with_status existing (status (with_status (updated o) COMPLETED)))
                        (progress (with_status (updated o) COMPLETED))).
      assert (Hrow1 : row (id x) db1 = Some c) by (rewrite Hrows; exact Hrow).
      destruct (update_challenge_effect (id x) merge db1 c HInv1 Hrow1)
        as [db2 [Hupd [HInv2 [Hrow2 [Hother Hpt]]]]].
      { unfold merge. cbn. apply (row_some _ _ _ Hrow). }
      rewrite Hupd. cbv beta iota. cbn [snd].
      split; [exact HInv2|]. split.
      * intros k Hk. rewrite (Hother k Hk), Hrows. split; [reflexivity|].
        unfold rewardsFor at 1. rewrite Hpt. fold (rewardsFor k db1).
        rewrite Hrw. destruct (String.eqb_spec (id x) k); [congruence | lia].
      * intros c0 E. inversion E; subst c0. split; [exact Hrow2|].
        unfold rewardsFor at 1. rewrite Hpt. fold (rewardsFor (id x) db1).
        rewrite Hrw, String.eqb_refl. reflexivity.
    + assert (Hnone : row (id x) db1 = None) by (rewrite Hrows; exact Hrow).
      unfold update_challenge. unfold row in Hnone. rewrite Hnone.
      cbv beta iota. cbn [snd]. split; [exact HInv1|]. split.
      * intros k Hk. rewrite Hrows. split; [reflexivity|].
        rewrite Hrw. destruct (String.eqb_spec (id x) k); [congruence | lia].
      * intros c0 E. discriminate.
  - rewrite orb_false_r. unfold tryCatch, bind, ret. cbv beta iota.
    destruct (shouldUpdate o) eqn:Hu.
    + destruct (row (id x) db) as [c|] eqn:Hrow.
      * set (merge := fun existing : Challenge =>
                        with_progress (with_status existing (status (updated o)))
                          (progress (updated o))).
        destruct (update_challenge_effect (id x) merge db c HInv Hrow)
          as [db2 [Hupd [HInv2 [Hrow2 [Hother Hpt]]]]].
        { unfold merge. cbn. apply (row_some _ _ _ Hrow). }
        rewrite Hupd. cbv beta iota. cbn [snd].
        split; [exact HInv2|]. split.
        -- intros k Hk. split; [apply Hother; exact Hk|].
           unfold rewardsFor. rewrite Hpt. reflexivity.
        -- intros c0 E. inversion E; subst c0. split; [exact Hrow2 | exact Hpt].
      * unfold update_challenge. unfold row in Hrow. rewrite Hrow.
        cbv beta iota. cbn [snd].
        split; [exact HInv|]. split; [auto|]. intros c0 E. discriminate.
    + cbn [snd]. split; [exact HInv|]. split; [auto|].
      intros c0 E. auto.
Qed.

(** ** Loops over the challenges a pass has loaded *)

Lemma mapM_cons_snd :
  forall (A B : Type) (body : A -> M B) x rest db,
    snd (mapM (x :: rest) body db) =
    match fst (body x db) with
    | Ok _ => snd (mapM rest body (snd (body x db)))
    | Thrown _ => snd (body x db)
    end.
Proof.
  intros A B body x rest db. cbn [mapM]. unfold bind, ret.
  destruct (body x db) as [[y|e] db1]; cbn [fst snd]; [|reflexivity].
  destruct (mapM rest body db1) as [[ys|e] db2]; reflexivity.
Qed.

Section Loop.
Variables (B : Type) (body : Challenge -> M B) (i : string).

Hypothesis body_inv : forall x db, Inv db -> Inv (snd (body x db)).

Hypothesis body_other :
  forall x db, Inv db -> id x <> i ->
    row i (snd (body x db)) = row i db
    /\ rewardsFor i (snd (body x db)) = rewardsFor i db.

Hypothesis body_self :
  forall x db c, Inv db -> id x = i -> status x = ACTIVE ->
    row i db = Some c -> status c <> COMPLETED ->
    exists c', row i (snd (body x db)) = Some c'
               /\ rewardsFor i (snd (body x db)) = rewardsFor i db + completedBit c'.

(** The loop keeps [rewardsFor i - completedBit] of challenge [i], and leaves
    the challenge alone when it is not among the items. *)
Lemma loop_effect :
  forall items db c,
    NoDup (map id items) ->
    (forall x, In x items -> status x = ACTIVE) ->
    Inv db ->
    row i db = Some c ->
    (In i (map id items) -> status c <> COMPLETED) ->
    let db' := snd (mapM items body db) in
    Inv db' /\
    exists c',
      row i db' = Some c' /\
      rewardsFor i db' - completedBit c' = rewardsFor i db - completedBit c /\
      (~ In i (map id items) -> c' = c).
Proof.
  induction items as [|x rest IH]; intros db c Hnd Hact HInv Hrow Hnc db'.
  - subst db'. cbn. split; [exact HInv|]. exists c. auto.
  - subst db'. rewrite mapM_cons_snd.
    cbn [map] in Hnd. inversion Hnd as [|? ? Hnot Hnd']; subst.
    assert (HInv1 := body_inv x db HInv).
    assert (Hact' : forall y, In y rest -> status y = ACTIVE)
      by (intros y Hy; apply Hact; right; exact Hy).
    destruct (String.eqb_spec (id x) i) as [E | N].
    + assert (Hst : status c <> COMPLETED) by (apply Hnc; left; exact E).
      destruct (body_self x db c HInv E (Hact x (or_introl eq_refl)) Hrow Hst)
        as [c1 [Hrow1 Hrw1]].
      assert (Hbit : completedBit c = 0).
      { unfold completedBit. destruct (status c); congruence. }
      assert (Hnin : ~ In i (map id rest)) by (rewrite <- E; exact Hnot).
      destruct (fst (body x db)).
      * destruct (IH _ c1 Hnd' Hact' HInv1 Hrow1) as [HInv2 [c2 [Hrow2 [Hq Hsame]]]];
          [intros Hin; contradiction|].
        split; [exact HInv2|]. exists c2. split; [exact Hrow2|]. split.
        -- rewrite Hq. lia.
        -- intros Hn. exfalso. apply Hn. left. exact E.
      * split; [exact HInv1|]. exists c1. split; [exact Hrow1|]. split.
        -- lia.
        -- intros Hn. exfalso. apply Hn. left. exact E.
    + destruct (body_other x db HInv N) as [Hrow1 Hrw1].
      rewrite <- Hrow1 in Hrow.
      destruct (fst (body x db)).
      * destruct (IH _ c Hnd' Hact' HInv1 Hrow) as [HInv2 [c2 [Hrow2 [Hq Hsame]]]].
        { intros Hin. apply Hnc. right. exact Hin. }
        split; [exact HInv2|]. exists c2. split; [exact Hrow2|]. split.
        -- rewrite Hq. lia.
        -- intros Hn. apply Hsame. intros Hin. apply Hn. right. exact Hin.
      * split; [exact HInv1|]. exists c. split; [exact Hrow|]. split.
        -- lia.
        -- reflexivity.
Qed.

End Loop.

Lemma completedBit_not_completed :
  forall c, status c <> COMPLETED -> completedBit c = 0.
Proof. intros c H. unfold completedBit. destruct (status c); congruence. Qed.

Lemma rewardsFor_same_ledger :
  forall i db db',
    points_transactions db' = points_transactions db ->
    rewardsFor i db' = rewardsFor i db.
Proof. intros i db db' H. unfold rewardsFor. rewrite H. reflexivity. Qed.

Lemma checkProgress_loop :
  forall txs goals now i items db c,
    NoDup (map id items) ->
    (forall x, In x items -> status x = ACTIVE) ->
    Inv db ->
    row i db = Some c ->
    (In i (map id items) -> status c <> COMPLETED) ->
    let db' := snd (mapM items (checkOne txs goals now) db) in
    Inv db' /\
    exists c',
      row i db' = Some c' /\
      rewardsFor i db' - completedBit c' = rewardsFor i db - completedBit c /\
      (~ In i (map id items) -> c' = c).
Proof.
  intros txs goals now i. apply loop_effect.
  - intros x db HInv. apply (checkOne_effect txs goals now x db HInv).
  - intros x db HInv Hne.
    destruct (checkOne_effect txs goals now x db HInv) as [_ [Hother _]].
    apply Hother. congruence.
  - intros x db c HInv Hid Hact Hrow Hst.
    destruct (checkOne_effect txs goals now x db HInv) as [_ [_ Hself]].
    rewrite <- Hid in Hrow. specialize (Hself c Hrow). rewrite <- Hid.
    destruct (isChallengeCompleted x (calculateProgress x txs goals now) now).
    + destruct Hself as [Hr Hw]. eexists. split; [exact Hr|]. rewrite Hw. reflexivity.
    + destruct Hself as [Hr Hl]. eexists. split; [exact Hr|].
      rewrite (rewardsFor_same_ledger _ _ _ Hl).
      rewrite completedBit_not_completed; [lia|].
      destruct (isChallengeFailed x (calculateProgress x txs goals now) now); cbn.
      * discriminate.
      * exact Hst.
Qed.

Lemma incremental_loop :
  forall tx now i items db c,
    NoDup (map id items) ->
    (forall x, In x items -> status x = ACTIVE) ->
    Inv db ->
    row i db = Some c ->
    (In i (map id items) -> status c <> COMPLETED) ->
    let db' :=
      snd (mapM items
             (fun challenge => updateChallengeProgressWithTransaction challenge tx now)
             db) in
    Inv db' /\
    exists c',
      row i db' = Some c' /\
      rewardsFor i db' - completedBit c' = rewardsFor i db - completedBit c /\
      (~ In i (map id items) -> c' = c).
Proof.
  intros tx now i. apply loop_effect.
  - intros x db HInv. apply (incremental_effect x tx now db HInv).
  - intros x db HInv Hne.
    destruct (incremental_effect x tx now db HInv) as [_ [Hother _]].
    apply Hother. congruence.
  - intros x db c HInv Hid Hact Hrow Hst.
    destruct (incremental_effect x tx now db HInv) as [_ [_ Hself]].
    rewrite <- Hid in Hrow. specialize (Hself c Hrow). rewrite <- Hid.
    destruct (shouldComplete (progressWithTransaction x tx now)).
    + destruct Hself as [Hr Hw]. eexists. split; [exact Hr|]. rewrite Hw. reflexivity.
    + destruct Hself as [Hr Hl]. eexists. split; [exact Hr|].
      rewrite (rewardsFor_same_ledger _ _ _ Hl).
      rewrite completedBit_not_completed; [lia|].
      destruct (shouldUpdate (progressWithTransaction x tx now)); cbn.
      * destruct (progressWithTransaction_status x tx now) as [E | E];
          rewrite E; [rewrite Hact|]; discriminate.
      * exact Hst.
Qed.

(** *** [getActiveChallenges] *)

Lemma forEach_cons :
  forall (A : Type) (body : A -> M unit) x rest db,
    forEach (x :: rest) body db =
    match body x db with
    | (Ok _, db1) => forEach rest body db1
    | (Thrown e, db1) => (Thrown e, db1)
    end.
Proof. intros. cbn [forEach]. unfold bind. reflexivity. Qed.

Lemma expire_loop :
  forall now items db,
    Inv db ->
    NoDup (map id items) ->
    (forall x, In x items -> row (id x) db = Some x) ->
    exists db',
      forEach items (expireStep now) db = (Ok tt, db') /\
      Inv db' /\
      points_transactions db' = points_transactions db /\
      user_points db' = user_points db /\
      (forall j c, row j db = Some c ->
         (~ In j (map id items) -> row j db' = Some c) /\
         (In j (map id items) ->
          row j db' = Some (if endDate c <? now then with_status c EXPIRED else c))).
Proof.
  intros now. induction items as [|x rest IH]; intros db HInv Hnd Hrows.
  - exists db. split; [reflexivity|]. split; [exact HInv|].
    split; [reflexivity|]. split; [reflexivity|].
    intros j c Hj. split; [auto | intros []].
  - cbn [map] in Hnd. inversion Hnd as [|? ? Hnot Hnd']; subst.
    assert (Hx : row (id x) db = Some x) by (apply Hrows; left; reflexivity).
    rewrite forEach_cons. unfold expireStep at 1.
    destruct (Z.ltb_spec (endDate x) now) as [Hlt | Hge].
    + destruct (updateChallenge_effect (id x) (mkUpdate (Some EXPIRED) None) db x HInv Hx)
        as [db1 [Hrun [HInv1 [Hrow1 [Hother [Hpt Hup]]]]]].
      unfold bind, ret. rewrite Hrun.
      destruct (IH db1 HInv1 Hnd') as [db2 [Hloop [HInv2 [Hpt2 [Hup2 Hpost]]]]].
      { intros y Hy. rewrite Hother; [apply Hrows; right; exact Hy|].
        intros E. apply Hnot. rewrite <- E. apply in_map. exact Hy. }
      exists db2. split; [exact Hloop|]. split; [exact HInv2|].
      split; [congruence|]. split; [congruence|].
      intros j c Hj. destruct (String.eqb_spec j (id x)) as [E | N].
      * subst j. rewrite Hx in Hj. inversion Hj; subst c.
        destruct (Hpost (id x) _ Hrow1) as [Hout _]. split.
        -- intros Hn. exfalso. apply Hn. left. reflexivity.
        -- intros _. rewrite (Hout Hnot). cbn.
           destruct (Z.ltb_spec (endDate x) now); [reflexivity | lia].
      * rewrite <- (Hother j N) in Hj.
        destruct (Hpost j c Hj) as [Hout Hin]. split.
        -- intros Hn. apply Hout. intros H. apply Hn. right. exact H.
        -- intros [H | H]; [congruence | apply Hin; exact H].
    + unfold ret at 1.
      destruct (IH db HInv Hnd') as [db2 [Hloop [HInv2 [Hpt2 [Hup2 Hpost]]]]].
      { intros y Hy. apply Hrows. right. exact Hy. }
      exists db2. split; [exact Hloop|]. split; [exact HInv2|].
      split; [exact Hpt2|]. split; [exact Hup2|].
      intros j c Hj. destruct (Hpost j c Hj) as [Hout Hin].
      destruct (String.eqb_spec j (id x)) as [E | N].
      * subst j. rewrite Hx in Hj. inversion Hj; subst c. split.
        -- intros Hn. exfalso. apply Hn. left. reflexivity.
        -- intros _. rewrite (Hout Hnot).
           destruct (Z.ltb_spec (endDate x) now); [lia | reflexivity].
      * split.
        -- intros Hn. apply Hout. intros H. apply Hn. right. exact H.
        -- intros [H | H]; [congruence | apply Hin; exact H].
Qed.

Lemma NoDup_map_filter :
  forall (A K : Type) (f : A -> K) (p : A -> bool) l,
    NoDup (map f l) -> NoDup (map f (filter p l)).
Proof.
  intros A K f p. induction l as [|x rest IH]; intros H; [constructor|].
  cbn [map] in H. inversion H as [|? ? Hnot Hnd]; subst. cbn [filter].
  destruct (p x); [cbn [map]; constructor|]; auto.
  intros Hin. apply Hnot. apply in_map_iff in Hin.
  destruct Hin as [y [Hy Hin]]. apply filter_In in Hin.
  rewrite <- Hy. apply in_map. tauto.
Qed.

Lemma filter_all :
  forall (A : Type) (p : A -> bool) l,
    (forall x, In x l -> p x = true) -> filter p l = l.
Proof.
  intros A p. induction l as [|x rest IH]; intros H; [reflexivity|].
  cbn [filter]. rewrite (H x (or_introl eq_refl)). f_equal.
  apply IH. intros y Hy. apply H. right. exact Hy.
Qed.

Lemma activeOf_true :
  forall user c, activeOf user c = true -> userId c = user /\ status c = ACTIVE.
Proof.
  intros user c H. unfold activeOf, isActive in H.
  apply andb_true_iff in H. destruct H as [Hu Hs].
  apply String.eqb_eq in Hu. split; [exact Hu|].
  destruct (status c); [reflexivity | discriminate..].
Qed.

(** [getActiveChallenges] returns the rows that were ACTIVE when it read
    them, marks EXPIRED those whose [endDate] is before [now], and writes
    nothing else. *)
Lemma getActiveChallenges_spec :
  forall user now db,
    Inv db ->
    exists db',
      getActiveChallenges user now db
      = (Ok (filter (activeOf user) (challenges db)), db') /\
      Inv db' /\
      points_transactions db' = points_transactions db /\
      user_points db' = user_points db /\
      (forall j c, row j db = Some c -> row j db' = Some (expired user now c)).
Proof.
  intros user now db HInv.
  set (found := filter (activeOf user) (challenges db)).
  assert (Hnd : NoDup (map id found)).
  { apply NoDup_map_filter. apply HInv. }
  assert (Hrows : forall x, In x found -> row (id x) db = Some x).
  { intros x Hx. apply filter_In in Hx. apply (tbl_get_unique id); [apply HInv | tauto]. }
  destruct (expire_loop now found db HInv Hnd Hrows)
    as [db' [Hloop [HInv' [Hpt [Hup Hpost]]]]].
  exists db'. split; [|split; [|split; [|split]]]; try assumption.
  - unfold getActiveChallenges, bind, find_challenges, ret. fold found.
    rewrite Hloop. f_equal. f_equal. apply filter_all.
    intros x Hx. apply filter_In in Hx. destruct Hx as [_ Hx].
    unfold activeOf in Hx. apply andb_true_iff in Hx. tauto.
  - intros j c Hj. destruct (Hpost j c Hj) as [Hout Hin]. unfold expired.
    destruct (row_some _ _ _ Hj) as [Hc Hid].
    destruct (activeOf user c) eqn:Ea; cbn [andb].
    + apply Hin. rewrite <- Hid. apply in_map. apply filter_In. tauto.
    + apply Hout. intros H. apply in_map_iff in H. destruct H as [x [Hx Hinx]].
      assert (Hx' := Hrows x Hinx). rewrite Hx, Hj in Hx'. inversion Hx'; subst x.
      apply filter_In in Hinx. destruct Hinx as [_ Hinx]. congruence.
Qed.

(** *** [generateChallenges] and the top-up *)

Lemma generatedFrom_props :
  forall source user now drafts k,
    List.length (generatedFrom source k user now drafts) = List.length drafts /\
    Forall (fun c => status c = ACTIVE /\ userId c = user
                     /\ progress c = initialProgress now /\ aiGenerated c = true)
           (generatedFrom source k user now drafts).
Proof.
  intros source user now. induction drafts as [|d rest IH]; intros k.
  - split; [reflexivity | constructor].
  - destruct (IH (S k)) as [Hl Hf]. split.
    + cbn. rewrite Hl. reflexivity.
    + constructor; [cbn; auto | exact Hf].
Qed.

Lemma mapM_cons_ok :
  forall (A B : Type) (body : A -> M B) x rest db y ys db1 db2,
    body x db = (Ok y, db1) ->
    mapM rest body db1 = (Ok ys, db2) ->
    mapM (x :: rest) body db = (Ok (y :: ys), db2).
Proof.
  intros A B body x rest db y ys db1 db2 H1 H2.
  cbn [mapM]. unfold bind. rewrite H1, H2. reflexivity.
Qed.

(** Storing a challenge under a new identifier appends it. *)
Lemma insert_new_challenge :
  forall (make : string -> Challenge) db,
    (forall i, id (make i) = i) ->
    Inv db ->
    let c := make (uuids db (issued db)) in
    exists db',
      bind uuidv4 (fun i => insert_challenge (make i)) db = (Ok c, db') /\
      Inv db' /\
      challenges db' = (challenges db ++ [c])%list /\
      points_transactions db' = points_transactions db /\
      user_points db' = user_points db /\
      uuids db' = uuids db /\
      issued db' = S (issued db).
Proof.
  intros make db Hid HInv c.
  set (db1 := set_challenges (bump db) (tbl_set id c (challenges db))).
  assert (Hfresh : ~ In (id c) (map id (challenges db))).
  { subst c. rewrite Hid. destruct HInv as [_ [Hc _]]. apply Hc. lia. }
  exists db1. split; [reflexivity|]. split; [|split; [|repeat split]].
  - apply (Inv_extend db db1 HInv); try reflexivity.
    + cbn. lia.
    + subst db1. cbn. apply (tbl_set_NoDup id). apply HInv.
    + intros j Hj. subst db1. cbn in Hj. apply (tbl_set_in_keys id) in Hj.
      destruct Hj as [Hj | Hj]; [left; exact Hj|].
      right. exists (issued db). cbn. split; [lia|].
      rewrite Hj. subst c. apply Hid.
    + intros j Hj. left. exact Hj.
  - subst db1. cbn. apply (tbl_set_fresh id). exact Hfresh.
Qed.

Lemma generate_loop :
  forall user now drafts db,
    Inv db ->
    exists db',
      mapM drafts
        (fun challengeData =>
           bind uuidv4 (fun i =>
             insert_challenge (challengeOf i user challengeData now true)))
        db
      = (Ok (generatedFrom (uuids db) (issued db) user now drafts), db') /\
      Inv db' /\
      challenges db' =
        (challenges db ++ generatedFrom (uuids db) (issued db) user now drafts)%list /\
      points_transactions db' = points_transactions db /\
      user_points db' = user_points db.
Proof.
  intros user now. induction drafts as [|d rest IH]; intros db HInv.
  - exists db. cbn. rewrite app_nil_r. auto.
  - destruct (insert_new_challenge (fun i => challengeOf i user d now true) db
                (fun i => eq_refl) HInv)
      as [db1 [Hstep [HInv1 [Hrows [Hpt1 [Hup1 [Hu1 Hi1]]]]]]].
    destruct (IH db1 HInv1) as [db2 [Hrun [HInv2 [Hch [Hpt Hup]]]]].
    rewrite Hu1, Hi1 in Hrun, Hch.
    exists db2. split; [|split; [exact HInv2 | split; [|split]]].
    + exact (mapM_cons_ok _ _ _ d rest db _ _ db1 db2 Hstep Hrun).
    + rewrite Hch, Hrows, <- app_assoc. reflexivity.
    + rewrite Hpt. exact Hpt1.
    + rewrite Hup. exact Hup1.
Qed.

Lemma row_app :
  forall j db db' extra c,
    challenges db' = (challenges db ++ extra)%list ->
    row j db = Some c -> row j db' = Some c.
Proof.
  intros j db db' extra c E H. unfold row, tbl_get in *. rewrite E. clear E.
  induction (challenges db) as [|x rest IH]; [discriminate|].
  cbn in *. destruct (String.eqb (id x) j); [exact H | apply IH; exact H].
Qed.

Lemma activeCount_app :
  forall user db db' extra,
    challenges db' = (challenges db ++ extra)%list ->
    Forall (fun c => status c = ACTIVE /\ userId c = user) extra ->
    activeCount user db' = activeCount user db + Z.of_nat (List.length extra).
Proof.
  intros user db db' extra E Hall. unfold activeCount.
  rewrite E, filter_app, length_app.
  rewrite (filter_all _ (activeOf user) extra); [lia|].
  rewrite Forall_forall in Hall. intros x Hx. destruct (Hall x Hx) as [Hs Hu].
  unfold activeOf, isActive. rewrite Hs, Hu, String.eqb_refl. reflexivity.
Qed.

Lemma generateChallenges_effect :
  forall input now ai db resp,
    Inv db ->
    ai (requestedCount input) = Ok resp ->
    let created :=
      generatedFrom (uuids db) (issued db) (in_userId input) now
        (parseAIChallenges resp now) in
    exists db',
      generateChallenges input now ai db = (Ok created, db') /\
      Inv db' /\
      challenges db' = (challenges db ++ created)%list /\
      points_transactions db' = points_transactions db /\
      user_points db' = user_points db.
Proof.
  intros input now ai db resp HInv Hai created.
  destruct (generate_loop (in_userId input) now (parseAIChallenges resp now) db HInv)
    as [db' [Hrun H]].
  exists db'. split; [|exact H].
  unfold generateChallenges. rewrite Hai. exact Hrun.
Qed.

(** The top-up keeps every stored challenge and the ledger, whatever the
    content model answers. *)
Lemma topUp_effect :
  forall user now ai remaining db,
    Inv db ->
    let db' := snd (topUp user now ai remaining db) in
    Inv db' /\
    (forall j c, row j db = Some c -> row j db' = Some c) /\
    points_transactions db' = points_transactions db /\
    activeCount user db <= activeCount user db'.
Proof.
  intros user now ai remaining db HInv db'. subst db'. unfold topUp.
  destruct (Z.of_nat (List.length remaining) <? 3).
  - set (input := mkInput user (Some (3 - Z.of_nat (List.length remaining)))).
    destruct (ai (requestedCount input)) as [resp | e] eqn:Hai.
    + destruct (generateChallenges_effect input now ai db resp HInv Hai)
        as [db' [Hrun [HInv' [Hch [Hpt _]]]]].
      unfold bind. rewrite Hrun. cbn [snd ret].
      split; [exact HInv'|]. split; [|split; [exact Hpt|]].
      * intros j c Hj. apply (row_app j db db' _ c Hch Hj).
      * erewrite (activeCount_app user db db'); [|exact Hch|].
        -- lia.
        -- destruct (generatedFrom_props (uuids db) user now
                       (parseAIChallenges resp now) (issued db)) as [_ Hf].
           eapply Forall_impl; [|exact Hf]. cbn. tauto.
    + unfold bind, generateChallenges. rewrite Hai. cbn.
      split; [exact HInv|]. split; [auto|]. split; [reflexivity | lia].
  - cbn. split; [exact HInv|]. split; [auto|]. split; [reflexivity | lia].
Qed.

(** ** One evaluation pass *)

Lemma expired_bit :
  forall user now c, completedBit (expired user now c) = completedBit c.
Proof.
  intros user now c. unfold expired.
  destruct (activeOf user c) eqn:E; [|reflexivity].
  destruct (endDate c <? now); [|reflexivity].
  apply activeOf_true in E. unfold completedBit. cbn.
  destruct E as [_ ->]. reflexivity.
Qed.

Lemma expired_terminal :
  forall user now c, status c <> ACTIVE -> expired user now c = c.
Proof.
  intros user now c H. unfold expired.
  destruct (activeOf user c) eqn:E; [|reflexivity].
  apply activeOf_true in E. tauto.
Qed.

Lemma expired_not_completed :
  forall user now c, status c <> COMPLETED -> status (expired user now c) <> COMPLETED.
Proof.
  intros user now c H. unfold expired.
  destruct (activeOf user c && (endDate c <? now)); [cbn; discriminate | exact H].
Qed.

(** A loaded challenge is the stored row of its id, and it is ACTIVE. *)
Lemma loaded_is_active :
  forall user db i c,
    Inv db -> row i db = Some c ->
    In i (map id (filter (activeOf user) (challenges db))) ->
    status c = ACTIVE.
Proof.
  intros user db i c HInv Hrow Hin.
  apply in_map_iff in Hin. destruct Hin as [x [Hx Hin]].
  apply filter_In in Hin. destruct Hin as [Hin Ha].
  assert (Hx' : row (id x) db = Some x)
    by (apply (tbl_get_unique id); [apply HInv | exact Hin]).
  rewrite Hx, Hrow in Hx'. inversion Hx'; subst x.
  apply (activeOf_true user c Ha).
Qed.

Lemma loaded_all_active :
  forall user db x, In x (filter (activeOf user) (challenges db)) -> status x = ACTIVE.
Proof.
  intros user db x H. apply filter_In in H. apply (activeOf_true user x). tauto.
Qed.

Lemma listActive_kept :
  forall user now db i c,
    Inv db -> row i db = Some c ->
    Kept i c db (snd (getActiveChallenges user now db)).
Proof.
  intros user now db i c HInv Hrow.
  destruct (getActiveChallenges_spec user now db HInv)
    as [db1 [Hrun [HInv1 [Hpt [_ Hrows]]]]].
  rewrite Hrun. cbn [snd]. split; [exact HInv1|].
  exists (expired user now c). split; [apply Hrows; exact Hrow|]. split.
  - rewrite expired_bit, (rewardsFor_same_ledger _ _ _ Hpt). reflexivity.
  - apply expired_terminal.
Qed.

Lemma batch_kept :
  forall user now db i c,
    Inv db -> row i db = Some c ->
    Kept i c db (snd (checkProgress user now db)).
Proof.
  intros user now db i c HInv Hrow.
  destruct (getActiveChallenges_spec user now db HInv)
    as [db1 [Hrun [HInv1 [Hpt [_ Hrows]]]]].
  set (found := filter (activeOf user) (challenges db)) in *.
  unfold checkProgress, bind. rewrite Hrun.
  unfold find_transactions, find_savings_goals. cbv beta iota.
  destruct (checkProgress_loop
              (filter (fun t => String.eqb (tx_userId t) user) (transactions db1))
              (filter (fun g => String.eqb (g_userId g) user) (savings_goals db1))
              now i found db1 (expired user now c))
    as [HInv2 [c2 [Hrow2 [Hq Hsame]]]].
  - apply NoDup_map_filter. apply HInv.
  - apply loaded_all_active.
  - exact HInv1.
  - apply Hrows. exact Hrow.
  - intros Hin. apply expired_not_completed.
    rewrite (loaded_is_active user db i c HInv Hrow Hin). discriminate.
  - split; [exact HInv2|]. exists c2. split; [exact Hrow2|]. split.
    + rewrite Hq, expired_bit, (rewardsFor_same_ledger _ _ _ Hpt). reflexivity.
    + intros Hst. rewrite Hsame; [apply expired_terminal; exact Hst|].
      intros Hin. apply Hst. apply (loaded_is_active user db i c HInv Hrow Hin).
Qed.

Lemma incremental_kept :
  forall user now ai db i c,
    Inv db -> row i db = Some c ->
    Kept i c db (snd (updateChallengesWithNewData user now ai db)).
Proof.
  intros user now ai db i c HInv Hrow.
  destruct (getActiveChallenges_spec user now db HInv)
    as [db1 [Hrun [HInv1 [Hpt [_ Hrows]]]]].
  set (found := filter (activeOf user) (challenges db)) in *.
  pose proof (listActive_kept user now db i c HInv Hrow) as K1.
  rewrite Hrun in K1. cbn [snd] in K1.
  unfold updateChallengesWithNewData, bind. rewrite Hrun.
  unfold find_transactions. cbv beta iota.
  destruct (filter (fun t => String.eqb (tx_userId t) user) (transactions db1))
    as [|first others] eqn:Etx.
  - exact K1.
  - set (latest := hd first (sortDesc (first :: others))).
    destruct (incremental_loop latest now i found db1 (expired user now c))
      as [HInv2 [c2 [Hrow2 [Hq Hsame]]]].
    + apply NoDup_map_filter. apply HInv.
    + apply loaded_all_active.
    + exact HInv1.
    + apply Hrows. exact Hrow.
    + intros Hin. apply expired_not_completed.
      rewrite (loaded_is_active user db i c HInv Hrow Hin). discriminate.
    + assert (Hq2 : rewardsFor i
                      (snd (mapM found
                              (fun challenge =>
                                 updateChallengeProgressWithTransaction challenge latest now)
                              db1))
                    - completedBit c2 = rewardsFor i db - completedBit c).
      { rewrite Hq, expired_bit, (rewardsFor_same_ledger _ _ _ Hpt). reflexivity. }
      assert (Hsame2 : status c <> ACTIVE -> c2 = c).
      { intros Hst. rewrite Hsame; [apply expired_terminal; exact Hst|].
        intros Hin. apply Hst. apply (loaded_is_active user db i c HInv Hrow Hin). }
      destruct (mapM found
                  (fun challenge =>
                     updateChallengeProgressWithTransaction challenge latest now)
                  db1) as [[ys | e] db2]; cbn [snd] in *.
      * destruct (getActiveChallenges_spec user now db2 HInv2)
          as [db3 [Hrun3 [HInv3 [Hpt3 [_ Hrows3]]]]].
        rewrite Hrun3.
        destruct (topUp_effect user now ai
                    (filter (activeOf user) (challenges db2)) db3 HInv3)
          as [HInv4 [Hrows4 [Hpt4 _]]].
        split; [exact HInv4|]. exists (expired user now c2).
        split; [apply Hrows4, Hrows3; exact Hrow2|]. split.
        -- rewrite expired_bit, (rewardsFor_same_ledger _ _ _ Hpt4),
             (rewardsFor_same_ledger _ _ _ Hpt3). exact Hq2.
        -- intros Hst. rewrite (Hsame2 Hst). apply expired_terminal. exact Hst.
      * split; [exact HInv2|]. exists c2. auto.
Qed.

Lemma tryCatch_drop_snd :
  forall (A : Type) (m : M A) db,
    snd (tryCatch (bind m (fun _ => ret tt)) (fun _ => ret tt) db) = snd (m db).
Proof.
  intros A m db. unfold tryCatch, bind, ret.
  destruct (m db) as [[a | e] db1]; reflexivity.
Qed.

(** What [createTransaction] returns, and the store once the update it
    starts has run to its end. *)
Lemma recorded_run :
  forall user data now ai db,
    let t := recordedTransaction user data now db in
    let db1 := set_transactions (bump db) (tbl_set tx_id t (transactions db)) in
    createTransaction user data now db = (Ok t, db1) /\
    updateUserChallenges user now ai db1
    = (Ok tt, snd (updateChallengesWithNewData user now ai db1)) /\
    snd ((createTransaction user data now ;;; updateUserChallenges user now ai) db)
    = snd (updateChallengesWithNewData user now ai db1).
Proof.
  intros user data now ai db t db1.
  assert (H1 : createTransaction user data now db = (Ok t, db1)) by reflexivity.
  assert (H2 : updateUserChallenges user now ai db1
               = (Ok tt, snd (updateChallengesWithNewData user now ai db1))).
  { unfold updateUserChallenges, tryCatch, bind, ret.
    destruct (updateChallengesWithNewData user now ai db1) as [[u | e] db2];
      reflexivity. }
  split; [exact H1|]. split; [exact H2|].
  unfold bind at 1. rewrite H1, H2. reflexivity.
Qed.

Lemma recorded_kept :
  forall user data now ai db i c,
    Inv db -> row i db = Some c ->
    Kept i c db
      (snd ((createTransaction user data now ;;;
             updateUserChallenges user now ai) db)).
Proof.
  intros user data now ai db i c HInv Hrow.
  destruct (recorded_run user data now ai db) as [_ [_ E]]. rewrite E.
  set (db1 := set_transactions (bump db) _).
  assert (HInv1 : Inv db1).
  { apply (Inv_extend db db1 HInv); try reflexivity.
    - cbn. lia.
    - apply HInv.
    - intros j Hj. left. exact Hj.
    - intros j Hj. left. exact Hj. }
  assert (Hrow1 : row i db1 = Some c) by exact Hrow.
  destruct (incremental_kept user now ai db1 i c HInv1 Hrow1)
    as [HInv2 [c2 [Hrow2 [Hq Hs]]]].
  split; [exact HInv2|]. exists c2. auto.
Qed.

Lemma appended_kept :
  forall db db' extra i c,
    Inv db' ->
    challenges db' = (challenges db ++ extra)%list ->
    points_transactions db' = points_transactions db ->
    row i db = Some c ->
    Kept i c db db'.
Proof.
  intros db db' extra i c HInv' Hch Hpt Hrow.
  split; [exact HInv'|]. exists c.
  split; [apply (row_app i db db' extra c Hch Hrow)|].
  rewrite (rewardsFor_same_ledger _ _ _ Hpt). auto.
Qed.

Lemma generated_kept :
  forall input now ai db i c,
    Inv db -> row i db = Some c ->
    Kept i c db (snd (generateChallenges input now ai db)).
Proof.
  intros input now ai db i c HInv Hrow.
  destruct (ai (requestedCount input)) as [resp | e] eqn:Hai.
  - destruct (generateChallenges_effect input now ai db resp HInv Hai)
      as [db' [Hrun [HInv' [Hch [Hpt _]]]]].
    rewrite Hrun. cbn [snd]. eapply appended_kept; eassumption.
  - unfold generateChallenges. rewrite Hai. cbn.
    split; [exact HInv|]. exists c. auto.
Qed.

Lemma created_kept :
  forall user body now db i c,
    b_id body = None ->
    Inv db -> row i db = Some c ->
    Kept i c db (snd (createChallenge user body now db)).
Proof.
  intros user body now db i c Hnone HInv Hrow.
  destruct (insert_new_challenge
              (fun j => challengeOf j
                          (match b_userId body with Some given => given | None => user end)
                          (b_data body) now false) db
              (fun j => eq_refl) HInv)
    as [db' [Hrun [HInv' [Hch [Hpt _]]]]].
  unfold createChallenge, bodyId. rewrite Hnone, Hrun. cbn [snd].
  eapply appended_kept; eassumption.
Qed.

Lemma pass_kept :
  forall p db i c,
    carriesNoId p = true ->
    Inv db -> row i db = Some c -> Kept i c db (runPass p db).
Proof.
  intros [user now | user now ai | user now | user data now ai
         | input now ai | user body now] db i c Hplain HInv Hrow;
    cbn [runPass].
  - apply batch_kept; assumption.
  - apply incremental_kept; assumption.
  - apply listActive_kept; assumption.
  - apply recorded_kept; assumption.
  - apply generated_kept; assumption.
  - apply created_kept; [|assumption|assumption].
    cbn in Hplain. destruct (b_id body); [discriminate | reflexivity].
Qed.

Lemma passes_kept :
  forall ps db i c,
    forallb carriesNoId ps = true ->
    Inv db -> row i db = Some c -> Kept i c db (runPasses ps db).
Proof.
  induction ps as [|p rest IH]; intros db i c Hplain HInv Hrow.
  - cbn. split; [exact HInv|]. exists c. auto.
  - cbn [runPasses fold_left]. cbn [forallb] in Hplain.
    apply andb_prop in Hplain. destruct Hplain as [Hp Hrest].
    destruct (pass_kept p db i c Hp HInv Hrow) as [HInv1 [c1 [Hrow1 [Hq1 Hs1]]]].
    destruct (IH (runPass p db) i c1 Hrest HInv1 Hrow1)
      as [HInv2 [c2 [Hrow2 [Hq2 Hs2]]]].
    split; [exact HInv2|]. exists c2. split; [exact Hrow2|]. split.
    + unfold runPasses in Hq2. lia.
    + intros Hst. rewrite <- (Hs1 Hst). apply Hs2. rewrite (Hs1 Hst). exact Hst.
Qed.

(** ** The scenario stores satisfy the invariant *)

Lemma unary_inj : forall j k, unary j = unary k -> j = k.
Proof.
  induction j as [|j IH]; intros [|k] H; cbn in H; try discriminate.
  - reflexivity.
  - f_equal. apply IH. inversion H. reflexivity.
Qed.

Lemma uuid_of_inj : forall j k, uuid_of j = uuid_of k -> j = k.
Proof.
  intros j k H. unfold uuid_of in H. cbn in H. inversion H.
  apply unary_inj. assumption.
Qed.

Lemma uuid_of_prefix : forall k, String.prefix "uuid-" (uuid_of k) = true.
Proof. intros k. unfold uuid_of. cbn. destruct (unary k); reflexivity. Qed.

Lemma Inv_dbOf :
  forall cs ts, NoDup (map id cs) -> ownIds cs = true -> Inv (dbOf cs ts).
Proof.
  intros cs ts Hnd Hown. split; [exact Hnd|]. unfold FreshIds.
  change (uuids (dbOf cs ts)) with uuid_of.
  change (challenges (dbOf cs ts)) with cs.
  change (points_transactions (dbOf cs ts)) with (@nil PointsTransaction).
  split; [|split].
  - intros k _ Hin. apply in_map_iff in Hin. destruct Hin as [c [Hc Hin]].
    unfold ownIds in Hown. rewrite forallb_forall in Hown.
    specialize (Hown c Hin). rewrite Hc, uuid_of_prefix in Hown. discriminate.
  - intros k _ [].
  - intros j k _ _. apply uuid_of_inj.
Qed.

Lemma NoDup_single : forall (s : string), NoDup [s].
Proof. intros s. constructor; [intros [] | constructor]. Qed.

(** ** Calls that overlap *)

(** A call given step by step and run with nothing in between is the call. *)
Lemma run_atomic {A : Type} : forall (m : M A) db, run (atomic m) db = m db.
Proof. intros m db. cbn. destruct (m db); reflexivity. Qed.

Lemma run_bind {A B : Type} :
  forall (p : Proc A) (k : A -> Proc B) (m : M A) (k' : A -> M B),
    (forall db, run p db = m db) ->
    (forall a db, run (k a) db = k' a db) ->
    forall db, run (bindP p k) db = bind m k' db.
Proof.
  intros p k m k' Hp Hk db. unfold bind. rewrite <- Hp. clear Hp m.
  revert db. induction p as [[a | e] | write next IH]; intros db; cbn.
  - apply Hk.
  - reflexivity.
  - apply IH.
Qed.

Lemma run_catch {A : Type} :
  forall (p : Proc A) (h : string -> Proc A) (m : M A) (h' : string -> M A),
    (forall db, run p db = m db) ->
    (forall e db, run (h e) db = h' e db) ->
    forall db, run (catchP p h) db = tryCatch m h' db.
Proof.
  intros p h m h' Hp Hh db. unfold tryCatch. rewrite <- Hp. clear Hp m.
  revert db. induction p as [[a | e] | write next IH]; intros db; cbn.
  - reflexivity.
  - apply Hh.
  - apply IH.
Qed.

Lemma run_mapM {A B : Type} :
  forall (body : A -> Proc B) (body' : A -> M B),
    (forall x db, run (body x) db = body' x db) ->
    forall items db, run (mapMP items body) db = mapM items body' db.
Proof.
  intros body body' Hbody. induction items as [|x rest IH]; intros db.
  - reflexivity.
  - cbn [mapMP mapM]. apply run_bind; [apply Hbody|].
    intros y db1. apply run_bind; [apply IH | reflexivity].
Qed.
Lemma run_forEach {A : Type} :
  forall (body : A -> Proc unit) (body' : A -> M unit),
    (forall x db, run (body x) db = body' x db) ->
    forall items db, run (forEachP items body) db = forEach items body' db.
Proof.
  intros body body' Hbody. induction items as [|x rest IH]; intros db.
  - reflexivity.
  - cbn [forEachP forEach]. apply run_bind; [apply Hbody | intros _; apply IH].
Qed.

Ltac run_steps :=
  repeat first
    [ apply run_atomic
    | apply run_bind
    | apply run_catch
    | apply run_mapM
    | apply run_forEach
    | reflexivity
    | match goal with
      | |- forall _, _ => intro
      | |- run (match ?x with _ => _ end) _ = _ => destruct x
      | |- run (if ?b then _ else _) _ = _ => destruct b
      | |- run (let _ := _ in _) _ = _ => cbv zeta
      end ].

Lemma run_addPoints :
  forall user n why meta db,
    run (addPointsP user n why meta) db = addPoints user n why meta db.
Proof.
  intros. unfold addPointsP, addPoints, getUserPointsP, getUserPoints. run_steps.
Qed.

Lemma run_updateChallenge :
  forall i data db, run (updateChallengeP i data) db = updateChallenge i data db.
Proof. intros. unfold updateChallengeP, updateChallenge. run_steps. Qed.

Lemma run_getActiveChallenges :
  forall user now db,
    run (getActiveChallengesP user now) db = getActiveChallenges user now db.
Proof.
  intros. unfold getActiveChallengesP, getActiveChallenges. run_steps.
  unfold expireStepP, expireStep.
  destruct (endDate _ <? now); [|reflexivity].
  apply run_bind; [apply run_updateChallenge | reflexivity].
Qed.

Lemma run_updateChallengeProgressWithTransaction :
  forall challenge transaction now db,
    run (updateChallengeProgressWithTransactionP challenge transaction now) db
    = updateChallengeProgressWithTransaction challenge transaction now db.
Proof.
  intros. unfold updateChallengeProgressWithTransactionP,
    updateChallengeProgressWithTransaction.
  apply run_catch; [|reflexivity]. cbv zeta.
  apply run_bind.
  - destruct (shouldComplete _); [|reflexivity].
    apply run_catch; [|reflexivity].
    apply run_bind; [apply run_addPoints | reflexivity].
  - intros _ db1. destruct (shouldUpdate _ || shouldComplete _); [|reflexivity].
    apply run_bind; [apply run_atomic | reflexivity].
Qed.

Lemma run_generateChallenges :
  forall input now ai db,
    run (generateChallengesP input now ai) db = generateChallenges input now ai db.
Proof.
  intros. unfold generateChallengesP, generateChallenges. cbn [bindP run].
  destruct (ai (requestedCount input)) as [response | e]; [|reflexivity].
  apply run_mapM. intros d db1. apply run_atomic.
Qed.

Lemma run_updateChallengesWithNewData :
  forall user now ai db,
    run (updateChallengesWithNewDataP user now ai) db
    = updateChallengesWithNewData user now ai db.
Proof.
  intros. unfold updateChallengesWithNewDataP, updateChallengesWithNewData.
  apply run_bind; [apply run_getActiveChallenges|].
  intros active db1. apply run_bind; [apply run_atomic|].
  intros [|first others] db2; [reflexivity|]. cbv zeta.
  apply run_bind.
  - apply run_mapM. intros x db3. apply run_updateChallengeProgressWithTransaction.
  - intros _ db3. apply run_bind; [apply run_getActiveChallenges|].
    intros remaining db4. unfold topUpP, topUp.
    destruct (Z.of_nat (List.length remaining) <? 3); [|reflexivity].
    apply run_bind; [apply run_generateChallenges | reflexivity].
Qed.

(** The update that [createTransaction] starts, when nothing runs before it
    ends, is [updateUserChallenges]: a recorded pass is the interleaving in
    which each update ends before the next call. *)
Lemma run_updateUserChallenges :
  forall user now ai db,
    run (updateUserChallengesP user now ai) db = updateUserChallenges user now ai db.
Proof.
  intros. unfold updateUserChallengesP, updateUserChallenges.
  apply run_catch; [|reflexivity].
  apply run_bind; [apply run_updateChallengesWithNewData | reflexivity].
Qed.

(** Stopping a call after some steps and running what is left is running
    the call. *)
Lemma run_steps_run :
  forall (A : Type) k (p : Proc A) db,
    run (fst (steps k p db)) (snd (steps k p db)) = run p db.
Proof.
  intros A. induction k as [|k IH]; intros p db; [reflexivity|].
  destruct p as [r | write next]; [reflexivity|]. cbn [steps run]. apply IH.
Qed.

(** ** Rewards and terminal states across passes *)

(** C2, counterexample: two incomes of 150 are recorded within the same
    millisecond for the ACTIVE savings challenge of target 100. The update started by
    the first transaction has read the active challenges when the second
    transaction is recorded; both updates then hold the challenge as ACTIVE
    and each awards its points: two rewards are issued for the one
    challenge and its owner holds twice its reward. When each update ends
    before the next call, one reward is issued. *)
Lemma overlapping_updates_reward_twice :
  option_map status (row "c-save" overlappingIncomes) = Some COMPLETED /\
  rewardsFor "c-save" overlappingIncomes = 2 /\
  balance "u1" overlappingIncomes = 2 * rewardPoints savings100 /\
  rewardsFor "c-save" successiveIncomes = 1.
Proof. vm_compute. repeat split; reflexivity. Qed.

(** C2, amended: over any sequence of evaluation passes that run one after
    the other (batch checks, incremental updates, listings and recorded
    transactions whose update has ended before the next call, in any order,
    with challenges generated, or created from bodies that carry no id, in
    between), a challenge that starts ACTIVE with no reward issued has
    exactly one reward once it is COMPLETED and none otherwise; a challenge
    that is already COMPLETED keeps its row and gets no further reward. *)
Theorem reward_issued_exactly_once :
  forall ps db i c,
    forallb carriesNoId ps = true ->
    Inv db ->
    row i db = Some c ->
    let db' := runPasses ps db in
    (status c = ACTIVE -> rewardsFor i db = 0 ->
     exists c',
       row i db' = Some c' /\
       (status c' = COMPLETED -> rewardsFor i db' = 1) /\
       (status c' <> COMPLETED -> rewardsFor i db' = 0)) /\
    (status c = COMPLETED ->
     row i db' = Some c /\ rewardsFor i db' = rewardsFor i db).
Proof.
  intros ps db i c Hplain HInv Hrow db'.
  destruct (passes_kept ps db i c Hplain HInv Hrow) as [_ [c' [Hrow' [Hq Hs]]]].
  fold db' in Hrow', Hq. split.
  - intros Hact H0. exists c'. split; [exact Hrow'|].
    rewrite H0 in Hq. unfold completedBit in Hq. rewrite Hact in Hq.
    destruct (status c'); split; intros H; try congruence; lia.
  - intros Hc. assert (E : c' = c) by (apply Hs; rewrite Hc; discriminate).
    subst c'. split; [exact Hrow' | lia].
Qed.

Lemma reward_issued_exactly_once_witness :
  let db' := runPasses threeIncomes (dbOf [savings100] []) in
  exists c',
    row "c-save" db' = Some c' /\
    (status c' = COMPLETED -> rewardsFor "c-save" db' = 1) /\
    (status c' <> COMPLETED -> rewardsFor "c-save" db' = 0).
Proof.
  intros db'.
  refine (proj1 (reward_issued_exactly_once threeIncomes (dbOf [savings100] [])
                   "c-save" savings100 eq_refl _ eq_refl) eq_refl eq_refl).
  apply Inv_dbOf; [apply NoDup_single | reflexivity].
Defined.

(** C4, counterexample: [updateChallenge] on the COMPLETED savings challenge,
    asked for status ACTIVE and a new progress, writes both. *)
Lemma update_reopens_completed :
  let data := mkUpdate (Some ACTIVE) (Some (initialProgress T0)) in
  let db' := snd (updateChallenge "c-save" data (dbOf [wonSavings] [])) in
  status wonSavings = COMPLETED /\
  option_map status (row "c-save" db') = Some ACTIVE /\
  option_map progress (row "c-save" db') <> Some (progress wonSavings).
Proof.
  split; [reflexivity|]. split; [vm_compute; reflexivity|].
  vm_compute. discriminate.
Qed.

(** C4, amended: no sequence of evaluation passes (with challenges
    generated, or created from bodies that carry no id, in between) changes
    the stored row (status, progress or anything else) of a challenge that
    is COMPLETED, FAILED or EXPIRED when the sequence starts;
    [updateChallenge] itself has no guard and writes the status and
    progress it is given. *)
Theorem terminal_rows_survive_passes :
  forall ps db i c,
    forallb carriesNoId ps = true ->
    Inv db ->
    row i db = Some c ->
    (status c <> ACTIVE -> row i (runPasses ps db) = Some c) /\
    (forall data,
       row i (snd (updateChallenge i data db)) = Some (applyUpdate c data)).
Proof.
  intros ps db i c Hplain HInv Hrow. split.
  - intros Hst.
    destruct (passes_kept ps db i c Hplain HInv Hrow) as [_ [c' [Hrow' [_ Hs]]]].
    rewrite Hrow'. f_equal. apply Hs. exact Hst.
  - intros data.
    destruct (updateChallenge_effect i data db c HInv Hrow) as [db1 [Hrun [_ [H _]]]].
    rewrite Hrun. exact H.
Qed.

Lemma terminal_rows_survive_passes_witness :
  row "c-save"
    (runPasses (Batch "u1" (T0 + 4000) :: threeIncomes) (dbOf [wonSavings] []))
  = Some wonSavings.
Proof.
  refine (proj1 (terminal_rows_survive_passes
                   (Batch "u1" (T0 + 4000) :: threeIncomes)
                   (dbOf [wonSavings] []) "c-save" wonSavings eq_refl _ eq_refl) _).
  - apply Inv_dbOf; [apply NoDup_single | reflexivity].
  - cbn. discriminate.
Defined.

(** ** Expiry *)

(** C3, counterexample: the savings challenge with no income, checked at
    the very instant of [endDate], is neither complete nor failed by its
    type's rule, and [checkProgress] stores it FAILED. Scenario C itself, a
    delivery ban with no delivery expense checked one second after
    [endDate], ends COMPLETED with its 100 points awarded. *)
Lemma expiry_is_not_EXPIRED :
  let now := endDate savings100 in
  let p := calculateProgress savings100 [] [] now in
  let later := endDate deliveryBanWeek + 1000 in
  let db' := snd (checkProgress "u1" later (dbOf [deliveryBanWeek] [])) in
  isChallengeCompleted savings100 p now = false /\
  specificFailure savings100 p now = false /\
  option_map status
    (row "c-save" (snd (checkProgress "u1" now (dbOf [savings100] []))))
  = Some FAILED /\
  option_map status (row "c-ban" db') = Some COMPLETED /\
  balance "u1" db' = 100.
Proof. repeat split; vm_compute; reflexivity. Qed.

(** C3, amended: an iteration of [checkProgress] on a stored challenge at or
    after its [endDate] stores it COMPLETED and issues its reward when the
    completion test of its type holds, and stores it FAILED with no reward
    otherwise; the test holds for a CATEGORY_BAN without banned spending
    whose [streakDays] the whole days elapsed have reached. EXPIRED is
    written by [getActiveChallenges] only, to the user's ACTIVE challenges
    whose [endDate] is before [now], and that call leaves the ledger and the
    balances alone. *)
Theorem checkProgress_settles_at_endDate :
  forall txs goals now x db c,
    Inv db ->
    row (id x) db = Some c ->
    endDate x <= now ->
    let p := calculateProgress x txs goals now in
    let db' := snd (checkOne txs goals now x db) in
    (isChallengeCompleted x p now = true ->
     row (id x) db' =
       Some (with_progress (with_status c COMPLETED) (with_completedAt p now))
     /\ rewardsFor (id x) db' = rewardsFor (id x) db + 1) /\
    (isChallengeCompleted x p now = false ->
     row (id x) db' = Some (with_progress (with_status c FAILED) p)
     /\ points_transactions db' = points_transactions db) /\
    (forall n,
       type x = "category_ban" ->
       bannedSpending x txs = [] ->
       ruleOrZero (streakDays (rules x)) = Some n ->
       n <= calculateStreakDays now (startDate x) ->
       isChallengeCompleted x p now = true) /\
    (forall user,
       let db2 := snd (getActiveChallenges user now db) in
       points_transactions db2 = points_transactions db /\
       user_points db2 = user_points db /\
       forall j c0, row j db = Some c0 -> row j db2 = Some (expired user now c0)).
Proof.
  intros txs goals now x db c HInv Hrow Hend p db'.
  destruct (checkOne_effect txs goals now x db HInv) as [_ [_ Hself]].
  specialize (Hself c Hrow). fold p db' in Hself.
  split; [|split; [|split]].
  - intros Hc. rewrite Hc in Hself. exact Hself.
  - intros Hc. rewrite Hc in Hself.
    unfold isChallengeFailed in Hself. fold p in Hself.
    destruct (Z.leb_spec (endDate x) now); [|lia].
    rewrite Hc in Hself. exact Hself.
  - intros n Hty Hb Hn Hdays.
    assert (Hk : ChallengeType_of (type x) = Some CATEGORY_BAN)
      by (rewrite Hty; reflexivity).
    pose proof (streak_of_progress x txs goals now (or_introl Hk)) as Hs.
    fold p in Hs. rewrite Hb in Hs.
    unfold isChallengeCompleted. rewrite Hk, Hs, Hn. cbn [orZero js_ge].
    apply Z.leb_le. exact Hdays.
  - intros user db2.
    destruct (getActiveChallenges_spec user now db HInv)
      as [db1 [Hrun [_ [Hpt [Hup Hrows]]]]].
    subst db2. rewrite Hrun. auto.
Qed.

Lemma checkProgress_settles_at_endDate_witness :
  let now := endDate savings100 in
  let p := calculateProgress savings100 [] [] now in
  row "c-save" (snd (checkOne [] [] now savings100 (dbOf [savings100] [])))
  = Some (with_progress (with_status savings100 FAILED) p).
Proof.
  intros now p.
  refine (proj1 (proj1 (proj2 (checkProgress_settles_at_endDate [] [] now savings100
                                 (dbOf [savings100] []) savings100 _ eq_refl _))
                   eq_refl)).
  - apply Inv_dbOf; [apply NoDup_single | reflexivity].
  - subst now. lia.
Defined.

(** ** Keeping three active challenges *)

(** C9, counterexample: a user with one active challenge and one recorded
    transaction, and a content model whose reply holds no array. The update
    asks for 3 - 1 = 2 challenges and stores the three fallback drafts: the
    user ends with four active challenges. *)
Lemma top_up_overshoots :
  let db := dbOf [savings100] [taxiRide] in
  let db' := snd (updateChallengesWithNewData "u1" (T0 + 2000) noAI db) in
  activeCount "u1" db = 1 /\
  List.length (challenges db') = 4%nat /\
  activeCount "u1" db' = 4.
Proof. repeat split; vm_compute; reflexivity. Qed.

(** C9, amended: when [updateChallengesWithNewData] is left with [n < 3]
    active challenges, it asks the content model for [3 - n] challenges and
    stores one ACTIVE challenge of the user, with the initial progress, for
    every draft parsed from the reply (the three fallback drafts when the
    reply cannot be read), whatever their number; the challenges stored
    before stay, so the active count grows by the number of drafts and is
    never decreased by the top-up. *)
Theorem top_up_stores_every_draft :
  forall user now ai remaining db resp,
    Inv db ->
    Z.of_nat (List.length remaining) < 3 ->
    ai (3 - Z.of_nat (List.length remaining)) = Ok resp ->
    let drafts := parseAIChallenges resp now in
    let created := generatedFrom (uuids db) (issued db) user now drafts in
    let db' := snd (topUp user now ai remaining db) in
    fst (topUp user now ai remaining db) = Ok (remaining ++ created)%list /\
    challenges db' = (challenges db ++ created)%list /\
    List.length created = List.length drafts /\
    Forall (fun c => status c = ACTIVE /\ userId c = user
                     /\ progress c = initialProgress now /\ aiGenerated c = true)
           created /\
    activeCount user db' = activeCount user db + Z.of_nat (List.length drafts).
Proof.
  intros user now ai remaining db resp HInv Hlt Hai drafts created db'.
  set (input := mkInput user (Some (3 - Z.of_nat (List.length remaining)))).
  assert (Hreq : requestedCount input = 3 - Z.of_nat (List.length remaining)).
  { unfold requestedCount, input. cbn [in_count].
    destruct (Z.eqb_spec (3 - Z.of_nat (List.length remaining)) 0); [lia | reflexivity]. }
  assert (Hai' : ai (requestedCount input) = Ok resp) by (rewrite Hreq; exact Hai).
  destruct (generateChallenges_effect input now ai db resp HInv Hai')
    as [db1 [Hrun [_ [Hch _]]]].
  cbn [in_userId input] in Hrun, Hch. fold drafts created in Hrun, Hch.
  assert (Htop : topUp user now ai remaining db = (Ok (remaining ++ created)%list, db1)).
  { unfold topUp. destruct (Z.ltb_spec (Z.of_nat (List.length remaining)) 3); [|lia].
    fold input. unfold bind. rewrite Hrun. reflexivity. }
  destruct (generatedFrom_props (uuids db) user now drafts (issued db)) as [Hlen Hall].
  fold created in Hlen, Hall.
  subst db'. rewrite Htop. cbn [fst snd].
  split; [reflexivity|]. split; [exact Hch|]. split; [exact Hlen|].
  split; [exact Hall|].
  rewrite <- Hlen. apply (activeCount_app user db db1 created Hch).
  eapply Forall_impl; [|exact Hall]. cbn. tauto.
Qed.

Lemma top_up_stores_every_draft_witness :
  let db := dbOf [savings100] [taxiRide] in
  activeCount "u1" (snd (topUp "u1" (T0 + 2000) noAI [savings100] db))
  = activeCount "u1" db + 3.
Proof.
  intros db.
  refine (proj2 (proj2 (proj2 (proj2
            (top_up_stores_every_draft "u1" (T0 + 2000) noAI [savings100] db
               NoJsonArray _ _ eq_refl))))).
  - apply Inv_dbOf; [apply NoDup_single | reflexivity].
  - cbn. lia.
Defined.

(** ** The incremental updater against the batch evaluator *)

Lemma fold_left_sum :
  forall ts a, fold_left (fun sum t => sum + amount t) ts a
               = a + fold_left (fun sum t => sum + amount t) ts 0.
Proof.
  induction ts as [|t rest IH]; intros a; cbn; [lia|].
  rewrite (IH (a + amount t)), (IH (amount t)). lia.
Qed.

Lemma sumAmounts_cons :
  forall t ts, sumAmounts (t :: ts) = amount t + sumAmounts ts.
Proof.
  intros t ts. unfold sumAmounts. cbn. rewrite fold_left_sum. reflexivity.
Qed.

Lemma incomeSum_cons :
  forall t ts,
    incomeSum (t :: ts) = (if isIncome t then amount t else 0) + incomeSum ts.
Proof.
  intros t ts. unfold incomeSum. cbn [filter].
  destruct (isIncome t); [apply sumAmounts_cons | lia].
Qed.

Lemma incomeSum_nonneg :
  forall ts, Forall (fun t => 0 <= amount t) ts -> 0 <= incomeSum ts.
Proof.
  induction 1 as [|t rest Ht Hrest IH].
  - unfold incomeSum, sumAmounts. cbn. lia.
  - rewrite incomeSum_cons. destruct (isIncome t); lia.
Qed.

Lemma applyTransactions_inactive :
  forall now history c,
    isActive c = false -> applyTransactions now c history = c.
Proof.
  intros now. induction history as [|t rest IH]; intros c H; [reflexivity|].
  cbn [applyTransactions fold_left]. unfold applyTransaction at 2. rewrite H.
  apply IH. exact H.
Qed.

(** The copy after one transaction is the row the store gets. *)
Lemma applyTransaction_is_the_pass_step :
  forall now c t db,
    Inv db -> row (id c) db = Some c -> status c = ACTIVE ->
    row (id c) (snd (updateChallengeProgressWithTransaction c t now db))
    = Some (applyTransaction now c t).
Proof.
  intros now c t db HInv Hrow Hact.
  destruct (incremental_effect c t now db HInv) as [_ [_ Hself]].
  specialize (Hself c Hrow). unfold applyTransaction, isActive.
  rewrite Hact. cbn [ChallengeStatus_eqb].
  assert (Hshape : forall s p,
             with_progress (with_status c s) p
             = with_progress (with_status (updated (progressWithTransaction c t now)) s) p).
  { intros s p. unfold progressWithTransaction, unchanged.
    destruct (ChallengeType_of (type c)) as [[]|]; cbn; case_ifs; reflexivity. }
  destruct (shouldComplete (progressWithTransaction c t now)).
  - destruct Hself as [Hr _]. rewrite Hr, Hshape. reflexivity.
  - destruct Hself as [Hr _]. rewrite Hr.
    destruct (shouldUpdate (progressWithTransaction c t now)); [|reflexivity].
    rewrite Hshape. f_equal.
    destruct (updated (progressWithTransaction c t now)); reflexivity.
Qed.

(** The batch result is the row one iteration of [checkProgress] stores. *)
Lemma evaluateBatch_is_checkOne :
  forall now c txs goals db,
    Inv db -> row (id c) db = Some c ->
    row (id c) (snd (checkOne txs goals now c db))
    = Some (evaluateBatch now c txs goals).
Proof.
  intros now c txs goals db HInv Hrow.
  destruct (checkOne_effect txs goals now c db HInv) as [_ [_ Hself]].
  specialize (Hself c Hrow). unfold evaluateBatch.
  destruct (isChallengeCompleted c (calculateProgress c txs goals now) now).
  - apply Hself.
  - destruct Hself as [Hr _]. rewrite Hr.
    destruct (isChallengeFailed c (calculateProgress c txs goals now) now);
      reflexivity.
Qed.

Section Savings.
Variables (now n : Z).

Lemma savings_incremental :
  forall history c a,
    type c = "savings" ->
    targetAmount (rules c) = Num n ->
    status c = ACTIVE ->
    currentAmount (progress c) = Some a ->
    a < n ->
    Forall (fun t => 0 <= amount t) history ->
    let inc := applyTransactions now c history in
    (n <= a + incomeSum history -> status inc = COMPLETED) /\
    (a + incomeSum history < n ->
     status inc = ACTIVE /\ currentAmount (progress inc) = Some (a + incomeSum history)).
Proof.
  induction history as [|t rest IH]; intros c a Hty Htg Hact Hcur Hlt Hall inc.
  - subst inc. cbn. unfold incomeSum, sumAmounts. cbn. split; intros H.
    + lia.
    + rewrite Z.add_0_r. auto.
  - inversion Hall as [|? ? Ht Hrest]; subst.
    subst inc. cbn [applyTransactions fold_left]. rewrite incomeSum_cons.
    fold (applyTransactions now (applyTransaction now c t) rest).
    assert (Hstep : applyTransaction now c t =
                    if isIncome t
                    then if n <=? a + amount t
                         then with_status
                                (with_progress c
                                   (with_lastCheckedAt
                                      (with_currentAmount (progress c) (a + amount t)) now))
                                COMPLETED
                         else with_progress c
                                (with_lastCheckedAt
                                   (with_currentAmount (progress c) (a + amount t)) now)
                    else c).
    { unfold applyTransaction, isActive. rewrite Hact. cbn [ChallengeStatus_eqb].
      unfold progressWithTransaction. rewrite Hty. cbn [ChallengeType_of String.eqb Ascii.eqb Bool.eqb].
      destruct (isIncome t); [|reflexivity].
      rewrite Htg, Hcur. cbn [orZero ruleOrZero js_ge shouldComplete shouldUpdate updated].
      rewrite (Z.abs_eq (amount t) Ht).
      destruct (n <=? a + amount t); reflexivity. }
    rewrite Hstep. destruct (isIncome t).
    + destruct (Z.leb_spec n (a + amount t)) as [Hge | Hlow].
      * rewrite applyTransactions_inactive by reflexivity.
        pose proof (incomeSum_nonneg rest Hrest). split; intros H0.
        -- reflexivity.
        -- lia.
      * destruct (IH (with_progress c
                        (with_lastCheckedAt
                           (with_currentAmount (progress c) (a + amount t)) now))
                    (a + amount t) Hty Htg Hact eq_refl Hlow Hrest) as [H1 H2].
        split; intros H0.
        -- apply H1. lia.
        -- rewrite Z.add_assoc. apply H2. lia.
    + destruct (IH c a Hty Htg Hact Hcur Hlt Hrest) as [H1 H2].
      split; intros H0; [apply H1 | apply H2]; lia.
Qed.

Lemma savings_batch :
  forall history goals c,
    type c = "savings" ->
    targetAmount (rules c) = Num n ->
    status c = ACTIVE ->
    now < endDate c ->
    Forall (fun t => startDate c <= createdAt t) history ->
    let bat := evaluateBatch now c history goals in
    (n <= incomeSum history -> status bat = COMPLETED) /\
    (incomeSum history < n ->
     status bat = ACTIVE /\ currentAmount (progress bat) = Some (incomeSum history)).
Proof.
  intros history goals c Hty Htg Hact Hend Hall bat.
  assert (Hrel : relevantTransactions c history = history).
  { unfold relevantTransactions. apply filter_all.
    rewrite Forall_forall in Hall. intros t Ht. apply Z.leb_le. apply Hall. exact Ht. }
  assert (Hk : ChallengeType_of (type c) = Some SAVINGS) by (rewrite Hty; reflexivity).
  subst bat. unfold evaluateBatch, isChallengeFailed, isChallengeCompleted,
    specificFailure, calculateProgress.
  rewrite Hk, Hrel, Htg. fold (incomeSum history).
  cbn [with_currentAmount currentAmount orZero ruleOrZero js_ge].
  destruct (Z.leb_spec n (incomeSum history)) as [Hge | Hlow].
  - split; intros Hn; [reflexivity | lia].
  - destruct (Z.leb_spec (endDate c) now) as [Hpast | Hbefore]; [lia|].
    split; intros Hn; [lia|]. cbn. auto.
Qed.

End Savings.

(** C1, counterexample: three incomes of 60, 70 and 50 recorded one after the
    other against a savings target of 100. The incremental path completes
    the challenge at the second income and keeps 130; one batch check over
    the same three transactions completes it with 180. *)
Lemma incremental_and_batch_diverge :
  let inc := runPasses threeIncomes (dbOf [savings100] []) in
  let bat := snd (checkProgress "u1" (T0 + 3000)
                    (dbOf [savings100] (transactions inc))) in
  map amount (transactions inc) = [60; 70; 50] /\
  option_map (fun c => (status c, currentAmount (progress c))) (row "c-save" inc)
  = Some (COMPLETED, Some 130) /\
  option_map (fun c => (status c, currentAmount (progress c))) (row "c-save" bat)
  = Some (COMPLETED, Some 180).
Proof. repeat split; vm_compute; reflexivity. Qed.

(** C1, amended: for a SAVINGS challenge with a positive target that starts
    ACTIVE with [currentAmount = 0], evaluated before [endDate] over a
    history whose transactions are made at or after [startDate] with
    non-negative amounts, the incremental update applied once per
    transaction, in order, ends with the status one batch evaluation of the
    full history gives, and with the same [currentAmount] whenever that
    status is ACTIVE. *)
Theorem savings_incremental_agrees_with_batch :
  forall c history goals now n,
    type c = "savings" ->
    targetAmount (rules c) = Num n ->
    0 < n ->
    status c = ACTIVE ->
    currentAmount (progress c) = Some 0 ->
    now < endDate c ->
    Forall (fun t => startDate c <= createdAt t /\ 0 <= amount t) history ->
    let inc := applyTransactions now c history in
    let bat := evaluateBatch now c history goals in
    status inc = status bat /\
    (status bat = ACTIVE ->
     currentAmount (progress inc) = currentAmount (progress bat)).
Proof.
  intros c history goals now n Hty Htg Hpos Hact Hcur Hend Hall inc bat.
  assert (H1 : Forall (fun t => 0 <= amount t) history)
    by (eapply Forall_impl; [|exact Hall]; cbn; tauto).
  assert (H2 : Forall (fun t => startDate c <= createdAt t) history)
    by (eapply Forall_impl; [|exact Hall]; cbn; tauto).
  destruct (savings_incremental now n history c 0 Hty Htg Hact Hcur Hpos H1)
    as [Ic Ia].
  destruct (savings_batch now n history goals c Hty Htg Hact Hend H2) as [Bc Ba].
  fold inc in Ic, Ia. fold bat in Bc, Ba. rewrite Z.add_0_l in Ic, Ia.
  destruct (Z.le_gt_cases n (incomeSum history)) as [Hge | Hlow].
  - rewrite (Ic Hge), (Bc Hge). split; [reflexivity | discriminate].
  - destruct (Ia Hlow) as [Is Iv]. destruct (Ba Hlow) as [Bs Bv].
    rewrite Is, Bs, Iv, Bv. auto.
Qed.

Lemma savings_incremental_agrees_with_batch_witness :
  let history := [ mkTransaction "t1" "u1" 60 "salario" "Salario" income (T0 + 1000);
                   mkTransaction "t2" "u1" 30 "salario" "Salario" income (T0 + 2000) ] in
  status (applyTransactions (T0 + 3000) savings100 history)
  = status (evaluateBatch (T0 + 3000) savings100 history []).
Proof.
  intros history.
  refine (proj1 (savings_incremental_agrees_with_batch savings100 history []
                   (T0 + 3000) 100 eq_refl eq_refl _ eq_refl eq_refl _ _)).
  - lia.
  - vm_compute. reflexivity.
  - repeat constructor; cbn; vm_compute; discriminate.
Defined.

(** * More of the engine *)

(** ** The batch evaluator on any history *)

Lemma relevant_app :
  forall c a b,
    relevantTransactions c (a ++ b)
    = (relevantTransactions c a ++ relevantTransactions c b)%list.
Proof. intros c a b. unfold relevantTransactions. apply filter_app. Qed.

Lemma relevant_old :
  forall c old,
    Forall (fun t => createdAt t < startDate c) old ->
    relevantTransactions c old = [].
Proof.
  intros c old H. unfold relevantTransactions.
  induction H as [|t rest Ht Hrest IH]; [reflexivity|].
  cbn [filter]. destruct (Z.leb_spec (startDate c) (createdAt t)); [lia | exact IH].
Qed.

(** What [calculateProgress] reads of the transactions. *)
Lemma calculateProgress_relevant :
  forall c txs txs' goals now,
    relevantTransactions c txs = relevantTransactions c txs' ->
    calculateProgress c txs goals now = calculateProgress c txs' goals now.
Proof.
  intros c txs txs' goals now H. unfold calculateProgress. rewrite H. reflexivity.
Qed.

(** X1: transactions created before [startDate] never count, wherever they
    stand in the history: the progress computed with them is the progress
    computed without them, for every type of challenge. *)
Theorem transactions_before_start_do_not_count :
  forall c before old after goals now,
    Forall (fun t => createdAt t < startDate c) old ->
    calculateProgress c (before ++ old ++ after) goals now
    = calculateProgress c (before ++ after) goals now.
Proof.
  intros c before old after goals now H.
  apply calculateProgress_relevant.
  rewrite !relevant_app, (relevant_old c old H). reflexivity.
Qed.

Lemma transactions_before_start_do_not_count_witness :
  calculateProgress savings100
    ([mkTransaction "t0" "u1" 900 "old" "Salario" income (T0 - 1)] ++ [])
    [] (T0 + 1000)
  = calculateProgress savings100 [] [] (T0 + 1000).
Proof.
  refine (transactions_before_start_do_not_count savings100 []
            [mkTransaction "t0" "u1" 900 "old" "Salario" income (T0 - 1)]
            [] [] (T0 + 1000) _).
  repeat constructor.
Defined.

(** X3: a challenge whose type is none of the six enum values (the parser
    lets such drafts through) can never be completed: the batch evaluation
    only refreshes [lastCheckedAt], the verdict is CONTINUE before [endDate]
    and FAIL from [endDate] on, and the incremental updater leaves the
    challenge untouched whatever the transaction. *)
Theorem unlisted_type_never_completes :
  forall c txs goals t now,
    ChallengeType_of (type c) = None ->
    calculateProgress c txs goals now = with_lastCheckedAt (progress c) now /\
    verdict c (calculateProgress c txs goals now) now
    = (if endDate c <=? now then FAIL else CONTINUE) /\
    progressWithTransaction c t now = unchanged c.
Proof.
  intros c txs goals t now H.
  unfold verdict, isChallengeFailed, isChallengeCompleted, specificFailure,
    calculateProgress, progressWithTransaction.
  rewrite H. cbn. destruct (endDate c <=? now); auto.
Qed.

Lemma unlisted_type_never_completes_witness :
  let c := challengeOf "g1" "u1" (normalized bogusElement) T0 true in
  verdict c (calculateProgress c [] [] (T0 + 1000)) (T0 + 1000) = CONTINUE.
Proof.
  intros c.
  exact (proj1 (proj2 (unlisted_type_never_completes c [] [] taxiRide (T0 + 1000)
                         eq_refl))).
Defined.

(** X4: a CATEGORY_BAN challenge with [streakDays >= 1] that is checked after
    [startDate] but before one whole day has passed gets the verdict FAIL,
    whatever the transactions, also when there is none: a streak of 0 days
    is read as spending in the banned category. *)
Theorem category_ban_fails_within_first_day :
  forall c txs goals now n,
    type c = "category_ban" ->
    streakDays (rules c) = Num n ->
    1 <= n ->
    startDate c < now < startDate c + DAY_MS ->
    verdict c (calculateProgress c txs goals now) now = FAIL.
Proof.
  intros c txs goals now n Ht Hn Hn1 Hnow.
  assert (Hty : ChallengeType_of (type c) = Some CATEGORY_BAN)
    by (rewrite Ht; reflexivity).
  assert (Hs := streak_of_progress c txs goals now (or_introl Hty)).
  assert (Hd : calculateStreakDays now (startDate c) = 0).
  { unfold calculateStreakDays. apply Z.div_small.
    unfold DAY_MS in *. lia. }
  assert (Hz : currentStreak (calculateProgress c txs goals now) = Some 0).
  { rewrite Hs. destruct (bannedSpending c txs); [rewrite Hd|]; reflexivity. }
  unfold verdict, isChallengeFailed, isChallengeCompleted, specificFailure.
  rewrite Hty, Hz, Hn. cbn [ruleOrZero js_ge orZero].
  destruct (Z.leb_spec n 0); [lia|]. cbn [negb].
  destruct (Z.leb_spec (endDate c) now); [reflexivity|].
  destruct (Z.ltb_spec (startDate c) now); [reflexivity | lia].
Qed.

Lemma category_ban_fails_within_first_day_witness :
  verdict deliveryBan (calculateProgress deliveryBan [] [] (T0 + 3600000))
    (T0 + 3600000) = FAIL.
Proof.
  apply (category_ban_fails_within_first_day deliveryBan [] [] (T0 + 3600000) 7
           eq_refl eq_refl).
  - lia.
  - split; vm_compute; reflexivity.
Defined.

(** X5: [calculateStreakDays] counts the whole days between [startDate] and
    [now] in either direction ([Math.abs]), so a STREAK or CATEGORY_BAN
    challenge without banned spending whose [startDate] lies [streakDays]
    days or more in the future is complete at once. *)
Theorem streak_counts_days_before_start :
  forall c txs goals now n,
    type c = "streak" \/ type c = "category_ban" ->
    streakDays (rules c) = Num n ->
    bannedSpending c txs = [] ->
    now + n * DAY_MS <= startDate c ->
    calculateStreakDays now (startDate c) = calculateStreakDays (startDate c) now /\
    verdict c (calculateProgress c txs goals now) now = COMPLETE.
Proof.
  intros c txs goals now n Ht Hn Hb Hfar.
  assert (Hty : ChallengeType_of (type c) = Some CATEGORY_BAN
                \/ ChallengeType_of (type c) = Some STREAK)
    by (destruct Ht as [-> | ->]; [right | left]; reflexivity).
  assert (Hs := streak_of_progress c txs goals now Hty). rewrite Hb in Hs.
  split.
  - unfold calculateStreakDays. f_equal.
    replace (startDate c - now) with (- (now - startDate c)) by lia.
    symmetry. apply Z.abs_opp.
  - assert (Hd : n <= calculateStreakDays now (startDate c)).
    { unfold calculateStreakDays. apply Z.div_le_lower_bound.
      - unfold DAY_MS. lia.
      - rewrite Z.mul_comm. lia. }
    unfold verdict, isChallengeCompleted.
    destruct Hty as [Hty | Hty]; rewrite Hty, Hs, Hn; cbn [ruleOrZero js_ge orZero];
      destruct (Z.leb_spec n (calculateStreakDays now (startDate c)));
      try reflexivity; lia.
Qed.

Lemma streak_counts_days_before_start_witness :
  verdict deliveryStreak
    (calculateProgress deliveryStreak [] [] (T0 - 7 * DAY_MS)) (T0 - 7 * DAY_MS)
  = COMPLETE.
Proof.
  refine (proj2 (streak_counts_days_before_start deliveryStreak [] []
                   (T0 - 7 * DAY_MS) 7 (or_introl eq_refl) eq_refl eq_refl _)).
  vm_compute. discriminate.
Defined.

(** ** The incremental updater, case by case *)

(** X6: what the incremental updater never does. It completes SAVINGS and
    GOAL_CONTRIBUTION challenges only, and only on an income; it fails
    SPENDING_LIMIT, CATEGORY_BAN and STREAK challenges only, and only on an
    expense; an INCOME_PERCENTAGE challenge is never touched; and it never
    sets a status other than the one the copy has, FAILED or COMPLETED. *)
Theorem incremental_updater_outcomes :
  forall c t now,
    let o := progressWithTransaction c t now in
    (shouldComplete o = true ->
     (type c = "savings" \/ type c = "goal_contribution") /\ isIncome t = true) /\
    (status (updated o) <> status c ->
     status (updated o) = FAILED /\ isExpense t = true /\
     (type c = "spending_limit" \/ type c = "category_ban" \/ type c = "streak")) /\
    (type c = "income_percentage" -> o = unchanged c).
Proof.
  intros c t now o. subst o. unfold progressWithTransaction, unchanged.
  assert (Hname : forall k, ChallengeType_of (type c) = Some k ->
                            type c = ChallengeType_value k).
  { intros k Hk. unfold ChallengeType_of in Hk.
    repeat match type of Hk with
           | (if String.eqb ?a ?b then _ else _) = _ =>
               destruct (String.eqb_spec a b) as [E | _];
               [inversion Hk; subst; exact E|]
           end.
    discriminate. }
  destruct (ChallengeType_of (type c)) as [k|] eqn:Hk.
  - pose proof (Hname k eq_refl) as Hn.
    destruct k; cbn in Hn; split; [|split| |split| |split| |split| |split| |split];
      try (intros H; rewrite H in Hk; discriminate Hk);
      try (intros _; reflexivity);
      destruct (isIncome t) eqn:Hi, (isExpense t) eqn:He; cbn;
      try (unfold isIncome, isExpense in Hi, He; destruct (tx_type t); discriminate);
      case_ifs; intros H; try discriminate; try congruence; auto 6.
  - split; [|split]; cbn; intros H; try discriminate; try congruence; reflexivity.
Qed.

(** ** The latest transaction *)

Lemma hd_insertDesc :
  forall d t sorted,
    hd d (insertDesc t sorted) =
    match sorted with
    | [] => t
    | u :: _ => if createdAt u <=? createdAt t then t else u
    end.
Proof.
  intros d t [|u rest]; [reflexivity|]. cbn.
  destruct (createdAt u <=? createdAt t); reflexivity.
Qed.

(** X7: the transaction [updateChallengesWithNewData] analyses, the head of
    the descending sort, is the first stored transaction whose [createdAt]
    is the greatest: every transaction stored before it is strictly older
    and none stored after it is newer. Among transactions of the same
    instant the one stored first is taken. *)
Theorem latest_transaction_is_first_newest :
  forall first rest,
    let latest := hd first (sortDesc (first :: rest)) in
    exists before after,
      first :: rest = (before ++ latest :: after)%list /\
      Forall (fun t => createdAt t < createdAt latest) before /\
      Forall (fun t => createdAt t <= createdAt latest) after.
Proof.
  intros first rest. revert first.
  induction rest as [|second rest IH]; intros first latest.
  - exists [], []. subst latest. cbn. auto.
  - destruct (IH second) as [before [after [Hsplit [Hb Ha]]]].
    remember (hd second (sortDesc (second :: rest))) as u eqn:Eu.
    assert (Hhd : latest = if createdAt u <=? createdAt first then first else u).
    { subst latest. change (sortDesc (first :: second :: rest))
        with (insertDesc first (sortDesc (second :: rest))).
      rewrite hd_insertDesc.
      change (sortDesc (second :: rest))
        with (insertDesc second (sortDesc rest)) in *.
      destruct (sortDesc rest) as [|w ws]; cbn in Eu |- *.
      - subst u. reflexivity.
      - destruct (createdAt w <=? createdAt second); cbn in Eu |- *;
          subst u; reflexivity. }
    rewrite Hhd.
    destruct (Z.leb_spec (createdAt u) (createdAt first)) as [Hle | Hlt].
    + exists [], (second :: rest). split; [reflexivity|]. split; [constructor|].
      rewrite Hsplit. apply Forall_app. split.
      * eapply Forall_impl; [|exact Hb]. cbn. intros t Ht. lia.
      * constructor; [exact Hle|].
        eapply Forall_impl; [|exact Ha]. cbn. intros t Ht. lia.
    + exists (first :: before), after. split; [rewrite Hsplit; reflexivity|].
      split; [constructor; assumption | exact Ha].
Qed.

(** ** What no call of the engine does *)

Section KeepsRules.
Variable R : Db -> Db -> Prop.
Hypothesis R_refl : forall db, R db db.
Hypothesis R_trans : forall a b c, R a b -> R b c -> R a c.

Lemma keeps_ret : forall (A : Type) (a : A), Keeps R (ret a).
Proof. intros A a db. apply R_refl. Qed.

Lemma keeps_throw : forall (A : Type) e, Keeps R (@throw A e).
Proof. intros A e db. apply R_refl. Qed.

Lemma keeps_bind :
  forall (A B : Type) (m : M A) (k : A -> M B),
    Keeps R m -> (forall a, Keeps R (k a)) -> Keeps R (bind m k).
Proof.
  intros A B m k Hm Hk db. unfold bind. specialize (Hm db).
  destruct (m db) as [[a | e] db1]; cbn [snd] in *; [|exact Hm].
  eapply R_trans; [exact Hm | apply Hk].
Qed.

Lemma keeps_tryCatch :
  forall (A : Type) (m : M A) (h : string -> M A),
    Keeps R m -> (forall e, Keeps R (h e)) -> Keeps R (tryCatch m h).
Proof.
  intros A m h Hm Hh db. unfold tryCatch. specialize (Hm db).
  destruct (m db) as [[a | e] db1]; cbn [snd] in *; [exact Hm|].
  eapply R_trans; [exact Hm | apply Hh].
Qed.

Lemma keeps_forEach :
  forall (A : Type) (items : list A) (body : A -> M unit),
    (forall x, Keeps R (body x)) -> Keeps R (forEach items body).
Proof.
  intros A items body Hb. induction items as [|x rest IH]; cbn [forEach].
  - apply keeps_ret.
  - apply keeps_bind; [apply Hb | intros _; exact IH].
Qed.

Lemma keeps_mapM :
  forall (A B : Type) (items : list A) (body : A -> M B),
    (forall x, Keeps R (body x)) -> Keeps R (mapM items body).
Proof.
  intros A B items body Hb. induction items as [|x rest IH]; cbn [mapM].
  - apply keeps_ret.
  - apply keeps_bind; [apply Hb | intros y].
    apply keeps_bind; [exact IH | intros ys; apply keeps_ret].
Qed.

End KeepsRules.

Lemma IdsGrow_refl : forall db, IdsGrow db db.
Proof. intros db. exists []. rewrite app_nil_r. reflexivity. Qed.

Lemma IdsGrow_trans :
  forall a b c, IdsGrow a b -> IdsGrow b c -> IdsGrow a c.
Proof.
  intros a b c [e1 H1] [e2 H2]. exists (e1 ++ e2)%list.
  rewrite H2, H1, app_assoc. reflexivity.
Qed.

Lemma SameInputs_refl : forall db, SameInputs db db.
Proof. intros db. split; reflexivity. Qed.

Lemma SameInputs_trans :
  forall a b c, SameInputs a b -> SameInputs b c -> SameInputs a c.
Proof. intros a b c [H1 H2] [H3 H4]. split; congruence. Qed.

Lemma Quiet_refl : forall db, Quiet db db.
Proof. intros db. split; [apply IdsGrow_refl | apply SameInputs_refl]. Qed.

Lemma Quiet_trans : forall a b c, Quiet a b -> Quiet b c -> Quiet a c.
Proof.
  intros a b c [H1 H2] [H3 H4].
  split; [eapply IdsGrow_trans | eapply SameInputs_trans]; eassumption.
Qed.

Lemma Quiet_same_challenges :
  forall db db',
    challenges db' = challenges db ->
    transactions db' = transactions db ->
    savings_goals db' = savings_goals db ->
    Quiet db db'.
Proof.
  intros db db' Hc Ht Hg. split; [|split; assumption].
  exists []. rewrite Hc, app_nil_r. reflexivity.
Qed.

Lemma Quiet_set_challenge :
  forall db c, Quiet db (set_challenges db (tbl_set id c (challenges db))).
Proof.
  intros db c. split; [|split; reflexivity].
  unfold IdsGrow. cbn [challenges set_challenges].
  destruct (tbl_set_keys id c (challenges db)) as [[_ E] | [_ E]].
  - exists []. rewrite E, app_nil_r. reflexivity.
  - exists [id c]. rewrite E, map_app. reflexivity.
Qed.

Create HintDb quiet.

Lemma quiet_uuidv4 : Keeps Quiet uuidv4.
Proof. intros db. apply Quiet_same_challenges; reflexivity. Qed.

Lemma quiet_find_challenges : forall q, Keeps Quiet (find_challenges q).
Proof. intros q db. apply Quiet_refl. Qed.

Lemma quiet_findOne_challenge : forall i, Keeps Quiet (findOne_challenge i).
Proof. intros i db. apply Quiet_refl. Qed.

Lemma quiet_insert_challenge : forall c, Keeps Quiet (insert_challenge c).
Proof. intros c db. apply Quiet_set_challenge. Qed.

Lemma quiet_update_challenge :
  forall i merge, Keeps Quiet (update_challenge i merge).
Proof.
  intros i merge db. unfold update_challenge.
  destruct (tbl_get id i (challenges db)); [apply Quiet_set_challenge | apply Quiet_refl].
Qed.

Lemma quiet_find_transactions : forall u, Keeps Quiet (find_transactions u).
Proof. intros u db. apply Quiet_refl. Qed.

Lemma quiet_find_savings_goals : forall u, Keeps Quiet (find_savings_goals u).
Proof. intros u db. apply Quiet_refl. Qed.

Lemma quiet_find_user_points : forall u, Keeps Quiet (find_user_points u).
Proof. intros u db. apply Quiet_refl. Qed.

Lemma quiet_insert_user_points : forall r, Keeps Quiet (insert_user_points r).
Proof. intros r db. apply Quiet_same_challenges; reflexivity. Qed.

Lemma quiet_update_user_points :
  forall i merge, Keeps Quiet (update_user_points i merge).
Proof.
  intros i merge db. unfold update_user_points.
  destruct (tbl_get up_id i (user_points db));
    [apply Quiet_same_challenges; reflexivity | apply Quiet_refl].
Qed.

Lemma quiet_insert_points_transaction :
  forall r, Keeps Quiet (insert_points_transaction r).
Proof. intros r db. apply Quiet_same_challenges; reflexivity. Qed.

#[local] Hint Resolve quiet_uuidv4 quiet_find_challenges quiet_findOne_challenge
  quiet_insert_challenge quiet_update_challenge quiet_find_transactions
  quiet_find_savings_goals quiet_find_user_points quiet_insert_user_points
  quiet_update_user_points quiet_insert_points_transaction : quiet.

(** Breaks a call into its steps. *)
Ltac quiet_steps :=
  repeat first
    [ solve [auto with quiet]
    | apply (keeps_ret Quiet Quiet_refl)
    | apply (keeps_throw Quiet Quiet_refl)
    | apply (keeps_bind Quiet Quiet_trans)
    | apply (keeps_tryCatch Quiet Quiet_trans)
    | apply (keeps_forEach Quiet Quiet_refl Quiet_trans)
    | apply (keeps_mapM Quiet Quiet_refl Quiet_trans)
    | match goal with
      | |- forall _, Keeps _ _ => intro
      | |- Keeps _ (match ?x with _ => _ end) => destruct x
      | |- Keeps _ (let _ := _ in _) => cbv zeta
      end ].

Lemma quiet_getUserPoints : forall u, Keeps Quiet (getUserPoints u).
Proof. intros u. unfold getUserPoints, createUserPoints. quiet_steps. Qed.
#[local] Hint Resolve quiet_getUserPoints : quiet.

Lemma quiet_addPoints :
  forall u n why meta, Keeps Quiet (addPoints u n why meta).
Proof.
  intros u n why meta. unfold addPoints, createPointsTransaction. quiet_steps.
Qed.
#[local] Hint Resolve quiet_addPoints : quiet.

Lemma quiet_subtractPoints :
  forall u n why meta, Keeps Quiet (subtractPoints u n why meta).
Proof.
  intros u n why meta. unfold subtractPoints, createPointsTransaction.
  quiet_steps.
Qed.
#[local] Hint Resolve quiet_subtractPoints : quiet.

Lemma quiet_updateChallenge :
  forall i data, Keeps Quiet (updateChallenge i data).
Proof.
  intros i data. unfold updateChallenge, getChallengeById. quiet_steps.
Qed.
#[local] Hint Resolve quiet_updateChallenge : quiet.

Lemma quiet_getActiveChallenges :
  forall u now, Keeps Quiet (getActiveChallenges u now).
Proof.
  intros u now. unfold getActiveChallenges, expireStep. quiet_steps.
Qed.
#[local] Hint Resolve quiet_getActiveChallenges : quiet.

Lemma quiet_checkOne :
  forall txs goals now x, Keeps Quiet (checkOne txs goals now x).
Proof.
  intros txs goals now x.
  unfold checkOne, completeChallenge, failChallenge, getChallengeById.
  quiet_steps.
Qed.
#[local] Hint Resolve quiet_checkOne : quiet.

Lemma quiet_checkProgress : forall u now, Keeps Quiet (checkProgress u now).
Proof. intros u now. unfold checkProgress. quiet_steps. Qed.
#[local] Hint Resolve quiet_checkProgress : quiet.

Lemma quiet_incremental_step :
  forall x tx now, Keeps Quiet (updateChallengeProgressWithTransaction x tx now).
Proof.
  intros x tx now. unfold updateChallengeProgressWithTransaction. quiet_steps.
Qed.
#[local] Hint Resolve quiet_incremental_step : quiet.

Lemma quiet_generateChallenges :
  forall input now ai, Keeps Quiet (generateChallenges input now ai).
Proof. intros input now ai. unfold generateChallenges. quiet_steps. Qed.
#[local] Hint Resolve quiet_generateChallenges : quiet.

Lemma quiet_createChallenge :
  forall user data now, Keeps Quiet (createChallenge user data now).
Proof. intros user data now. unfold createChallenge. quiet_steps. Qed.
#[local] Hint Resolve quiet_createChallenge : quiet.

Lemma quiet_updateChallengesWithNewData :
  forall u now ai, Keeps Quiet (updateChallengesWithNewData u now ai).
Proof.
  intros u now ai. unfold updateChallengesWithNewData, topUp. quiet_steps.
Qed.
#[local] Hint Resolve quiet_updateChallengesWithNewData : quiet.

(** X8: the challenge and rewards services only read the transactions and
    the savings goals: the batch check, the incremental update, the listing,
    the generation and creation of challenges, [updateChallenge],
    [addPoints] and [subtractPoints] leave both collections as they are,
    whatever they return. *)
Theorem engine_never_writes_its_inputs :
  forall user now ai input data i upd n why meta db,
    SameInputs db (snd (checkProgress user now db)) /\
    SameInputs db (snd (updateChallengesWithNewData user now ai db)) /\
    SameInputs db (snd (getActiveChallenges user now db)) /\
    SameInputs db (snd (generateChallenges input now ai db)) /\
    SameInputs db (snd (createChallenge user data now db)) /\
    SameInputs db (snd (updateChallenge i upd db)) /\
    SameInputs db (snd (addPoints user n why meta db)) /\
    SameInputs db (snd (subtractPoints user n why meta db)).
Proof.
  intros user now ai input data i upd n why meta db.
  repeat split; first
    [ apply quiet_checkProgress
    | apply quiet_updateChallengesWithNewData
    | apply quiet_getActiveChallenges
    | apply quiet_generateChallenges
    | apply quiet_createChallenge
    | apply quiet_updateChallenge
    | apply quiet_addPoints
    | apply quiet_subtractPoints ].
Qed.

Lemma quiet_runPass : forall p db, IdsGrow db (runPass p db).
Proof.
  intros [user now | user now ai | user now | user data now ai
         | input now ai | user body now] db; cbn [runPass].
  - apply quiet_checkProgress.
  - apply quiet_updateChallengesWithNewData.
  - apply quiet_getActiveChallenges.
  - destruct (recorded_run user data now ai db) as [_ [_ E]]. rewrite E.
    apply (IdsGrow_trans db (set_transactions (bump db)
                               (tbl_set tx_id (recordedTransaction user data now db)
                                  (transactions db)))).
    + exists []. rewrite app_nil_r. reflexivity.
    + apply quiet_updateChallengesWithNewData.
  - apply quiet_generateChallenges.
  - apply quiet_createChallenge.
Qed.

(** X9: no call of the engine removes or reorders a stored challenge: after
    any sequence of batch checks, incremental updates, listings, recorded
    transactions, generations and creations, the challenge ids of the store
    are the ids it had, in the same order, followed by the new ones. No
    assumption on the store is needed. *)
Theorem challenges_are_only_appended :
  forall ps db,
    exists extra,
      map id (challenges (runPasses ps db))
      = (map id (challenges db) ++ extra)%list.
Proof.
  induction ps as [|p rest IH]; intros db.
  - apply IdsGrow_refl.
  - cbn [runPasses fold_left].
    apply (IdsGrow_trans db (runPass p db)); [apply quiet_runPass | apply IH].
Qed.

(** ** One user's calls and the other users' challenges *)

Lemma not_loaded :
  forall user db i c,
    Inv db -> row i db = Some c -> activeOf user c = false ->
    ~ In i (map id (filter (activeOf user) (challenges db))).
Proof.
  intros user db i c HInv Hrow Hf Hin.
  apply in_map_iff in Hin. destruct Hin as [x [Hx Hin]].
  apply filter_In in Hin. destruct Hin as [Hin Ha].
  assert (Hx' : row (id x) db = Some x)
    by (apply (tbl_get_unique id); [apply HInv | exact Hin]).
  rewrite Hx, Hrow in Hx'. inversion Hx'; subst x. congruence.
Qed.

Lemma activeOf_other_user :
  forall user c, userId c <> user -> activeOf user c = false.
Proof.
  intros user c H. unfold activeOf.
  destruct (String.eqb_spec (userId c) user); [contradiction | reflexivity].
Qed.

Lemma expired_unloaded :
  forall user now c, activeOf user c = false -> expired user now c = c.
Proof. intros user now c H. unfold expired. rewrite H. reflexivity. Qed.

Lemma listActive_untouched :
  forall user now db i c,
    Inv db -> row i db = Some c -> activeOf user c = false ->
    Untouched i c db (snd (getActiveChallenges user now db)).
Proof.
  intros user now db i c HInv Hrow Hf.
  destruct (getActiveChallenges_spec user now db HInv)
    as [db1 [Hrun [HInv1 [Hpt [_ Hrows]]]]].
  rewrite Hrun. cbn [snd]. split; [exact HInv1|]. split.
  - rewrite (Hrows i c Hrow), (expired_unloaded user now c Hf). reflexivity.
  - apply rewardsFor_same_ledger. exact Hpt.
Qed.

Lemma batch_untouched :
  forall user now db i c,
    Inv db -> row i db = Some c -> activeOf user c = false ->
    Untouched i c db (snd (checkProgress user now db)).
Proof.
  intros user now db i c HInv Hrow Hf.
  destruct (getActiveChallenges_spec user now db HInv)
    as [db1 [Hrun [HInv1 [Hpt [_ Hrows]]]]].
  set (found := filter (activeOf user) (challenges db)) in *.
  pose proof (not_loaded user db i c HInv Hrow Hf) as Hnot. fold found in Hnot.
  assert (Hrow1 : row i db1 = Some c)
    by (rewrite (Hrows i c Hrow), (expired_unloaded user now c Hf); reflexivity).
  unfold checkProgress, bind. rewrite Hrun.
  unfold find_transactions, find_savings_goals. cbv beta iota.
  destruct (checkProgress_loop
              (filter (fun t => String.eqb (tx_userId t) user) (transactions db1))
              (filter (fun g => String.eqb (g_userId g) user) (savings_goals db1))
              now i found db1 c)
    as [HInv2 [c2 [Hrow2 [Hq Hsame]]]].
  - apply NoDup_map_filter. apply HInv.
  - apply loaded_all_active.
  - exact HInv1.
  - exact Hrow1.
  - intros Hin. contradiction.
  - rewrite (Hsame Hnot) in Hrow2, Hq.
    split; [exact HInv2|]. split; [exact Hrow2|].
    rewrite <- (rewardsFor_same_ledger i db db1 Hpt). lia.
Qed.

Lemma incremental_untouched :
  forall user now ai db i c,
    Inv db -> row i db = Some c -> activeOf user c = false ->
    Untouched i c db (snd (updateChallengesWithNewData user now ai db)).
Proof.
  intros user now ai db i c HInv Hrow Hf.
  destruct (getActiveChallenges_spec user now db HInv)
    as [db1 [Hrun [HInv1 [Hpt [_ Hrows]]]]].
  set (found := filter (activeOf user) (challenges db)) in *.
  pose proof (not_loaded user db i c HInv Hrow Hf) as Hnot. fold found in Hnot.
  pose proof (listActive_untouched user now db i c HInv Hrow Hf) as U1.
  rewrite Hrun in U1. cbn [snd] in U1. destruct U1 as [_ [Hrow1 Hrw1]].
  unfold updateChallengesWithNewData, bind. rewrite Hrun.
  unfold find_transactions. cbv beta iota.
  destruct (filter (fun t => String.eqb (tx_userId t) user) (transactions db1))
    as [|first others] eqn:Etx.
  - split; [exact HInv1|]. split; assumption.
  - set (latest := hd first (sortDesc (first :: others))).
    destruct (incremental_loop latest now i found db1 c)
      as [HInv2 [c2 [Hrow2 [Hq Hsame]]]].
    + apply NoDup_map_filter. apply HInv.
    + apply loaded_all_active.
    + exact HInv1.
    + exact Hrow1.
    + intros Hin. contradiction.
    + rewrite (Hsame Hnot) in Hrow2, Hq.
      destruct (mapM found
                  (fun challenge =>
                     updateChallengeProgressWithTransaction challenge latest now)
                  db1) as [[ys | e] db2]; cbn [snd] in *.
      * pose proof (listActive_untouched user now db2 i c HInv2 Hrow2 Hf) as U3.
        destruct (getActiveChallenges_spec user now db2 HInv2)
          as [db3 [Hrun3 [HInv3 _]]].
        rewrite Hrun3 in U3 |- *. cbn [snd] in U3. destruct U3 as [_ [Hrow3 Hrw3]].
        destruct (topUp_effect user now ai
                    (filter (activeOf user) (challenges db2)) db3 HInv3)
          as [HInv4 [Hrows4 [Hpt4 _]]].
        split; [exact HInv4|]. split; [apply Hrows4; exact Hrow3|].
        rewrite (rewardsFor_same_ledger _ _ _ Hpt4). lia.
      * split; [exact HInv2|]. split; [exact Hrow2 | lia].
Qed.

(** X10: a call made for one user never changes the challenge of another
    user: after a batch check, an incremental update, a listing, a recorded
    transaction with its update, a generation or a creation for a user,
    every stored challenge of any other user has the row it had, and the
    rewards issued for it are the same, unless the body of a created
    challenge carries the id of that very challenge. *)
Theorem other_users_challenges_untouched :
  forall p db i c,
    Inv db ->
    row i db = Some c ->
    userId c <> passUser p ->
    namesId p i = false ->
    row i (runPass p db) = Some c /\
    rewardsFor i (runPass p db) = rewardsFor i db.
Proof.
  intros p db i c HInv Hrow Huser Hnames.
  destruct p as [user now | user now ai | user now | user data now ai
                | input now ai | user body now];
    cbn [runPass passUser] in *.
  - apply batch_untouched; auto using activeOf_other_user.
  - apply incremental_untouched; auto using activeOf_other_user.
  - apply listActive_untouched; auto using activeOf_other_user.
  - destruct (recorded_run user data now ai db) as [_ [_ E]]. rewrite E.
    set (db1 := set_transactions (bump db)
                  (tbl_set tx_id (recordedTransaction user data now db)
                     (transactions db))).
    assert (HInv1 : Inv db1).
    { apply (Inv_extend db db1 HInv); try reflexivity.
      - cbn. lia.
      - apply HInv.
      - intros j Hj. left. exact Hj.
      - intros j Hj. left. exact Hj. }
    apply (incremental_untouched user now ai db1 i c HInv1 Hrow).
    apply activeOf_other_user. exact Huser.
  - destruct (ai (requestedCount input)) as [resp | e] eqn:Hai.
    + destruct (generateChallenges_effect input now ai db resp HInv Hai)
        as [db' [Hrun [_ [Hch [Hpt _]]]]].
      rewrite Hrun. cbn [snd].
      split; [apply (row_app i db db' _ c Hch Hrow)|].
      apply rewardsFor_same_ledger. exact Hpt.
    + unfold generateChallenges. rewrite Hai. cbn. auto.
  - unfold createChallenge, bind, uuidv4, insert_challenge. cbn [snd].
    split; [|reflexivity].
    unfold row. cbn [challenges set_challenges].
    rewrite tbl_get_set_other; [exact Hrow|]. cbn [id challengeOf].
    assert (Hnew : uuids db (issued db) <> i).
    { intros E. destruct HInv as [_ [Hfresh _]].
      apply (Hfresh (issued db) (le_n _)). rewrite E.
      destruct (tbl_get_some id _ _ _ Hrow) as [Hin Hid].
      rewrite <- Hid. apply in_map. exact Hin. }
    cbn [namesId] in Hnames. unfold bodyId.
    destruct (b_id body) as [given|]; [|exact Hnew].
    destruct (String.eqb given ""); [exact Hnew|].
    intros E. subst given. rewrite String.eqb_refl in Hnames. discriminate.
Qed.

Lemma other_users_challenges_untouched_witness :
  let p := Recorded "u2" (salary 200) (T0 + 1000) noAI in
  row "c-save" (runPass p (dbOf [savings100] [])) = Some savings100 /\
  rewardsFor "c-save" (runPass p (dbOf [savings100] []))
  = rewardsFor "c-save" (dbOf [savings100] []).
Proof.
  intros p.
  refine (other_users_challenges_untouched p (dbOf [savings100] [])
            "c-save" savings100 _ eq_refl _ eq_refl).
  - apply Inv_dbOf; [apply NoDup_single | reflexivity].
  - vm_compute; discriminate.
Defined.

(** ** Listing, creating, updating and deleting *)

Lemma expired_twice :
  forall user now c, expired user now (expired user now c) = expired user now c.
Proof.
  intros user now c. unfold expired.
  destruct (activeOf user c && (endDate c <? now)) eqn:E; [|rewrite E; reflexivity].
  unfold activeOf, isActive. cbn. rewrite andb_false_r. reflexivity.
Qed.

(** X11: [getActiveChallenges] returns the rows that were ACTIVE when it read
    them: a challenge whose end date has passed is marked EXPIRED in the
    store and is still in the returned list, as it was read. A second
    listing at the same instant changes no stored row. *)
Theorem listing_returns_what_it_expires :
  forall user now db,
    Inv db ->
    let found := filter (activeOf user) (challenges db) in
    let db1 := snd (getActiveChallenges user now db) in
    fst (getActiveChallenges user now db) = Ok found /\
    (forall c, In c found -> endDate c < now ->
               row (id c) db1 = Some (with_status c EXPIRED)) /\
    (forall c, In c found -> now <= endDate c -> row (id c) db1 = Some c) /\
    (forall j c, row j db = Some c ->
                 row j (snd (getActiveChallenges user now db1)) = row j db1).
Proof.
  intros user now db HInv found db1.
  destruct (getActiveChallenges_spec user now db HInv)
    as [db' [Hrun [HInv1 [_ [_ Hrows]]]]].
  subst db1. rewrite Hrun. cbn [fst snd].
  assert (Hstored : forall c, In c found -> row (id c) db = Some c /\ activeOf user c = true).
  { intros c Hin. apply filter_In in Hin. destruct Hin as [Hin Ha]. split; [|exact Ha].
    apply (tbl_get_unique id); [apply HInv | exact Hin]. }
  split; [reflexivity|]. split; [|split].
  - intros c Hin Hend. destruct (Hstored c Hin) as [Hrow Ha].
    rewrite (Hrows _ _ Hrow). unfold expired. rewrite Ha.
    destruct (Z.ltb_spec (endDate c) now); [reflexivity | lia].
  - intros c Hin Hend. destruct (Hstored c Hin) as [Hrow Ha].
    rewrite (Hrows _ _ Hrow). unfold expired. rewrite Ha.
    destruct (Z.ltb_spec (endDate c) now); [lia | reflexivity].
  - intros j c Hrow.
    destruct (getActiveChallenges_spec user now db' HInv1)
      as [db2 [Hrun2 [_ [_ [_ Hrows2]]]]].
    rewrite Hrun2. cbn [snd].
    rewrite (Hrows2 _ _ (Hrows _ _ Hrow)), (Hrows _ _ Hrow), expired_twice.
    reflexivity.
Qed.

Lemma listing_returns_what_it_expires_witness :
  let now := T0 + WEEK_MS + 1 in
  let db := dbOf [savings100] [] in
  fst (getActiveChallenges "u1" now db) = Ok [savings100] /\
  row "c-save" (snd (getActiveChallenges "u1" now db))
  = Some (with_status savings100 EXPIRED).
Proof.
  intros now db.
  assert (HInv : Inv db) by (apply Inv_dbOf; [apply NoDup_single | reflexivity]).
  destruct (listing_returns_what_it_expires "u1" now db HInv) as [H1 [H2 _]].
  split; [exact H1|].
  apply (H2 savings100); [left; reflexivity | vm_compute; reflexivity].
Defined.

(** X12: [createChallenge] stores an ACTIVE challenge with zero progress
    that is not marked as generated, under the id of the body when the body
    carries one (not the empty string) and under a new identifier
    otherwise, for the user of the
    body when it names one and for the caller otherwise. [getChallengeById]
    then finds it under the id returned and the challenges of every other
    id are as they were. A body without id appends the challenge; a body
    with the id of a stored challenge replaces that challenge, whatever its
    owner and status. *)
Theorem created_challenge_is_found :
  forall user body now db,
    exists c,
      let db' := snd (createChallenge user body now db) in
      fst (createChallenge user body now db) = Ok c /\
      id c = bodyId body (uuids db (issued db)) /\
      userId c = match b_userId body with Some u => u | None => user end /\
      status c = ACTIVE /\ aiGenerated c = false /\
      progress c = mkProgress (Some 0) (Some 0) (Some now) None /\
      getChallengeById (id c) db' = (Ok (Some c), db') /\
      (forall j, j <> id c -> row j db' = row j db) /\
      (Inv db -> b_id body = None ->
       challenges db' = (challenges db ++ [c])%list) /\
      (forall i old, b_id body = Some i -> i <> "" -> row i db = Some old ->
                     row i db' = Some c /\
                     map id (challenges db') = map id (challenges db)).
Proof.
  intros user body now db.
  set (c := challengeOf (bodyId body (uuids db (issued db)))
              (match b_userId body with Some u => u | None => user end)
              (b_data body) now false).
  exists c.
  assert (Hdb : snd (createChallenge user body now db)
                = set_challenges (bump db) (tbl_set id c (challenges db)))
    by reflexivity.
  assert (Hrow : row (id c) (snd (createChallenge user body now db)) = Some c).
  { rewrite Hdb. unfold row. cbn [challenges set_challenges].
    apply tbl_get_set_same. }
  cbv zeta. split; [reflexivity|]. repeat (split; [reflexivity|]).
  split; [|split; [|split]].
  - unfold getChallengeById, findOne_challenge.
    fold (row (id c) (snd (createChallenge user body now db))).
    rewrite Hrow. reflexivity.
  - intros j Hj. rewrite Hdb. unfold row. cbn [challenges set_challenges].
    apply tbl_get_set_other. congruence.
  - intros HInv Hnone. rewrite Hdb. cbn [challenges set_challenges].
    apply tbl_set_fresh. subst c. unfold bodyId. rewrite Hnone. cbn [id challengeOf].
    destruct HInv as [_ [Hfresh _]]. apply Hfresh. lia.
  - intros i old Hsome Hne Hold.
    assert (Hid : id c = i).
    { subst c. unfold bodyId. rewrite Hsome. cbn [id challengeOf].
      destruct (String.eqb_spec i ""); [contradiction | reflexivity]. }
    split; [rewrite <- Hid; exact Hrow|].
    rewrite Hdb. cbn [challenges set_challenges].
    destruct (tbl_set_keys id c (challenges db)) as [[_ E] | [Hnot _]]; [exact E|].
    exfalso. apply Hnot. rewrite Hid.
    destruct (tbl_get_some id _ _ _ Hold) as [Hin Hi].
    rewrite <- Hi. apply in_map. exact Hin.
Qed.

Section Delete.
Context {A : Type} (key : A -> string).

Lemma tbl_delete_none :
  forall i rows, tbl_get key i rows = None -> tbl_delete key i rows = None.
Proof.
  intros i rows. unfold tbl_get. induction rows as [|r rest IH]; cbn; [reflexivity|].
  destruct (String.eqb (key r) i); [discriminate|].
  intros H. rewrite (IH H). reflexivity.
Qed.

Lemma tbl_delete_some :
  forall i rows r,
    tbl_get key i rows = Some r ->
    exists rest,
      tbl_delete key i rows = Some rest /\
      List.length rows = S (List.length rest) /\
      (forall j, j <> i -> tbl_get key j rest = tbl_get key j rows) /\
      (forall x, In x rest -> In x rows) /\
      (NoDup (map key rows) -> tbl_get key i rest = None).
Proof.
  intros i rows. unfold tbl_get.
  induction rows as [|r0 rest IH]; cbn; [discriminate|].
  intros r. destruct (String.eqb_spec (key r0) i) as [E | E].
  - intros _. exists rest. split; [reflexivity|]. split; [reflexivity|].
    split; [|split].
    + intros j Hj. destruct (String.eqb_spec (key r0) j); [congruence | reflexivity].
    + intros x Hx. right. exact Hx.
    + intros Hnd. inversion Hnd as [|? ? Hnot _]; subst.
      destruct (find (fun row0 => String.eqb (key row0) (key r0)) rest) eqn:F;
        [|reflexivity].
      exfalso. apply Hnot. apply find_some in F. destruct F as [Hin Hk].
      apply String.eqb_eq in Hk. rewrite <- Hk. apply in_map. exact Hin.
  - intros H. destruct (IH r H) as [rest' [Hd [Hlen [Hother [Hsub Hgone]]]]].
    rewrite Hd. exists (r0 :: rest'). split; [reflexivity|].
    split; [cbn; lia|]. split; [|split].
    + intros j Hj. cbn. destruct (String.eqb (key r0) j); [reflexivity|].
      apply Hother. exact Hj.
    + intros x [Hx | Hx]; [left; exact Hx | right; apply Hsub; exact Hx].
    + intros Hnd. inversion Hnd; subst. cbn.
      destruct (String.eqb_spec (key r0) i); [contradiction|]. apply Hgone. assumption.
Qed.
End Delete.

(** X14: [deleteChallenge] removes the row of the id and only it: the id is
    no longer found, every other id is found as before and the collection
    has one row less. On an id that is not stored it throws and the store is
    as it was. *)
Theorem deleteChallenge_removes_one_row :
  forall i db,
    NoDup (map id (challenges db)) ->
    match row i db with
    | Some _ =>
        let db' := snd (deleteChallenge i db) in
        fst (deleteChallenge i db) = Ok tt /\
        row i db' = None /\
        (forall j, j <> i -> row j db' = row j db) /\
        List.length (challenges db) = S (List.length (challenges db')) /\
        points_transactions db' = points_transactions db
    | None =>
        exists message, deleteChallenge i db = (Thrown message, db)
    end.
Proof.
  intros i db Hnd. unfold deleteChallenge, delete_challenge.
  destruct (row i db) as [c|] eqn:Hrow.
  - destruct (tbl_delete_some id i (challenges db) c Hrow)
      as [rest [Hd [Hlen [Hother [_ Hgone]]]]].
    rewrite Hd. cbn [fst snd]. unfold row. cbn [challenges set_challenges].
    split; [reflexivity|]. split; [apply Hgone; exact Hnd|].
    split; [exact Hother|]. split; [exact Hlen | reflexivity].
  - rewrite (tbl_delete_none id i (challenges db) Hrow). eexists. reflexivity.
Qed.

Lemma deleteChallenge_removes_one_row_witness :
  let db := dbOf [savings100; deliveryStreak] [] in
  fst (deleteChallenge "c-save" db) = Ok tt /\
  row "c-save" (snd (deleteChallenge "c-save" db)) = None.
Proof.
  intros db.
  assert (Hnd : NoDup (map id (challenges db))).
  { repeat constructor; cbn; intuition discriminate. }
  pose proof (deleteChallenge_removes_one_row "c-save" db Hnd) as H.
  cbn in H. destruct H as [H1 [H2 _]]. split; assumption.
Defined.

Lemma countStatus_partition :
  forall cs,
    Z.of_nat (List.length cs)
    = countStatus ACTIVE cs + countStatus COMPLETED cs
      + countStatus FAILED cs + countStatus EXPIRED cs.
Proof.
  unfold countStatus. induction cs as [|c cs IH]; [reflexivity|].
  cbn [filter List.length]. destruct (status c); cbn [ChallengeStatus_eqb List.length]; lia.
Qed.

Lemma countStatus_countOf :
  forall user s cs,
    countStatus s (filter (fun c => String.eqb (userId c) user) cs)
    = countOf user s cs.
Proof.
  intros user s. unfold countStatus. induction cs as [|c rest IH]; [reflexivity|].
  cbn [filter countOf]. destruct (String.eqb (userId c) user); cbn [andb filter].
  - destruct (ChallengeStatus_eqb (status c) s); cbn [List.length]; lia.
  - lia.
Qed.

Lemma earned_pointsOfCompleted :
  forall user cs acc,
    fold_left (fun sum c => sum + rewardPoints c)
      (filter (fun c => ChallengeStatus_eqb (status c) COMPLETED)
         (filter (fun c => String.eqb (userId c) user) cs))
      acc
    = acc + pointsOfCompleted user cs.
Proof.
  intros user. induction cs as [|c rest IH]; intros acc; cbn [filter fold_left pointsOfCompleted].
  - lia.
  - destruct (String.eqb (userId c) user); cbn [andb filter].
    + destruct (ChallengeStatus_eqb (status c) COMPLETED); cbn [fold_left];
        rewrite IH; lia.
    + rewrite IH. lia.
Qed.

(** X15: [getUserStats] reads and never writes. Each of its four counts is
    the number of challenges of the user in that status and they add up to
    the total; the points it reports are the reward points of the COMPLETED
    challenges of the user, summed from the challenges and not read from
    the rewards ledger; the success rate is the completed count over the
    challenges that are neither ACTIVE nor EXPIRED; both streak figures are
    always 0. *)
Theorem stats_counts_add_up :
  forall user db,
    exists s,
      getUserStats user db = (Ok s, db) /\
      (st_active s, st_completed s, st_failed s, st_expired s)
      = (countOf user ACTIVE (challenges db), countOf user COMPLETED (challenges db),
         countOf user FAILED (challenges db), countOf user EXPIRED (challenges db)) /\
      st_total s = st_active s + st_completed s + st_failed s + st_expired s /\
      st_totalPointsEarned s = pointsOfCompleted user (challenges db) /\
      st_successRate s
      = (st_completed s, st_total s - st_active s - st_expired s) /\
      st_currentStreak s = 0 /\ st_bestStreak s = 0.
Proof.
  intros user db. eexists. split; [reflexivity|].
  cbn [st_total st_active st_completed st_failed st_expired st_successRate
       st_currentStreak st_bestStreak st_totalPointsEarned].
  set (cs := filter (fun c => String.eqb (userId c) user) (challenges db)).
  pose proof (countStatus_partition cs) as Hsum.
  split; [unfold cs; rewrite !countStatus_countOf; reflexivity|].
  split; [exact Hsum|].
  split; [unfold cs; rewrite earned_pointsOfCompleted; lia|].
  split; [f_equal; lia|]. split; reflexivity.
Qed.

(** ** The rewards ledger *)

Lemma balance_firstOf :
  forall user db,
    balance user db = match firstOf user db with Some r => points r | None => 0 end.
Proof.
  intros user db. unfold balance, firstOf.
  destruct (filter _ (user_points db)); reflexivity.
Qed.

(** Replacing the row a user's first row is stored under. *)
Lemma replace_first_row :
  forall rows r r',
    NoDup (map up_id rows) ->
    In r rows ->
    up_id r' = up_id r ->
    up_userId r' = up_userId r ->
    map up_id (tbl_set up_id r' rows) = map up_id rows /\
    (forall u,
       hd_error (filter (fun p => String.eqb (up_userId p) u) rows) = Some r ->
       hd_error (filter (fun p => String.eqb (up_userId p) u) (tbl_set up_id r' rows))
       = Some r') /\
    (forall u, u <> up_userId r ->
       filter (fun p => String.eqb (up_userId p) u) (tbl_set up_id r' rows)
       = filter (fun p => String.eqb (up_userId p) u) rows).
Proof.
  intros rows r r' Hnd Hin Hid Hu.
  induction rows as [|x rest IH]; [destruct Hin|].
  inversion Hnd as [|? ? Hnot Hnd']; subst.
  cbn [tbl_set]. rewrite Hid.
  destruct (String.eqb_spec (up_id x) (up_id r)) as [E | E].
  - assert (x = r).
    { destruct Hin as [Hx | Hx]; [exact Hx|].
      exfalso. apply Hnot. rewrite E. apply in_map. exact Hx. }
    subst x. split; [cbn; rewrite Hid; reflexivity|]. split.
    + intros u Hhd. cbn [filter] in *. rewrite Hu.
      destruct (String.eqb (up_userId r) u); [reflexivity|].
      exfalso.
      assert (Hin' : In r (filter (fun p => String.eqb (up_userId p) u) rest)).
      { destruct (filter _ rest); [discriminate|]. inversion Hhd. left. reflexivity. }
      apply filter_In in Hin'. apply Hnot. apply in_map. tauto.
    + intros u Hne. cbn [filter]. rewrite Hu.
      destruct (String.eqb_spec (up_userId r) u); [congruence | reflexivity].
  - assert (Hin' : In r rest) by (destruct Hin; [congruence | assumption]).
    destruct (IH Hnd' Hin') as [Hk [Hfirst Hothers]].
    split; [cbn; rewrite Hk; reflexivity|]. split.
    + intros u Hhd. cbn [filter] in *.
      destruct (String.eqb (up_userId x) u).
      * cbn in Hhd. congruence.
      * apply Hfirst. exact Hhd.
    + intros u Hne. cbn [filter]. rewrite (Hothers u Hne). reflexivity.
Qed.

Lemma filter_other_new :
  forall u r rows,
    up_userId r <> u ->
    ~ In (up_id r) (map up_id rows) ->
    filter (fun p => String.eqb (up_userId p) u) (tbl_set up_id r rows)
    = filter (fun p => String.eqb (up_userId p) u) rows.
Proof.
  intros u r rows Hu Hnot. rewrite (tbl_set_fresh up_id r rows Hnot).
  rewrite filter_app. cbn.
  destruct (String.eqb_spec (up_userId r) u); [contradiction|].
  apply app_nil_r.
Qed.

(** [getUserPoints] under the ledger invariant. *)
Lemma getUserPoints_ledger :
  forall user db,
    LedgerInv db ->
    exists r db1,
      getUserPoints user db = (Ok r, db1) /\
      LedgerInv db1 /\
      firstOf user db1 = Some r /\
      up_userId r = user /\
      points r = balance user db /\
      (forall other, other <> user -> balance other db1 = balance other db) /\
      points_transactions db1 = points_transactions db /\
      challenges db1 = challenges db /\
      (firstOf user db <> None -> db1 = db).
Proof.
  intros user db [Hnd [Hfresh Hinj]].
  pose proof (getUserPoints_run user db) as Hrun.
  unfold firstOf, balance.
  destruct (filter (fun p => String.eqb (up_userId p) user) (user_points db))
    as [|first rest] eqn:E.
  - set (r := newUserPoints user db) in *.
    assert (Hnew : ~ In (up_id r) (map up_id (user_points db)))
      by (apply Hfresh; lia).
    exists r. eexists. split; [exact Hrun|].
    cbn [user_points set_user_points bump uuidv4 snd points_transactions challenges].
    split; [|split; [|split; [|split; [|split]]]].
    + split; [|split]; cbn.
      * apply tbl_set_NoDup. exact Hnd.
      * intros k Hk. rewrite (tbl_set_fresh up_id r _ Hnew), map_app, in_app_iff.
        intros [Hin | [Heq | []]].
        -- apply (Hfresh k); [lia | exact Hin].
        -- cbn in Heq. apply Hinj in Heq; lia.
      * intros j k Hj Hk. apply Hinj; lia.
    + rewrite (filter_user_new user r _ eq_refl E). reflexivity.
    + reflexivity.
    + reflexivity.
    + intros other Hne. rewrite filter_other_new; [reflexivity | | exact Hnew].
      cbn. congruence.
    + repeat split. intros H. contradiction H. reflexivity.
  - exists first, db. split; [exact Hrun|].
    assert (Hin : In first (filter (fun p => String.eqb (up_userId p) user)
                              (user_points db)))
      by (rewrite E; left; reflexivity).
    apply filter_In in Hin. destruct Hin as [_ Hu]. apply String.eqb_eq in Hu.
    split; [split; [|split]; assumption|]. rewrite E.
    repeat split; auto.
Qed.

(** Writing new totals into the row [getUserPoints] returned. *)
Lemma write_points :
  forall user r merge db,
    LedgerInv db ->
    firstOf user db = Some r ->
    up_userId r = user ->
    (forall e, up_id (merge e) = up_id e /\ up_userId (merge e) = up_userId e) ->
    let db' := set_user_points db (tbl_set up_id (merge r) (user_points db)) in
    update_user_points (up_id r) merge db = (Ok (merge r), db') /\
    LedgerInv db' /\
    firstOf user db' = Some (merge r) /\
    (forall other, other <> user -> balance other db' = balance other db) /\
    (forall P : UserPoints -> Prop,
       Forall P (user_points db) -> P (merge r) -> Forall P (user_points db')).
Proof.
  intros user r merge db [Hnd [Hfresh Hinj]] Hfirst Hu Hmerge db'.
  assert (Hin : In r (user_points db)).
  { unfold firstOf in Hfirst.
    destruct (filter (fun p => String.eqb (up_userId p) user) (user_points db))
      as [|f rest] eqn:E; [discriminate|].
    inversion Hfirst; subst f.
    assert (Hf : In r (r :: rest)) by (left; reflexivity).
    rewrite <- E in Hf. apply filter_In in Hf. tauto. }
  destruct (Hmerge r) as [Hid Huser].
  destruct (replace_first_row (user_points db) r (merge r) Hnd Hin Hid Huser)
    as [Hkeys [Hhd Hothers]].
  split; [|split; [|split; [|split]]].
  - unfold update_user_points.
    rewrite (tbl_get_unique up_id _ _ Hnd Hin). reflexivity.
  - subst db'. split; [|split]; cbn; rewrite ?Hkeys; assumption.
  - subst db'. unfold firstOf. cbn. apply Hhd. exact Hfirst.
  - intros other Hne. subst db'. unfold balance. cbn.
    rewrite Hothers; [reflexivity | congruence].
  - intros P HP Hr. subst db'. cbn. apply tbl_set_Forall; assumption.
Qed.

Lemma LedgerInv_ledger_entry :
  forall db why,
    LedgerInv db ->
    LedgerInv (set_points_transactions (bump db) why).
Proof.
  intros db why [Hnd [Hfresh Hinj]]. split; [|split]; cbn.
  - exact Hnd.
  - intros k Hk. apply Hfresh. lia.
  - intros j k Hj Hk. apply Hinj; lia.
Qed.

Lemma addPoints_ledger :
  forall user n why meta db,
    LedgerInv db ->
    exists r db',
      addPoints user n why meta db = (Ok r, db') /\
      LedgerInv db' /\
      points r = balance user db + n /\
      balance user db' = balance user db + n /\
      (forall other, other <> user -> balance other db' = balance other db) /\
      challenges db' = challenges db /\
      (exists entry,
         In entry (points_transactions db') /\
         (pt_userId entry, pt_points entry, pt_type entry, reason entry, metadata entry)
         = (user, n, earn, why, meta)).
Proof.
  intros user n why meta db HL.
  destruct (getUserPoints_ledger user db HL)
    as [r [db1 [Hrun [HL1 [Hfirst [Hu [Hp [Hoth [Hpt [Hch _]]]]]]]]]].
  set (merge := fun existing : UserPoints =>
                  mkUserPoints (up_id existing) (up_userId existing)
                    (points r + n) (totalEarned r + n) (totalSpent existing)).
  destruct (write_points user r merge db1 HL1 Hfirst Hu (fun e => conj eq_refl eq_refl))
    as [Hupd [HL2 [Hfirst2 [Hoth2 Hall]]]].
  eexists. eexists. split.
  { unfold addPoints, bind. rewrite Hrun. fold merge. rewrite Hupd.
    rewrite createPointsTransaction_run. reflexivity. }
  cbn [fst snd].
  split; [apply LedgerInv_ledger_entry; exact HL2|].
  split; [cbn; lia|]. split; [|split; [|split]].
  - rewrite balance_firstOf.
    change (firstOf user (set_points_transactions (bump ?d) ?l)) with (firstOf user d).
    rewrite Hfirst2. cbn. lia.
  - intros other Hne.
    change (balance other (set_points_transactions (bump ?d) ?l)) with (balance other d).
    rewrite (Hoth2 other Hne). apply Hoth. exact Hne.
  - cbn. exact Hch.
  - eexists. split.
    + cbn [points_transactions set_points_transactions].
      eapply (proj1 (tbl_get_some pt_id _ _ _ (tbl_get_set_same pt_id _ _))).
    + reflexivity.
Qed.

Lemma subtractPoints_ledger :
  forall user n why meta db,
    LedgerInv db ->
    let db' := snd (subtractPoints user n why meta db) in
    LedgerInv db' /\
    (forall other, other <> user -> balance other db' = balance other db) /\
    challenges db' = challenges db /\
    if balance user db <? n
    then fst (subtractPoints user n why meta db) = Thrown "Puntos insuficientes" /\
         balance user db' = balance user db /\
         points_transactions db' = points_transactions db
    else (exists r, fst (subtractPoints user n why meta db) = Ok r /\
                    points r = balance user db - n) /\
         balance user db' = balance user db - n.
Proof.
  intros user n why meta db HL.
  destruct (getUserPoints_ledger user db HL)
    as [r [db1 [Hrun [HL1 [Hfirst [Hu [Hp [Hoth [Hpt [Hch _]]]]]]]]]].
  unfold subtractPoints, bind. rewrite Hrun, Hp.
  destruct (balance user db <? n) eqn:Elt.
  - unfold throw. cbn [fst snd].
    split; [exact HL1|]. split; [exact Hoth|].
    split; [exact Hch|]. split; [reflexivity|]. split; [|exact Hpt].
    rewrite (balance_firstOf user db1), Hfirst. exact Hp.
  - set (merge := fun existing : UserPoints =>
                    mkUserPoints (up_id existing) (up_userId existing)
                      (balance user db - n) (totalEarned existing)
                      (totalSpent r + n)).
    destruct (write_points user r merge db1 HL1 Hfirst Hu (fun e => conj eq_refl eq_refl))
      as [Hupd [HL2 [Hfirst2 [Hoth2 Hall]]]].
    rewrite Hupd. rewrite createPointsTransaction_run. cbn [fst snd ret].
    unfold ret. cbn [fst snd].
    split; [apply LedgerInv_ledger_entry; exact HL2|].
    split; [|split; [|split]].
    + intros other Hne.
      change (balance other (set_points_transactions (bump ?d) ?l)) with (balance other d).
      rewrite (Hoth2 other Hne). apply Hoth. exact Hne.
    + cbn. exact Hch.
    + eexists. split; reflexivity.
    + rewrite balance_firstOf.
      change (firstOf user (set_points_transactions (bump ?d) ?l)) with (firstOf user d).
      rewrite Hfirst2. reflexivity.
Qed.

Lemma LedgerInv_bump : forall db, LedgerInv db -> LedgerInv (bump db).
Proof.
  intros db [Hnd [Hfresh Hinj]]. split; [|split]; cbn.
  - exact Hnd.
  - intros k Hk. apply Hfresh. lia.
  - intros j k Hj Hk. apply Hinj; lia.
Qed.

Lemma runCall_ledger :
  forall call db,
    LedgerInv db ->
    LedgerInv (runCall call db) /\
    balance (callUser call) (runCall call db)
    = balance (callUser call) db + callDelta call db /\
    (forall other, other <> callUser call ->
       balance other (runCall call db) = balance other db) /\
    challenges (runCall call db) = challenges db.
Proof.
  intros [user n why meta | user n why meta] db HL; cbn [runCall callUser callDelta].
  - destruct (addPoints_ledger user n why meta db HL)
      as [r [db' [Hrun [HL' [_ [Hb [Hoth [Hch _]]]]]]]].
    rewrite Hrun. cbn [snd]. tauto.
  - destruct (subtractPoints_ledger user n why meta db HL)
      as [HL' [Hoth [Hch Hb]]].
    split; [exact HL'|]. split; [|split; assumption].
    destruct (balance user db <? n).
    + destruct Hb as [_ [Hb _]]. lia.
    + destruct Hb as [_ Hb]. lia.
Qed.

(** X16: a call of the rewards ledger moves the balance of its user and of
    nobody else: [addPoints] adds the amount, [subtractPoints] takes it off
    when the balance covers it and changes nothing when it does not; the
    balance of every other user and the challenges are as before. *)
Theorem ledger_call_moves_one_balance :
  forall call db,
    LedgerInv db ->
    let db' := runCall call db in
    balance (callUser call) db' = balance (callUser call) db + callDelta call db /\
    (forall other, other <> callUser call -> balance other db' = balance other db) /\
    challenges db' = challenges db /\
    LedgerInv db'.
Proof.
  intros call db HL db'. subst db'.
  destruct (runCall_ledger call db HL) as [HL' [Hb [Hoth Hch]]].
  repeat (split; [assumption|]). exact HL'.
Qed.

Lemma LedgerInv_emptyDb : LedgerInv emptyDb.
Proof.
  split; [constructor|]. split.
  - intros k _ [].
  - intros j k _ _ H. apply uuid_of_inj. exact H.
Qed.

Lemma ledger_call_moves_one_balance_witness :
  let db := runCall (Add "u1" 30 "bonus" None) emptyDb in
  balance "u1" (runCall (Subtract "u1" 10 "gift" None) db) = 20 /\
  balance "u1" (runCall (Subtract "u1" 50 "gift" None) db) = 30.
Proof.
  intros db.
  assert (HL : LedgerInv db)
    by (apply (ledger_call_moves_one_balance (Add "u1" 30 "bonus" None) emptyDb
                 LedgerInv_emptyDb)).
  split.
  - exact (proj1 (ledger_call_moves_one_balance (Subtract "u1" 10 "gift" None) db HL)).
  - exact (proj1 (ledger_call_moves_one_balance (Subtract "u1" 50 "gift" None) db HL)).
Defined.

(** X18: [awardSavingsPoints] returns the whole thousands of the amount
    saved and adds them to the balance of the user; for less than 1000 saved
    (also a negative amount) it returns without reading or writing the
    store, so not even an empty points row is created. *)
Theorem savings_award_is_whole_thousands :
  forall user saved db,
    LedgerInv db ->
    let db' := snd (awardSavingsPoints user saved db) in
    fst (awardSavingsPoints user saved db) = Ok (saved / 1000) /\
    balance user db' = balance user db + Z.max 0 (saved / 1000) /\
    (forall other, other <> user -> balance other db' = balance other db) /\
    (saved < 1000 -> db' = db).
Proof.
  intros user saved db HL db'. subst db'. unfold awardSavingsPoints.
  rewrite Z.gtb_ltb.
  destruct (Z.ltb_spec 0 (saved / 1000)) as [Hpos | Hneg].
  - destruct (addPoints_ledger user (saved / 1000) "Puntos por ahorro" None db HL)
      as [r [db' [Hrun [_ [_ [Hb [Hoth _]]]]]]].
    unfold bind. rewrite Hrun. unfold ret. cbn [fst snd].
    split; [reflexivity|]. split; [lia|]. split; [exact Hoth|].
    intros Hlt. exfalso.
    assert (saved / 1000 <= 0) by (apply Z.lt_succ_r; apply Z.div_lt_upper_bound; lia).
    lia.
  - unfold ret. cbn [fst snd]. split; [reflexivity|]. split; [lia|].
    split; reflexivity.
Qed.

Lemma savings_award_is_whole_thousands_witness :
  fst (awardSavingsPoints "u1" 2500 emptyDb) = Ok 2 /\
  balance "u1" (snd (awardSavingsPoints "u1" 2500 emptyDb)) = 2.
Proof.
  destruct (savings_award_is_whole_thousands "u1" 2500 emptyDb LedgerInv_emptyDb)
    as [H1 [H2 _]].
  split; [exact H1 | exact H2].
Defined.

(** X19: [redeemReward] succeeds exactly when the reward is in the catalog,
    is active, has a stock above 0 and costs no more than the balance of the
    user. It then stores one pending redemption for the cost and takes the
    cost off the balance; otherwise it throws, and neither the balance nor
    the redemptions change. The stock of the catalog is read and never
    lowered. *)
Theorem redeemReward_outcome :
  forall rewards user rewardId now s,
    LedgerInv (core s) ->
    match getRewardById rewards rewardId with
    | None =>
        redeemReward rewards user rewardId now s
        = (Thrown "Recompensa no encontrada", s)
    | Some reward =>
        let (result, s') := redeemReward rewards user rewardId now s in
        if rw_active reward && (0 <? stock reward)
           && (pointsCost reward <=? balance user (core s))
        then
          exists created,
            result = Ok created /\
            (rd_userId created, rd_rewardId created, pointsUsed created,
             rd_status created, redemptionDate created)
            = (user, rewardId, pointsCost reward, "pending", now) /\
            In created (reward_redemptions s') /\
            balance user (core s') = balance user (core s) - pointsCost reward
        else
          (exists message, result = Thrown message) /\
          reward_redemptions s' = reward_redemptions s /\
          balance user (core s') = balance user (core s)
    end.
Proof.
  intros rewards user rewardId now s HL. unfold redeemReward.
  destruct (getRewardById rewards rewardId) as [reward|]; [|reflexivity].
  destruct (rw_active reward); cbn [negb andb].
  2:{ split; [eexists; reflexivity | split; reflexivity]. }
  rewrite Z.leb_antisym.
  destruct (0 <? stock reward); cbn [negb andb].
  2:{ split; [eexists; reflexivity | split; reflexivity]. }
  destruct (getUserPoints_ledger user (core s) HL)
    as [r [db1 [Hrun [HL1 [Hfirst [Hu [Hp _]]]]]]].
  rewrite Hrun, Hp.
  assert (Hb1 : balance user db1 = balance user (core s))
    by (rewrite balance_firstOf, Hfirst; exact Hp).
  rewrite Z.leb_antisym.
  destruct (balance user (core s) <? pointsCost reward) eqn:Elt; cbn [negb].
  - split; [eexists; reflexivity | split; [reflexivity | exact Hb1]].
  - pose proof (subtractPoints_ledger user (pointsCost reward)
                  (redemptionReason reward) None (bump db1) (LedgerInv_bump db1 HL1))
      as [_ [_ [_ Hsub]]].
    change (balance user (bump db1)) with (balance user db1) in Hsub.
    rewrite Hb1, Elt in Hsub. destruct Hsub as [[r' [Hok _]] Hbal].
    destruct (subtractPoints user (pointsCost reward) (redemptionReason reward)
                None (bump db1)) as [[r'' | e] db2]; [|discriminate].
    cbn [snd] in Hbal. eexists. split; [reflexivity|]. split; [reflexivity|].
    split; [|exact Hbal]. cbn [reward_redemptions].
    eapply (proj1 (tbl_get_some rd_id _ _ _ (tbl_get_set_same rd_id _ _))).
Qed.

Lemma redeemReward_outcome_witness :
  let s := mkRewardsDb (runCall (Add "u1" 2500 "bonus" None) emptyDb) [] in
  exists created s',
    redeemReward mockRewards "u1" "reward-2" T0 s = (Ok created, s') /\
    balance "u1" (core s') = 500.
Proof.
  intros s.
  assert (HL : LedgerInv (core s)).
  { apply (runCall_ledger (Add "u1" 2500 "bonus" None) emptyDb LedgerInv_emptyDb). }
  pose proof (redeemReward_outcome mockRewards "u1" "reward-2" T0 s HL) as H.
  change (getRewardById mockRewards "reward-2")
    with (Some (mkReward "reward-2" "Descuento Rappi 20%" 2000 50 true)) in H.
  destruct (redeemReward mockRewards "u1" "reward-2" T0 s) as [result s'].
  change (rw_active (mkReward "reward-2" "Descuento Rappi 20%" 2000 50 true)
          && (0 <? stock (mkReward "reward-2" "Descuento Rappi 20%" 2000 50 true))
          && (pointsCost (mkReward "reward-2" "Descuento Rappi 20%" 2000 50 true)
              <=? balance "u1" (core s)))
    with true in H.
  destruct H as [created [Hr [_ [_ Hb]]]].
  exists created, s'. split; [rewrite Hr; reflexivity | exact Hb].
Defined.

(** ** Calls that return *)

Lemma completeChallenge_result :
  forall j p now db c,
    Inv db -> row j db = Some c ->
    fst (completeChallenge j p now db)
    = Ok (with_progress (with_status c COMPLETED) (with_completedAt p now)).
Proof.
  intros j p now db c HInv Hrow.
  unfold completeChallenge, bind, getChallengeById, findOne_challenge.
  fold (row j db). rewrite Hrow.
  destruct (updateChallenge_effect j
              (mkUpdate (Some COMPLETED) (Some (with_completedAt p now))) db c
              HInv Hrow) as [db1 [Hrun _]].
  unfold getChallengeById, findOne_challenge, bind in Hrun. rewrite Hrun.
  destruct (addPoints_run (userId c) (rewardPoints c) (completedReason c)
              (Some (id c)) db1) as [r0 [ups [k [Hadd _]]]].
  rewrite Hadd. reflexivity.
Qed.

(** One step of the batch loop returns the row it leaves in the store. *)
Lemma checkOne_returns_row :
  forall txs goals now x db c,
    Inv db -> row (id x) db = Some c ->
    exists y,
      fst (checkOne txs goals now x db) = Ok y /\
      id y = id x /\
      row (id x) (snd (checkOne txs goals now x db)) = Some y.
Proof.
  intros txs goals now x db c HInv Hrow.
  destruct (checkOne_effect txs goals now x db HInv) as [_ [_ Hself]].
  specialize (Hself c Hrow). unfold checkOne in *.
  assert (Hid : id c = id x) by (apply (tbl_get_some id _ _ _ Hrow)).
  destruct (isChallengeCompleted x (calculateProgress x txs goals now) now).
  - destruct Hself as [Hr _]. eexists. split; [|split; [|exact Hr]].
    + apply completeChallenge_result; assumption.
    + exact Hid.
  - destruct Hself as [Hr _].
    destruct (isChallengeFailed x (calculateProgress x txs goals now) now).
    + destruct (updateChallenge_effect (id x)
                  (mkUpdate (Some FAILED) (Some (calculateProgress x txs goals now)))
                  db c HInv Hrow) as [db1 [Hrun _]].
      unfold failChallenge in *. rewrite Hrun in *. cbn [fst snd] in *.
      eexists. split; [reflexivity|]. split; [exact Hid | exact Hr].
    + destruct (updateChallenge_effect (id x)
                  (mkUpdate None (Some (calculateProgress x txs goals now)))
                  db c HInv Hrow) as [db1 [Hrun _]].
      rewrite Hrun in *. cbn [fst snd] in *.
      eexists. split; [reflexivity|]. split; [exact Hid | exact Hr].
Qed.

Lemma checkProgress_results :
  forall txs goals now items db,
    NoDup (map id items) ->
    Inv db ->
    (forall x, In x items -> row (id x) db <> None) ->
    exists results db',
      mapM items (checkOne txs goals now) db = (Ok results, db') /\
      Inv db' /\
      map id results = map id items /\
      (forall r, In r results -> row (id r) db' = Some r) /\
      (forall k, ~ In k (map id items) -> row k db' = row k db).
Proof.
  intros txs goals now. induction items as [|x rest IH]; intros db Hnd HInv Hrows.
  - exists [], db. split; [reflexivity|]. split; [exact HInv|].
    split; [reflexivity|]. split; [intros r [] | reflexivity].
  - inversion Hnd as [|? ? Hnot Hnd']; subst.
    destruct (row (id x) db) as [c|] eqn:Hrow;
      [|exfalso; apply (Hrows x); [left; reflexivity | exact Hrow]].
    destruct (checkOne_returns_row txs goals now x db c HInv Hrow)
      as [y [Hy [Hid Hstored]]].
    destruct (checkOne_effect txs goals now x db HInv) as [HInv1 [Hother _]].
    destruct (checkOne txs goals now x db) as [r1 db1] eqn:Hrun.
    cbn [fst snd] in *. subst r1.
    destruct (IH db1 Hnd' HInv1) as [ys [db2 [Hrest [HInv2 [Hids [Hres Hkeep]]]]]].
    { intros x' Hin'.
      assert (Hne : id x' <> id x).
      { intros E. apply Hnot. rewrite <- E. apply in_map. exact Hin'. }
      rewrite (proj1 (Hother (id x') Hne)). apply Hrows. right. exact Hin'. }
    exists (y :: ys), db2. split; [apply (mapM_cons_ok _ _ _ _ _ _ _ _ _ _ Hrun Hrest)|].
    split; [exact HInv2|]. split; [cbn; rewrite Hid, Hids; reflexivity|]. split.
    + intros r [Hr | Hr]; [subst r | apply Hres; exact Hr].
      rewrite Hid, (Hkeep (id x) Hnot). exact Hstored.
    + intros k Hk.
      assert (Hne : k <> id x) by (intros E; apply Hk; left; congruence).
      rewrite (Hkeep k); [apply (Hother k Hne)|].
      intros E. apply Hk. right. exact E.
Qed.

(** X20: on a store whose challenge ids are unique [checkProgress] does not
    throw: it returns one challenge for each challenge it loaded, in their
    order, and each one returned is the row the store holds for it when the
    call ends. *)
Theorem batch_check_returns_the_stored_rows :
  forall user now db,
    Inv db ->
    exists results,
      fst (checkProgress user now db) = Ok results /\
      map id results = map id (filter (activeOf user) (challenges db)) /\
      (forall r, In r results ->
                 row (id r) (snd (checkProgress user now db)) = Some r).
Proof.
  intros user now db HInv.
  destruct (getActiveChallenges_spec user now db HInv)
    as [db1 [Hrun [HInv1 [_ [_ Hrows]]]]].
  set (found := filter (activeOf user) (challenges db)) in *.
  destruct (checkProgress_results
              (filter (fun t => String.eqb (tx_userId t) user) (transactions db1))
              (filter (fun g => String.eqb (g_userId g) user) (savings_goals db1))
              now found db1)
    as [results [db2 [Hloop [_ [Hids [Hres _]]]]]].
  - apply NoDup_map_filter. apply HInv.
  - exact HInv1.
  - intros x Hin. apply filter_In in Hin. destruct Hin as [Hin _].
    rewrite (Hrows (id x) x); [discriminate|].
    apply (tbl_get_unique id); [apply HInv | exact Hin].
  - exists results. unfold checkProgress, bind. rewrite Hrun.
    unfold find_transactions, find_savings_goals. cbv beta iota.
    rewrite Hloop. cbn [fst snd]. split; [reflexivity|]. split; assumption.
Qed.

Lemma batch_check_returns_the_stored_rows_witness :
  exists results,
    fst (checkProgress "u1" (T0 + 1000) (dbOf [savings100; deliveryStreak] []))
    = Ok results /\
    map id results = ["c-save"; "c-streak"].
Proof.
  destruct (batch_check_returns_the_stored_rows "u1" (T0 + 1000)
              (dbOf [savings100; deliveryStreak] []))
    as [results [H1 [H2 _]]].
  - apply Inv_dbOf; [|reflexivity].
    repeat constructor; cbn; intuition discriminate.
  - exists results. split; [exact H1 | exact H2].
Defined.

Lemma autoCategorizTransaction_named :
  forall description, In (autoCategorizTransaction description) categoryNames.
Proof.
  intros description. unfold autoCategorizTransaction, categoryNames.
  destruct (find _ categoryKeywords) as [entry|] eqn:F.
  - apply find_some in F. destruct F as [Hin _].
    apply in_or_app. left. apply in_map. exact Hin.
  - apply in_or_app. right. left. reflexivity.
Qed.

(** X21: recording a transaction never fails because of the challenges:
    [createTransaction] returns the stored transaction under a new id with
    [createdAt = now], and at its return the challenges and the rewards
    ledger are as they were. The update it has started, run after it, never
    throws, also when the model call does, and leaves the transaction in
    the store. The category given is kept; a missing or empty one is
    replaced by one of the nine names of the keyword table. *)
Theorem recording_a_transaction_never_fails :
  forall user data now ai db,
    exists t,
      let db1 := snd (createTransaction user data now db) in
      fst (createTransaction user data now db) = Ok t /\
      In t (transactions db1) /\
      (challenges db1, user_points db1, points_transactions db1)
      = (challenges db, user_points db, points_transactions db) /\
      fst (updateUserChallenges user now ai db1) = Ok tt /\
      In t (transactions (snd (updateUserChallenges user now ai db1))) /\
      (tx_id t, tx_userId t, amount t, createdAt t)
      = (uuids db (issued db), user, dto_amount data, now) /\
      match dto_category data with
      | Some c => if String.eqb c "" then In (tx_category t) categoryNames
                  else tx_category t = c
      | None => In (tx_category t) categoryNames
      end.
Proof.
  intros user data now ai db.
  destruct (recorded_run user data now ai db) as [Hcreate [Hupdate _]].
  set (t := recordedTransaction user data now db) in *.
  set (db1 := set_transactions (bump db) (tbl_set tx_id t (transactions db))) in *.
  assert (Hin : In t (transactions db1)).
  { subst db1. cbn [transactions set_transactions].
    apply (proj1 (tbl_get_some tx_id _ _ _ (tbl_get_set_same tx_id t _))). }
  exists t. cbv zeta. rewrite Hcreate. cbn [fst snd]. rewrite Hupdate. cbn [fst snd].
  split; [reflexivity|]. split; [exact Hin|]. split; [reflexivity|].
  split; [reflexivity|]. split; [|split; [reflexivity|]].
  - destruct (quiet_updateChallengesWithNewData user now ai db1) as [_ [Htx _]].
    rewrite Htx. exact Hin.
  - cbn [tx_category t recordedTransaction]. unfold recordedCategory.
    destruct (dto_category data) as [c|];
      [destruct (String.eqb c "")|]; auto using autoCategorizTransaction_named.
Qed.

(** X22: for a user with no transaction [updateChallengesWithNewData] is
    [getActiveChallenges]: no challenge is evaluated and none is generated,
    however few the user has. *)
Theorem update_without_transactions_only_lists :
  forall user now ai db,
    fst (find_transactions user db) = Ok [] ->
    updateChallengesWithNewData user now ai db = getActiveChallenges user now db.
Proof.
  intros user now ai db Hnone.
  unfold find_transactions in Hnone. cbn [fst] in Hnone. inversion Hnone as [Hf].
  unfold updateChallengesWithNewData, bind.
  pose proof (quiet_getActiveChallenges user now db) as [_ [Htx _]].
  destruct (getActiveChallenges user now db) as [[active | e] db1]; [|reflexivity].
  cbn [snd] in Htx. unfold find_transactions. cbv beta iota.
  rewrite Htx, Hf. reflexivity.
Qed.

Lemma update_without_transactions_only_lists_witness :
  updateChallengesWithNewData "u1" T0 noAI (dbOf [savings100] [])
  = getActiveChallenges "u1" T0 (dbOf [savings100] []).
Proof.
  apply (update_without_transactions_only_lists "u1" T0 noAI (dbOf [savings100] [])).
  reflexivity.
Defined.

Lemma incremental_loop_returns :
  forall tx now items db,
    Inv db ->
    exists ys db',
      mapM items
        (fun challenge => updateChallengeProgressWithTransaction challenge tx now)
        db = (Ok ys, db') /\
      Inv db'.
Proof.
  intros tx now. induction items as [|x rest IH]; intros db HInv.
  - exists [], db. split; [reflexivity | exact HInv].
  - destruct (incremental_effect x tx now db HInv) as [HInv1 _].
    assert (Hok : exists y, fst (updateChallengeProgressWithTransaction x tx now db) = Ok y).
    { unfold updateChallengeProgressWithTransaction, tryCatch, ret.
      match goal with |- context [match ?m db with _ => _ end] => destruct (m db) as [[y | e] d] end;
        eexists; reflexivity. }
    destruct Hok as [y Hy].
    destruct (updateChallengeProgressWithTransaction x tx now db) as [r1 db1] eqn:Hrun.
    cbn [fst snd] in *. subst r1.
    destruct (IH db1 HInv1) as [ys [db2 [Hrest HInv2]]].
    exists (y :: ys), db2. split; [|exact HInv2].
    apply (mapM_cons_ok _ _
             (fun challenge => updateChallengeProgressWithTransaction challenge tx now)
             x rest db y ys db1 db2 Hrun Hrest).
Qed.

(** X23: [updateChallengesWithNewData] can fail in one way only, through
    the model call of the generator: when that call returns, whatever text
    it returns, the update returns the list of challenges, on any store
    whose challenge ids are unique. *)
Theorem update_fails_only_with_the_model_call :
  forall user now ai db,
    Inv db ->
    (forall n, exists response, ai n = Ok response) ->
    exists remaining, fst (updateChallengesWithNewData user now ai db) = Ok remaining.
Proof.
  intros user now ai db HInv Hai.
  destruct (getActiveChallenges_spec user now db HInv)
    as [db1 [Hrun [HInv1 _]]].
  unfold updateChallengesWithNewData, bind. rewrite Hrun.
  unfold find_transactions. cbv beta iota.
  destruct (filter (fun t => String.eqb (tx_userId t) user) (transactions db1))
    as [|first others]; [eexists; reflexivity|].
  destruct (incremental_loop_returns (hd first (sortDesc (first :: others))) now
              (filter (activeOf user) (challenges db)) db1 HInv1)
    as [ys [db2 [Hloop HInv2]]].
  rewrite Hloop.
  destruct (getActiveChallenges_spec user now db2 HInv2)
    as [db3 [Hrun3 [HInv3 _]]].
  rewrite Hrun3. unfold topUp.
  destruct (Z.of_nat (List.length (filter (activeOf user) (challenges db2))) <? 3);
    [|eexists; reflexivity].
  set (input := mkInput user
                  (Some (3 - Z.of_nat
                           (List.length (filter (activeOf user) (challenges db2)))))).
  destruct (Hai (requestedCount input)) as [response Hresp].
  destruct (generateChallenges_effect input now ai db3 response HInv3 Hresp)
    as [db4 [Hgen _]].
  unfold bind. rewrite Hgen. eexists. reflexivity.
Qed.

Lemma update_fails_only_with_the_model_call_witness :
  exists remaining,
    fst (updateChallengesWithNewData "u1" (T0 + 2000) noAI
           (dbOf [savings100] [taxiRide])) = Ok remaining.
Proof.
  apply (update_fails_only_with_the_model_call "u1" (T0 + 2000) noAI
           (dbOf [savings100] [taxiRide])).
  - apply Inv_dbOf; [apply NoDup_single | reflexivity].
  - intros n. exists NoJsonArray. reflexivity.
Defined.

(** ** The parser and the categories *)

Lemma normalizeAll_nil :
  forall elements, normalizeAll elements = Some [] -> elements = [].
Proof.
  intros [|e rest]; [reflexivity|]. cbn.
  destruct (normalize e); [|discriminate].
  destruct (normalizeAll rest); discriminate.
Qed.

Lemma normalizeAll_rewards :
  forall elements drafts,
    normalizeAll elements = Some drafts ->
    Forall (fun d => d_rewardPoints d <> 0) drafts /\
    List.length drafts = List.length elements.
Proof.
  induction elements as [|e rest IH]; intros drafts H; cbn in H.
  - inversion H. split; [constructor | reflexivity].
  - destruct e as [|c]; cbn in H; [discriminate|].
    destruct (normalizeAll rest) as [ds|]; [|discriminate].
    inversion H; subst. destruct (IH ds eq_refl) as [Hall Hlen].
    split; [|cbn; rewrite Hlen; reflexivity].
    constructor; [|exact Hall]. cbn.
    destruct (r_rewardPoints c) as [n|]; [|discriminate].
    destruct (Z.eqb_spec n 0); [discriminate | assumption].
Qed.

(** X24: [parseAIChallenges] returns no draft for one reply only, the empty
    array, which it takes as parsed (the fallback is not used); every other
    reply gives either one draft for each element of the array or the three
    fallback drafts, and no draft it returns has a reward of 0 points. *)
Theorem parsed_drafts :
  forall response now,
    (parseAIChallenges response now = [] <-> response = JsonArray []) /\
    Forall (fun d => d_rewardPoints d <> 0) (parseAIChallenges response now) /\
    (parseAIChallenges response now = generateFallbackChallenges now \/
     exists elements,
       response = JsonArray elements /\
       List.length (parseAIChallenges response now) = List.length elements).
Proof.
  intros response now.
  assert (Hfb : Forall (fun d => d_rewardPoints d <> 0) (generateFallbackChallenges now))
    by (repeat constructor; cbn; discriminate).
  destruct response as [| |elements]; cbn [parseAIChallenges].
  - split; [split; discriminate|]. split; [exact Hfb | left; reflexivity].
  - split; [split; discriminate|]. split; [exact Hfb | left; reflexivity].
  - destruct (normalizeAll elements) as [drafts|] eqn:E.
    + destruct (normalizeAll_rewards elements drafts E) as [Hall Hlen].
      split; [|split; [exact Hall | right; exists elements; split; [reflexivity | exact Hlen]]].
      split; intros H.
      * subst drafts. rewrite (normalizeAll_nil elements E). reflexivity.
      * inversion H; subst. cbn in E. congruence.
    + split; [|split; [exact Hfb | left; reflexivity]].
      split; [discriminate|]. intros H. inversion H; subst. discriminate.
Qed.

Lemma lowerAscii_twice : forall c, lowerAscii (lowerAscii c) = lowerAscii c.
Proof. intros [[] [] [] [] [] [] [] []]; reflexivity. Qed.

Lemma toLowerCase_twice : forall s, toLowerCase (toLowerCase s) = toLowerCase s.
Proof.
  induction s as [|c r IH]; [reflexivity|].
  cbn. rewrite lowerAscii_twice, IH. reflexivity.
Qed.

Lemma someKeyword_none :
  forall lowerDesc,
    (forall entry, In entry categoryKeywords -> someKeyword lowerDesc (snd entry) = false)
    <-> (forall keyword, In keyword allKeywords -> includes lowerDesc keyword = false).
Proof.
  intros lowerDesc. unfold allKeywords, someKeyword. split.
  - intros H keyword Hin. apply in_concat in Hin. destruct Hin as [ks [Hks Hin]].
    apply in_map_iff in Hks. destruct Hks as [entry [E Hentry]]. subst ks.
    specialize (H entry Hentry).
    destruct (includes lowerDesc keyword) eqn:I; [|reflexivity].
    rewrite <- H. symmetry. apply existsb_exists. exists keyword. split; assumption.
  - intros H entry Hentry.
    destruct (existsb _ (snd entry)) eqn:X; [|reflexivity].
    apply existsb_exists in X. destruct X as [keyword [Hin I]].
    rewrite H in I; [discriminate|]. apply in_concat. exists (snd entry).
    split; [apply in_map; exact Hentry | exact Hin].
Qed.

(** X25: [autoCategorizTransaction] always names one of its nine categories,
    reads the description without regard to the case of its ASCII letters,
    and answers "Otros" exactly when the description holds none of the
    keywords of the table. *)
Theorem auto_category_is_one_of_nine :
  forall description,
    In (autoCategorizTransaction description) categoryNames /\
    autoCategorizTransaction (toLowerCase description)
    = autoCategorizTransaction description /\
    (autoCategorizTransaction description = "Otros" <->
     forall keyword, In keyword allKeywords ->
                     includes (toLowerCase description) keyword = false).
Proof.
  intros description. split; [apply autoCategorizTransaction_named|].
  split; [unfold autoCategorizTransaction; rewrite toLowerCase_twice; reflexivity|].
  rewrite <- someKeyword_none. unfold autoCategorizTransaction.
  destruct (find _ categoryKeywords) as [entry|] eqn:F.
  - destruct (find_some _ _ F) as [Hin Hhit]. split.
    + intros E. exfalso. cbn in Hin.
      repeat (destruct Hin as [Hin | Hin]; [subst entry; discriminate E|]).
      exact Hin.
    + intros H. rewrite (H entry Hin) in Hhit. discriminate.
  - split; [|reflexivity]. intros _ entry Hin.
    apply (find_none _ _ F entry Hin).
Qed.

(** ** Completing by hand *)

(** X26: [completeChallenge] does not look at the status of the challenge:
    on any stored challenge, also one that is COMPLETED, FAILED or EXPIRED,
    it sets COMPLETED, issues one more reward for it and adds its reward
    points to the balance of its owner. *)
Theorem completeChallenge_ignores_the_status :
  forall j p now db c,
    Inv db ->
    LedgerInv db ->
    row j db = Some c ->
    let db' := snd (completeChallenge j p now db) in
    row j db' = Some (with_progress (with_status c COMPLETED) (with_completedAt p now)) /\
    rewardsFor j db' = rewardsFor j db + 1 /\
    balance (userId c) db' = balance (userId c) db + rewardPoints c.
Proof.
  intros j p now db c HInv HL Hrow db'. subst db'.
  destruct (completeChallenge_effect j p now db c HInv Hrow)
    as [r [db1 [Hrun [_ [Hr [_ Hrw]]]]]].
  split; [rewrite Hrun; exact Hr|].
  split; [rewrite Hrun; cbn [snd]; rewrite (Hrw j), String.eqb_refl; reflexivity|].
  clear Hrun Hr Hrw r db1.
  unfold completeChallenge, bind, getChallengeById, findOne_challenge.
  fold (row j db). rewrite Hrow.
  pose proof (updateChallenge_run j
                (mkUpdate (Some COMPLETED) (Some (with_completedAt p now))) db) as Hupd.
  rewrite Hrow in Hupd.
  unfold getChallengeById, findOne_challenge, bind in Hupd. rewrite Hupd.
  set (db1 := set_challenges db _).
  assert (HL1 : LedgerInv db1) by exact HL.
  destruct (addPoints_ledger (userId c) (rewardPoints c) (completedReason c)
              (Some (id c)) db1 HL1) as [r [db2 [Hadd [_ [_ [Hb _]]]]]].
  rewrite Hadd. cbn [snd ret]. unfold ret. cbn [snd]. exact Hb.
Qed.

Lemma completeChallenge_ignores_the_status_witness :
  let db := dbOf [wonSavings] [] in
  let db' := snd (completeChallenge "c-save" (progress wonSavings) (T0 + 5000) db) in
  rewardsFor "c-save" db' = rewardsFor "c-save" db + 1 /\
  balance "u1" db' = balance "u1" db + 75.
Proof.
  intros db db'.
  refine (proj2 (completeChallenge_ignores_the_status "c-save" (progress wonSavings)
                   (T0 + 5000) db wonSavings _ _ eq_refl)).
  - apply Inv_dbOf; [apply NoDup_single | reflexivity].
  - split; [constructor|]. split.
    + intros k _ [].
    + intros i k _ _ H. apply uuid_of_inj. exact H.
Defined.
